(** * Query extraction from component sources (gatsby, file-parser.js)

    A shallow embedding of [generateQueryName], [parseToAst],
    [findGraphQLTags], [FileParser.parseFile] and [FileParser.parseFiles],
    with the Babel traversal written out as a pre-order walk, the mutable
    locals ([queries], [documentLocations], [cache]) as explicit state and
    the reporter / action-creator calls as an event log.  The calls of
    [parseFile] that one [parseFiles] starts overlap: each of them runs
    from one [await] to the next, in an order that the event loop
    decides.

    What lives outside the module is a parameter: lodash's [camelCase],
    the md5 digest, the [preprocessSource] plugins, [babelParseToAst] and
    [getGraphQLTag] of babel-plugin-remove-graphql-queries.  [_.uniqBy] is
    written out after lodash's [baseUniq]. *)

From stdpp Require Import base option list strings pretty gmap.

Set Warnings "-register-all".
Open Scope string_scope.
Open Scope list_scope.

(** ** Characters that cannot be written inside a literal *)

Definition dq : string := String (Ascii.ascii_of_nat 34) EmptyString.
Definition nl : string := String (Ascii.ascii_of_nat 10) EmptyString.
Definition bq : string := String (Ascii.ascii_of_nat 96) EmptyString.

(** ** The Babel AST, restricted to what the visitors look at

    Only the node kinds named by a visitor or read through a property
    access are told apart; everything else is [Other] with its children in
    visitor-key order.  JSX names ([JSXIdentifier]) are not [Identifier]
    nodes, so an element or attribute keeps only the string found at
    [name.name] ([None] when that property is not a string, as for
    [<a.b>] or [a:b]). *)

Inductive node : Type :=
| JSXElement (elementName : option string) (attributes children : list node)
| JSXAttribute (attributeName : option string) (value : option node)
| TaggedTemplateExpression (start : N) (tag : node) (raw : list string)
    (expressions : list node)
| Identifier (name : string)
| VariableDeclarator (id : node) (init : option node)
| CallExpression (callee : node) (referencesGatsby : bool)
    (arguments : list node)
| ExportNamedDeclaration (declaration : list node)
| Other (children : list node).

(** [node.name] of an arbitrary node: a string only on identifiers. *)
Definition node_name (n : node) : option string :=
  match n with
  | Identifier x => Some x
  | _ => None
  end.

(** [node.type === `TaggedTemplateExpression`] *)
Definition isTaggedTemplateExpression (n : node) : bool :=
  match n with
  | TaggedTemplateExpression _ _ _ _ => true
  | _ => false
  end.

(** [node.start]; only read on tagged templates. *)
Definition node_start (n : node) : N :=
  match n with
  | TaggedTemplateExpression s _ _ _ => s
  | _ => 0%N
  end.

(** The nodes below [n], in the order [path.traverse] enters them
    (depth first, parents before children, children by visitor key). *)
Fixpoint descendants (n : node) : list node :=
  let walk := fix walk (l : list node) : list node :=
    match l with
    | [] => []
    | c :: cs => (c :: descendants c) ++ walk cs
    end in
  match n with
  | JSXElement _ attrs kids => walk attrs ++ walk kids
  | JSXAttribute _ None => []
  | JSXAttribute _ (Some v) => v :: descendants v
  | TaggedTemplateExpression _ t _ es => (t :: descendants t) ++ walk es
  | Identifier _ => []
  | VariableDeclarator i None => i :: descendants i
  | VariableDeclarator i (Some e) => (i :: descendants i) ++ (e :: descendants e)
  | CallExpression c _ args => (c :: descendants c) ++ walk args
  | ExportNamedDeclaration d => walk d
  | Other kids => walk kids
  end.

(** ** GraphQL definitions *)

(** A definition as [graphql.parse] returns it: [name.value] when the
    author gave a name, and [loc.start]. *)
Record parsedDefinition := {
  parsed_name : option string;
  parsed_loc_start : N
}.

(** A definition object as [findGraphQLTags] hands it on.  [oid] is the
    identity of the JS object (its allocation index within one run), which
    is what the [WeakMap] [documentLocations] is keyed by.  The four
    optional properties are the ones [extractStaticQuery] assigns; they are
    [None] while the property is absent from the object. *)
Record definition := {
  oid : N;
  name : option string;
  loc_start : N;
  isStaticQuery : option bool;
  isHook : option bool;
  text : option string;
  hash : option N
}.

(** [def.name = { value, kind: `Name` }] *)
Definition withName (def : definition) (value : string) : definition :=
  {| oid := oid def; name := Some value; loc_start := loc_start def;
     isStaticQuery := isStaticQuery def; isHook := isHook def;
     text := text def; hash := hash def |}.

(** What [getGraphQLTag(path)] can do: throw (interpolation in the
    template, empty or ill-formed GraphQL), return [{}] for a template
    that is not tagged [graphql], or return [{ ast, text, hash, isGlobal }]. *)
Inductive tagResult :=
| TagThrows (error : string)
| NoTag
| Tag (definitions : list parsedDefinition) (text : string) (hash : N)
    (isGlobal : bool).

Record Document := {
  kind : string;
  definitions : list definition
}.

(** ** Observable effects *)

Inductive event :=
| ReportError (message : string)
| ReportWarn (message : string)
| QueryExtractionGraphQLError (componentPath : string)
| QueryExtractionBabelError (componentPath error : string)
| QueryExtractedBabelSuccess (componentPath : string)
(* calls into collaborators, as a call counter would record them *)
| CallPreprocessSource (filename contents : string)
| CallBabelParseToAst (source filePath : string)
| CallGetGraphQLTag (template : N).

(** ** [_.uniqBy] (lodash [baseUniq] with an iteratee): keep a value when
    its computed key has not been seen, in array order. *)
Section uniqBy.
Context {A K : Type} `{EqDecision K}.
Variable iteratee : A → K.

Fixpoint baseUniq (seen : list K) (array : list A) : list A :=
  match array with
  | [] => []
  | value :: rest =>
      let computed := iteratee value in
      if decide (computed ∈ seen) then baseUniq seen rest
      else value :: baseUniq (computed :: seen) rest
  end.

Definition uniqBy (array : list A) : list A := baseUniq [] array.
End uniqBy.

(** ** The locator monad

    State of one [findGraphQLTags] run plus the events emitted so far; a
    computation either completes normally or throws. *)

Record locatorState := {
  queries : list definition;
  documentLocations : gmap N string;
  nextObject : N;
  emitted : list event
}.

Inductive completion (A : Type) :=
| Normal (a : A)
| Thrown (error : string).
Arguments Normal {A} a.
Arguments Thrown {A} error.

Definition M (A : Type) : Type := locatorState → completion A * locatorState.

Definition ret {A : Type} (a : A) : M A := λ s, (Normal a, s).

Definition bind {A B : Type} (m : M A) (f : A → M B) : M B := λ s,
  match m s with
  | (Normal a, s') => f a s'
  | (Thrown e, s') => (Thrown e, s')
  end.

Declare Scope locator_scope.
Delimit Scope locator_scope with M.
Notation "x ← y ; z" := (bind y (λ x : _, z))
  (at level 20, y at level 100, z at level 200, only parsing) : locator_scope.
Notation "x ;; z" := (bind x (λ _, z))
  (at level 100, z at level 200, only parsing, right associativity)
  : locator_scope.
Open Scope locator_scope.

Definition throw {A} (error : string) : M A := λ s, (Thrown error, s).
Definition getState : M locatorState := λ s, (Normal s, s).

(** The state after [events] were emitted one after the other. *)
Definition emitting (s : locatorState) (events : list event) : locatorState :=
  {| queries := queries s;
     documentLocations := documentLocations s;
     nextObject := nextObject s;
     emitted := emitted s ++ events |}.

Definition emit (e : event) : M unit := λ s, (Normal (), emitting s [e]).

(** [queries.push(...ds)] *)
Definition push (ds : list definition) : M unit := λ s,
  (Normal (), {| queries := queries s ++ ds;
                 documentLocations := documentLocations s;
                 nextObject := nextObject s;
                 emitted := emitted s |}).

(** [documentLocations.set(def, key)] *)
Definition setLocation (def : definition) (key : string) : M unit := λ s,
  (Normal (), {| queries := queries s;
                 documentLocations := <[oid def := key]> (documentLocations s);
                 nextObject := nextObject s;
                 emitted := emitted s |}).

Fixpoint visitAll {S : Type} (visitor : S → node → M S) (s : S)
    (nodes : list node) : M S :=
  match nodes with
  | [] => ret s
  | n :: rest => s' ← visitor s n; visitAll visitor s' rest
  end.

(** [traverse(root, visitor)] and [path.traverse(visitor)]: the visitor is
    entered on every node below the root, which is not itself visited.  [S]
    carries the closure variables the visitor assigns. *)
Definition traverseWith {S : Type} (root : node) (visitor : S → node → M S)
    (s : S) : M S :=
  visitAll visitor s (descendants root).

Definition traverse (root : node) (visitor : node → M unit) : M unit :=
  traverseWith root (λ _ n, visitor n) ().

Fixpoint forEach {A : Type} (f : A → M unit) (l : list A) : M unit :=
  match l with
  | [] => ret ()
  | x :: rest => f x;; forEach f rest
  end.

(** New objects for the definitions of one [graphql.parse] result. *)
Fixpoint allocate (next : N) (ds : list parsedDefinition) : list definition :=
  match ds with
  | [] => []
  | d :: rest =>
      {| oid := next; name := parsed_name d; loc_start := parsed_loc_start d;
         isStaticQuery := None; isHook := None; text := None; hash := None |}
      :: allocate (N.succ next) rest
  end.

Definition allocated (ds : list parsedDefinition) : M (list definition) := λ s,
  (Normal (allocate (nextObject s) ds),
   {| queries := queries s;
      documentLocations := documentLocations s;
      nextObject := (nextObject s + N.of_nat (length ds))%N;
      emitted := emitted s |}).

(** The template string [`${a}-${b}`] on two source offsets. *)
Definition locationKey (templateStart defStart : N) : string :=
  pretty templateStart +:+ "-" +:+ pretty defStart.

(** [s.indexOf(pattern)]: the first offset at which [pattern] starts, or -1. *)
Fixpoint indexOfFrom (pattern s : string) (i : Z) : Z :=
  if String.prefix pattern s then i
  else match s with
       | EmptyString => (-1)%Z
       | String _ rest => indexOfFrom pattern rest (i + 1)%Z
       end.

Definition indexOf (s pattern : string) : Z := indexOfFrom pattern s 0%Z.

(** ** The process: file system, the module-level [cache], and the events
    emitted so far *)
Record world := {
  fs : string → option string;   (* fs.readFile; None: the read fails *)
  cache : gmap string (list definition);
  log : list event
}.

Definition logged (w : world) (events : list event) : world :=
  {| fs := fs w; cache := cache w; log := log w ++ events |}.

Definition initialLocatorState : locatorState :=
  {| queries := []; documentLocations := ∅; nextObject := 0%N; emitted := [] |}.

(** ** The calls of a batch

    Where one [this.parseFile(file).then(doc => ...)] of [parseFiles]
    stands.  The call is suspended at each [await] and before each
    [then] callback; other calls run in between. *)
Inductive call :=
| AwaitReadFile (file : string)
    (* text = await fs.readFile(file, `utf8`) *)
| AwaitPreprocessSource (file text hash : string) (s : locatorState)
    (* transpiled = await apiRunnerNode(`preprocessSource`, ...) *)
| AwaitParseToAst (file hash : string) (ast : completion (option node))
    (s : locatorState)
    (* parseToAst(file, text).then(ast => ...) *)
| AwaitFindGraphQLTags (file hash : string)
    (result : completion (list definition))
    (* cache[hash] = await findGraphQLTags(file, text) *)
| AwaitParseFile (file : string) (doc : option Document)
    (* this.parseFile(file).then(doc => ...) *)
| Settled (file : string) (doc : option Document).

(** The calls of one [parseFiles], the process they share and the
    [documents] map. *)
Record batch := {
  process : world;
  calls : list call;
  documents : gmap string Document
}.

(** The events emitted between two states of a locator run. *)
Definition emittedSince (s s' : locatorState) : list event :=
  drop (length (emitted s)) (emitted s').

Module FileParser.
Section definitions.

(** Collaborators that live outside this module. *)
Variable camelCase : string → string.            (* lodash *)
Variable md5 : string → string.                  (* hex digest of the bytes fed to it *)
Variable preprocessSource : string → string → list string.
    (* apiRunnerNode(`preprocessSource`, ...); [] when no plugin answers *)
Variable babelParseToAst : string → string → string + node.
    (* inl: the error thrown *)
Variable getGraphQLTag : node → tagResult.

(** Add autogenerated query name if it wasn't defined by user. *)
Definition generateQueryName (def : definition) (hash : N) (file : string)
    : definition :=
  match name def with
  | Some (String _ _) => def
  | _ => withName def (camelCase file +:+ pretty hash)
  end.

Definition unknownQueryVariableMessage (varName file usageFunction : string)
    : string :=
  nl +:+ "We were unable to find the declaration of variable " +:+ dq
  +:+ varName +:+ dq +:+ ", which you passed as the " +:+ dq +:+ "query"
  +:+ dq +:+ " prop into the " +:+ usageFunction +:+ " declaration in "
  +:+ dq +:+ file +:+ dq +:+ "." +:+ nl +:+ nl
  +:+ "Perhaps the variable name has a typo?" +:+ nl +:+ nl
  +:+ "Also note that we are currently unable to use queries defined in files other than the file where the "
  +:+ usageFunction +:+ " is defined. If you're attempting to import the query, please move it into "
  +:+ dq +:+ file +:+ dq
  +:+ ". If being able to import queries from another file is an important capability for you, we invite your help fixing it."
  +:+ nl.

Definition warnForUnknownQueryVariable (varName file usageFunction : string)
    : M unit :=
  emit (ReportWarn (unknownQueryVariableMessage varName file usageFunction)).

Definition failedToParsePreprocessed (filePath : string) : string :=
  "Failed to parse preprocessed file " +:+ filePath.

Definition problemParsing (filePath : string) : string :=
  "There was a problem parsing " +:+ dq +:+ filePath +:+ dq
  +:+ "; any GraphQL fragments or queries in this file were not processed. "
  +:+ nl
  +:+ "This may indicate a syntax error in the code, or it may be a file type that Gatsby does not know how to parse.".

(** The [for (const item of transpiled)] loop; [None] when [ast] is still
    [undefined] after it. *)
Fixpoint tryCandidates (filePath : string) (transpiled : list string)
    : M (option node) :=
  match transpiled with
  | [] => ret None
  | item :: rest =>
      emit (CallBabelParseToAst item filePath);;
      match babelParseToAst item filePath with
      | inr tmp => ret (Some tmp)
      | inl error =>
          emit (ReportError error);;
          emit (QueryExtractionGraphQLError filePath);;
          tryCandidates filePath rest
      end
  end.

(** The [if (transpiled && transpiled.length) ... else ...] statement. *)
Definition parseTranspiled (filePath fileStr : string)
    (transpiled : list string) : M (option node) :=
  match transpiled with
  | _ :: _ =>
      ast ← tryCandidates filePath transpiled;
      match ast with
      | Some ast => ret (Some ast)
      | None =>
          emit (ReportError (failedToParsePreprocessed filePath));;
          emit (QueryExtractionGraphQLError filePath);;
          ret None
      end
  | [] =>
      emit (CallBabelParseToAst fileStr filePath);;
      match babelParseToAst fileStr filePath with
      | inr ast => ret (Some ast)
      | inl error =>
          emit (QueryExtractionBabelError filePath error);;
          emit (ReportError (problemParsing filePath));;
          ret None
      end
  end.

(** Preprocess and attempt to parse source; return an AST if we can, log
    an error if we can't.  [None] is the [null] result. *)
Definition parseToAst (filePath fileStr : string) : M (option node) :=
  emit (CallPreprocessSource filePath fileStr);;
  parseTranspiled filePath fileStr (preprocessSource filePath fileStr).

Definition globalTagMessage (file : string) : string :=
  "Using the global " +:+ bq +:+ "graphql" +:+ bq
  +:+ " tag is deprecated, and will not be supported in v3." +:+ nl
  +:+ "Import it instead like:  import { graphql } from 'gatsby' in file:"
  +:+ nl +:+ file.

Definition warnForGlobalTag (file : string) : M unit :=
  emit (ReportWarn (globalTagMessage file)).

(** The call [getGraphQLTag(path)]: [None] stands for a result without
    [ast].  The definitions come out of [graphql.parse], which builds new
    objects at every call. *)
Definition callGetGraphQLTag (path : node)
    : M (option (list definition * string * N * bool)) :=
  emit (CallGetGraphQLTag (node_start path));;
  match getGraphQLTag path with
  | TagThrows error => throw error
  | NoTag => ret None
  | Tag ds text hash isGlobal =>
      defs ← allocated ds;
      ret (Some (defs, text, hash, isGlobal))
  end.

(** The [gqlAst.definitions.forEach] block shared by both extractors:
    records each definition's location and names it.  Returns the
    definitions as they are after the in-place renaming. *)
Definition locateAndName (file : string) (path : node) (hash : N)
    (defs : list definition) : M (list definition) :=
  forEach (λ def,
    setLocation def (locationKey (node_start path) (loc_start def))) defs;;
  ret (map (λ def, generateQueryName def hash file) defs).

(** The [.map(d => ...)] step of [extractStaticQuery]. *)
Definition markStaticQuery (isHook : bool) (text : string) (hash : N)
    (d : definition) : definition :=
  {| oid := oid d; name := name d; loc_start := loc_start d;
     isStaticQuery := Some true;
     isHook := Some isHook;
     text := Some text;
     hash := Some hash |}.

Definition extractStaticQuery (file : string)
    (taggedTemplateExpressPath : node) (isHook : bool) : M unit :=
  r ← callGetGraphQLTag taggedTemplateExpressPath;
  match r with
  | None => ret ()
  | Some (defs, text, hash, isGlobal) =>
      (if isGlobal then warnForGlobalTag file else ret ());;
      defs ← locateAndName file taggedTemplateExpressPath hash defs;
      let definitions := map (markStaticQuery isHook text hash) defs in
      push definitions
  end.

(** The [TaggedTemplateExpression] visitor of the page-query pass. *)
Definition extractPageQuery (file : string) (innerPath : node) : M unit :=
  r ← callGetGraphQLTag innerPath;
  match r with
  | None => ret ()
  | Some (defs, _, hash, isGlobal) =>
      (if isGlobal then warnForGlobalTag file else ret ());;
      defs ← locateAndName file innerPath hash defs;
      push defs
  end.

(** The [VariableDeclarator] visitor of the nested [traverse(ast, ...)];
    the accumulator is the closure variable [found].  Reading
    [init.type] on a declarator without initialiser throws. *)
Definition variableDeclaratorVisitor (file varName : string) (isHook : bool)
    (found : bool) (varPath : node) : M bool :=
  match varPath with
  | VariableDeclarator id init =>
      if decide (node_name id = Some varName) then
        match init with
        | None => throw "TypeError: Cannot read property 'type' of null"
        | Some e =>
            if isTaggedTemplateExpression e then
              traverseWith varPath (λ found templatePath,
                match templatePath with
                | TaggedTemplateExpression _ _ _ _ =>
                    extractStaticQuery file templatePath isHook;;
                    ret true
                | _ => ret found
                end) found
            else ret found
        end
      else ret found
  | _ => ret found
  end.

(** From [const varName = ...] to the warning, in either identifier
    visitor. *)
Definition findVariable (ast : node) (file varName usageFunction : string)
    (isHook : bool) : M unit :=
  found ← traverseWith ast
             (variableDeclaratorVisitor file varName isHook) false;
  if found then ret ()
  else warnForUnknownQueryVariable varName file usageFunction.

(** Look for queries in <StaticQuery /> elements. *)
Definition staticQueryVisitor (ast : node) (file : string) (path : node)
    : M unit :=
  match path with
  | JSXElement elementName _ _ =>
      if decide (elementName = Some "StaticQuery") then
        traverse path (λ jsxPath,
          match jsxPath with
          | JSXAttribute attributeName _ =>
              if decide (attributeName = Some "query") then
                traverse jsxPath (λ p,
                  match p with
                  | TaggedTemplateExpression _ _ _ _ =>
                      extractStaticQuery file p false
                  | Identifier varName =>
                      if decide (varName ≠ "graphql") then
                        findVariable ast file varName "<StaticQuery>" false
                      else ret ()
                  | _ => ret ()
                  end)
              else ret ()
          | _ => ret ()
          end)
      else ret ()
  | _ => ret ()
  end.

(** Look for queries in useStaticQuery hooks. *)
Definition useStaticQueryVisitor (ast : node) (file : string)
    (hookPath : node) : M unit :=
  match hookPath with
  | CallExpression callee referencesGatsby _ =>
      if bool_decide (node_name callee ≠ Some "useStaticQuery")
         || negb referencesGatsby
      then ret ()
      else
        traverse hookPath (λ p,
          match p with
          | TaggedTemplateExpression _ _ _ _ =>
              extractStaticQuery file p true
          | Identifier varName =>
              if bool_decide (varName ≠ "graphql")
                 && bool_decide (varName ≠ "useStaticQuery")
              then findVariable ast file varName "useStaticQuery" true
              else ret ()
          | _ => ret ()
          end)
  | _ => ret ()
  end.

(** Look for exported page queries. *)
Definition pageQueryVisitor (file : string) (path : node) : M unit :=
  match path with
  | ExportNamedDeclaration _ =>
      traverse path (λ innerPath,
        match innerPath with
        | TaggedTemplateExpression _ _ _ _ => extractPageQuery file innerPath
        | _ => ret ()
        end)
  | _ => ret ()
  end.

(** Remove duplicate queries:
    [_.uniqBy(queries, q => documentLocations.get(q))]. *)
Definition uniqueQueries (documentLocations : gmap N string)
    (queries : list definition) : list definition :=
  uniqBy (λ q, documentLocations !! oid q) queries.

(** The three traversals of the [.then(ast => ...)] callback. *)
Definition passes (file : string) (ast : node) : M unit :=
  traverse ast (staticQueryVisitor ast file);;
  traverse ast (useStaticQueryVisitor ast file);;
  traverse ast (pageQueryVisitor file).

(** The body of the [.then(ast => ...)] callback for a non-null [ast]. *)
Definition locateTags (file : string) (ast : node) : M (list definition) :=
  passes file ast;;
  s ← getState;
  ret (uniqueQueries (documentLocations s) (queries s)).

Definition findGraphQLTags (file text : string) : M (list definition) :=
  ast ← parseToAst file text;
  match ast with
  | None => ret []
  | Some ast => locateTags file ast
  end.

Definition problemReading (file : string) : string :=
  "There was a problem reading the file: " +:+ file.

Definition problemParsingGraphQL (file : string) : string :=
  "There was a problem parsing the GraphQL query in file: " +:+ file.

(** [cache[hash] || (cache[hash] = await findGraphQLTags(file, text))];
    a stored array is truthy even when empty.  When the extraction throws
    nothing is stored. *)
Definition cachedFindGraphQLTags (hash file text : string) (w : world)
    : completion (list definition) * world :=
  match cache w !! hash with
  | Some astDefinitions => (Normal astDefinitions, w)
  | None =>
      match findGraphQLTags file text initialLocatorState with
      | (Normal astDefinitions, s) =>
          (Normal astDefinitions,
           {| fs := fs w;
              cache := <[hash := astDefinitions]> (cache w);
              log := log w ++ emitted s |})
      | (Thrown err, s) => (Thrown err, logged w (emitted s))
      end
  end.

Definition parseFile (file : string) (w : world) : option Document * world :=
  match fs w file with
  | None =>
      (None, logged w [ReportError (problemReading file);
                       QueryExtractionGraphQLError file])
  | Some text =>
      if decide (indexOf text "graphql" = (-1)%Z) then (None, w)
      else
        let hash := md5 (file +:+ text) in
        match cachedFindGraphQLTags hash file text w with
        | (Normal astDefinitions, w) =>
            (* If any AST definitions were extracted, report success. *)
            let w :=
              if decide (0 < length astDefinitions)
              then logged w [QueryExtractedBabelSuccess file]
              else w in
            (match astDefinitions with
             | _ :: _ => Some {| kind := "Document";
                                 definitions := astDefinitions |}
             | [] => None
             end, w)
        | (Thrown err, w) =>
            (None, logged w [ReportError (problemParsingGraphQL file);
                             QueryExtractionGraphQLError file])
        end
  end.

(** *** [parseFiles]

    [Promise.all(files.map(file => this.parseFile(file).then(...)))]
    starts every call before any of them gets past its first [await];
    from then on the calls take turns, each running from where it is
    suspended to its next suspension. *)

(** The end of [parseFile] once [astDefinitions] is at hand: the success
    notification and the returned value. *)
Definition resolved (file : string) (astDefinitions : list definition)
    (w : world) : call * world :=
  (* If any AST definitions were extracted, report success. *)
  let w :=
    if decide (0 < length astDefinitions)
    then logged w [QueryExtractedBabelSuccess file]
    else w in
  (AwaitParseFile file
     match astDefinitions with
     | _ :: _ => Some {| kind := "Document"; definitions := astDefinitions |}
     | [] => None
     end, w).

(** One turn of a call: from where it is suspended to its next
    suspension. *)
Definition resume (c : call) (w : world) (documents : gmap string Document)
    : call * world * gmap string Document :=
  match c with
  | AwaitReadFile file =>
      match fs w file with
      | None =>
          (AwaitParseFile file None,
           logged w [ReportError (problemReading file);
                     QueryExtractionGraphQLError file],
           documents)
      | Some text =>
          if decide (indexOf text "graphql" = (-1)%Z)
          then (AwaitParseFile file None, w, documents)
          else
            let hash := md5 (file +:+ text) in
            match cache w !! hash with
            | Some astDefinitions =>
                (resolved file astDefinitions w, documents)
            | None =>
                (* findGraphQLTags(file, text) runs up to the first
                   await of parseToAst *)
                let s :=
                  (emit (CallPreprocessSource file text)
                     initialLocatorState).2 in
                (AwaitPreprocessSource file text hash s,
                 logged w (emitted s), documents)
            end
      end
  | AwaitPreprocessSource file text hash s =>
      let '(ast, s') :=
        parseTranspiled file text (preprocessSource file text) s in
      (AwaitParseToAst file hash ast s', logged w (emittedSince s s'),
       documents)
  | AwaitParseToAst file hash ast s =>
      let '(result, s') :=
        match ast with
        | Normal None => (Normal [], s)
        | Normal (Some ast) => locateTags file ast s
        | Thrown error => (Thrown error, s)
        end in
      (AwaitFindGraphQLTags file hash result, logged w (emittedSince s s'),
       documents)
  | AwaitFindGraphQLTags file hash result =>
      match result with
      | Normal astDefinitions =>
          (resolved file astDefinitions
             {| fs := fs w;
                cache := <[hash := astDefinitions]> (cache w);
                log := log w |},
           documents)
      | Thrown err =>
          (AwaitParseFile file None,
           logged w [ReportError (problemParsingGraphQL file);
                     QueryExtractionGraphQLError file],
           documents)
      end
  | AwaitParseFile file doc =>
      (Settled file doc, w,
       match doc with
       | None => documents
       | Some doc => <[file := doc]> documents
       end)
  | Settled file doc => (c, w, documents)
  end.

(** The [i]-th call of the batch takes its turn. *)
Definition advance (b : batch) (i : nat) : batch :=
  match calls b !! i with
  | None => b
  | Some c =>
      let '(c', w, documents) := resume c (process b) (documents b) in
      {| process := w; calls := <[i := c']> (calls b);
         documents := documents |}
  end.

(** [files.map(file => this.parseFile(file).then(...))]: every call is
    started, in list order, and is waiting for its file. *)
Definition started (files : list string) (w : world) : batch :=
  {| process := w; calls := AwaitReadFile <$> files; documents := ∅ |}.

(** Turns that bring every call to its end, whatever happened before: a
    call is settled after five turns. *)
Definition remaining (files : list string) : list nat :=
  flat_map (replicate 5) (seq 0 (length files)).

(** The batch once [Promise.all] resolves.  [schedule] is the order in
    which the calls took their turns, as the event loop happened to
    decide; calls that it leaves unfinished end in list order. *)
Definition settled (files : list string) (schedule : list nat) (w : world)
    : batch :=
  foldl advance (started files w) (schedule ++ remaining files).

(** [parseFiles]: the map and the process when the promise resolves. *)
Definition parseFiles (files : list string) (schedule : list nat) (w : world)
    : gmap string Document * world :=
  let b := settled files schedule w in
  (documents b, process b).

End definitions.
End FileParser.
Import FileParser.

(** ** A concrete instance of the collaborators, for running the code *)
Module Fixture.

Definition camelCase (s : string) : string := s.
Definition md5 (s : string) : string := s.

(** A template tagged [graphql] at offset [start]. *)
Definition gql (start : N) (body : string) : node :=
  TaggedTemplateExpression start (Identifier "graphql") [body] [].

(** [graphql.parse] on the few bodies used here: one definition at
    offset 0, named when the body starts with [query Site]; the hash is
    the length of the body. *)
Definition getGraphQLTag (path : node) : tagResult :=
  match path with
  | TaggedTemplateExpression _ (Identifier "graphql") [body] [] =>
      if decide (body = EmptyString) then TagThrows "EmptyGraphQLTagError"
      else if String.prefix "query {{" body then TagThrows "GraphQLSyntaxError"
      else
        Tag [{| parsed_name :=
                  if String.prefix "query Site" body then Some "Site"
                  else None;
                parsed_loc_start := 0 |}]
            body (N.of_nat (String.length body)) false
  | TaggedTemplateExpression _ (Identifier "graphql") _ _ =>
      TagThrows "StringInterpolationNotAllowedError"
  | _ => NoTag
  end.

(** [import { names } from 'gatsby'] *)
Definition importGatsby (names : list string) : node :=
  Other (map (λ x, Other [Identifier x; Identifier x]) names ++ [Other []]).

(** [<StaticQuery query={query} />] *)
Definition staticQuery (query : node) : node :=
  JSXElement (Some "StaticQuery")
    [JSXAttribute (Some "query") (Some (Other [query]))] [].

(** [useStaticQuery(argument)], the callee bound by the import. *)
Definition useStaticQuery (argument : node) : node :=
  CallExpression (Identifier "useStaticQuery") true [argument].

(** [const x = init] or [let x] *)
Definition declare (x : string) (init : option node) : node :=
  Other [VariableDeclarator (Identifier x) init].

(** [const x = () => body] *)
Definition component (x : string) (body : node) : node :=
  declare x (Some (Other [body])).

Definition pageSource : string :=
  "import { graphql } from 'gatsby'; export const query = graphql"
  +:+ bq
  +:+ "{ site { id } }"
  +:+ bq.

Definition twoSource : string :=
  "import { graphql, StaticQuery } from 'gatsby'; const Q = graphql"
  +:+ bq
  +:+ "{ a }"
  +:+ bq
  +:+ "; const A = () => <StaticQuery query={Q} />; const B = () => <StaticQuery query={Q} />".

Definition bothSource : string :=
  "import { graphql, StaticQuery, useStaticQuery } from 'gatsby'; const Q = graphql"
  +:+ bq
  +:+ "{ a }"
  +:+ bq
  +:+ "; const A = () => <StaticQuery query={Q} />; const B = () => useStaticQuery(Q)".

Definition uninitSource : string :=
  "import { graphql, StaticQuery } from 'gatsby'; let Q; const A = () => <StaticQuery query={Q} />; export const query = graphql"
  +:+ bq
  +:+ "{ b }"
  +:+ bq.

Definition missingSource : string :=
  "import { graphql, StaticQuery } from 'gatsby'; const A = () => <StaticQuery query={Missing} />; export const query = graphql"
  +:+ bq
  +:+ "{ b }"
  +:+ bq.

Definition brokenSource : string :=
  "import { graphql, useStaticQuery } from 'gatsby'; const A = () => useStaticQuery(graphql"
  +:+ bq
  +:+ "query {{"
  +:+ bq
  +:+ ")".

Definition shadowSource : string :=
  "import { graphql, StaticQuery } from 'gatsby'; const Q = graphql"
  +:+ bq
  +:+ "{ a }"
  +:+ bq
  +:+ "; const A = () => <StaticQuery query={Q} />; const B = () => <StaticQuery query={Q} />; const C = () => { let Q; return null }".

Definition plainSource : string :=
  "export default () => null".

Definition pageAst : node :=
  Other [importGatsby ["graphql"];
         ExportNamedDeclaration
           [declare "query" (Some (gql 55 "{ site { id } }"))]].

Definition twoElementsAst : node :=
  Other [importGatsby ["graphql"; "StaticQuery"];
         declare "Q" (Some (gql 57 "{ a }"));
         component "A" (staticQuery (Identifier "Q"));
         component "B" (staticQuery (Identifier "Q"))].

Definition elementAndHookAst : node :=
  Other [importGatsby ["graphql"; "StaticQuery"; "useStaticQuery"];
         declare "Q" (Some (gql 73 "{ a }"));
         component "A" (staticQuery (Identifier "Q"));
         component "B" (useStaticQuery (Identifier "Q"))].

Definition uninitialisedAst : node :=
  Other [importGatsby ["graphql"; "StaticQuery"];
         declare "Q" None;
         component "A" (staticQuery (Identifier "Q"));
         ExportNamedDeclaration
           [declare "query" (Some (gql 118 "{ b }"))]].

Definition missingAst : node :=
  Other [importGatsby ["graphql"; "StaticQuery"];
         component "A" (staticQuery (Identifier "Missing"));
         ExportNamedDeclaration
           [declare "query" (Some (gql 117 "{ b }"))]].

Definition shadowAst : node :=
  Other [importGatsby ["graphql"; "StaticQuery"];
         declare "Q" (Some (gql 57 "{ a }"));
         component "A" (staticQuery (Identifier "Q"));
         component "B" (staticQuery (Identifier "Q"));
         component "C" (Other [declare "Q" None; Other []])].

Definition brokenAst : node :=
  Other [importGatsby ["graphql"; "useStaticQuery"];
         component "A" (useStaticQuery (gql 81 "query {{"))].

(** A markdown page with the page query in it. *)
Definition mdxSource : string := "# Title" +:+ nl +:+ nl +:+ pageSource.

(** The files on disk, each with the AST Babel builds for it. *)
Definition sources : list (string * (string * node)) :=
  [("page.js", (pageSource, pageAst));
   ("two.js", (twoSource, twoElementsAst));
   ("both.js", (bothSource, elementAndHookAst));
   ("uninit.js", (uninitSource, uninitialisedAst));
   ("missing.js", (missingSource, missingAst));
   ("broken.js", (brokenSource, brokenAst));
   ("shadow.js", (shadowSource, shadowAst));
   ("plain.js", (plainSource, Other []))].

Definition readFile (file : string) : option string :=
  if decide (file = "page.mdx") then Some mdxSource
  else fst <$> (list_to_map sources : gmap string (string * node)) !! file.

(** Babel parses the JavaScript sources above and nothing else. *)
Definition babelParseToAst (source filePath : string) : string + node :=
  match list_find (λ e, e.2.1 = source) sources with
  | Some (_, (_, (_, ast))) => inr ast
  | None => inl "SyntaxError: Unexpected token"
  end.

(** One plugin, answering for [.mdx] files with the contents as they are,
    which do not parse, followed by the JavaScript in them. *)
Definition preprocessSource (filename contents : string) : list string :=
  if decide (filename = "page.mdx") then [contents; pageSource] else [].

Definition world0 : world := {| fs := readFile; cache := ∅; log := [] |}.

(** The process after [file] was overwritten with [text]. *)
Definition rewritten (file text : string) (w : world) : world :=
  {| fs := λ f, if decide (f = file) then Some text else fs w f;
     cache := cache w; log := log w |}.

(** Three definition objects, the first two registered at one location. *)
Definition sampleQueries : list definition :=
  allocate 0 (replicate 3 {| parsed_name := None; parsed_loc_start := 0 |}).

Definition sampleLocations : gmap N string :=
  <[0%N := locationKey 10 0]>
    (<[1%N := locationKey 10 0]> (<[2%N := locationKey 30 0]> ∅)).

Definition parseFile : string → world → option Document * world :=
  FileParser.parseFile camelCase md5 preprocessSource babelParseToAst
    getGraphQLTag.

End Fixture.

(** * Vocabulary of the statements *)
Module Spec.

(** ** Shapes of definitions and events *)

(** The definition is as [graphql.parse] left it: none of the properties
    assigned by [extractStaticQuery]. *)
Definition unmarked (d : definition) : Prop :=
  isStaticQuery d = None ∧ isHook d = None ∧ text d = None ∧ hash d = None.

Definition markedStatic (d : definition) : Prop :=
  isStaticQuery d = Some true
  ∧ is_Some (isHook d) ∧ is_Some (text d) ∧ is_Some (hash d).

Definition named (d : definition) : Prop :=
  ∃ n, name d = Some n ∧ n ≠ EmptyString.

Definition wellFormed (d : definition) : Prop :=
  named d ∧ (markedStatic d ∨ unmarked d).

(** The four properties as [extractStaticQuery] assigns them when called
    with the flag [hook], for a template with the text [source] and the
    hash [h]. *)
Definition markedWith (hook : bool) (source : string) (h : N)
    (d : definition) : Prop :=
  isStaticQuery d = Some true ∧ isHook d = Some hook
  ∧ text d = Some source ∧ hash d = Some h.

Section tags.
Variable getGraphQLTag : node → tagResult.

(** The definition carries the four properties, with the flag [hook],
    and the text and the hash that [getGraphQLTag] returned for a
    template. *)
Definition fromTag (hook : bool) (d : definition) : Prop :=
  ∃ path ds source h g,
    getGraphQLTag path = Tag ds source h g ∧ markedWith hook source h d.

(** A definition as the passes leave it: named, and either with none of
    the four properties, or with those of the component or of the hook
    pass. *)
Definition traced (d : definition) : Prop :=
  named d ∧ (unmarked d ∨ ∃ hook, fromTag hook d).

End tags.

Definition notSuccess (e : event) : Prop :=
  match e with
  | QueryExtractedBabelSuccess _ => False
  | _ => True
  end.

(** The definitions [m] pushes onto [queries] when run in [s]. *)
Definition pushedBy {A : Type} (m : M A) (s : locatorState)
    : list definition :=
  drop (length (queries s)) (queries (m s).2).

(** [s'] is [s] with well-formed definitions pushed and events other than
    the success notification emitted. *)
Definition extends (s s' : locatorState) : Prop :=
  ∃ added events,
    queries s' = queries s ++ added ∧ Forall wellFormed added
    ∧ emitted s' = emitted s ++ events ∧ Forall notSuccess events.

(** [m] only extends the state, and its normal results satisfy [Q]. *)
Definition yields {A : Type} (m : M A) (Q : A → Prop) : Prop :=
  ∀ s, extends s (m s).2 ∧ ∀ a, (m s).1 = Normal a → Q a.

Definition steps {A : Type} (m : M A) : Prop := yields m (λ _, True).

(** [s'] is [s] with definitions satisfying [P] pushed. *)
Definition pushes (P : definition → Prop) (s s' : locatorState) : Prop :=
  ∃ added, queries s' = queries s ++ added ∧ Forall P added.

(** [m] returns, in whatever state it starts. *)
Definition returns {A : Type} (m : M A) : Prop :=
  ∀ s, ∃ a s', m s = (Normal a, s').


(** ** Occurrences of a substring *)

Definition occursIn (pattern s : string) : Prop :=
  ∃ pre post, s = pre +:+ pattern +:+ post.


(** ** The cache and the end of [parseFile] *)

(** Every cached array holds well-formed definitions. *)
Definition cacheWellFormed (w : world) : Prop :=
  map_Forall (λ _ defs, Forall wellFormed defs) (cache w).

(** Every cached array holds definitions as the passes leave them. *)
Definition cacheTraced (getGraphQLTag : node → tagResult) (w : world)
    : Prop :=
  map_Forall (λ _ defs, Forall (traced getGraphQLTag) defs) (cache w).

(** How [parseFile] finishes once [astDefinitions] is at hand. *)
Definition finish (file : string) (astDefinitions : list definition)
    (w : world) : option Document * world :=
  match astDefinitions with
  | _ :: _ =>
      (Some {| kind := "Document"; definitions := astDefinitions |},
       logged w [QueryExtractedBabelSuccess file])
  | [] => (None, w)
  end.


(** ** Batches *)

(** The path a call was started for. *)
Definition callFile (c : call) : string :=
  match c with
  | AwaitReadFile file | AwaitPreprocessSource file _ _ _
  | AwaitParseToAst file _ _ _ | AwaitFindGraphQLTags file _ _
  | AwaitParseFile file _ | Settled file _ => file
  end.

(** An upper bound of the turns a call still takes. *)
Definition turnsLeft (c : call) : nat :=
  match c with
  | AwaitReadFile _ => 5
  | AwaitPreprocessSource _ _ _ _ => 4
  | AwaitParseToAst _ _ _ _ => 3
  | AwaitFindGraphQLTags _ _ _ => 2
  | AwaitParseFile _ _ => 1
  | Settled _ _ => 0
  end.

(** [w'] is [w] some calls of [parseFile] later: the same files, every
    cache entry as it was, the log extended. *)
Definition later (w w' : world) : Prop :=
  fs w' = fs w ∧ cache w ⊆ cache w' ∧ log w `prefix_of` log w'.

Section batch.
Variable camelCase : string → string.
Variable md5 : string → string.
Variable preprocessSource : string → string → list string.
Variable babelParseToAst : string → string → string + node.
Variable getGraphQLTag : node → tagResult.

Local Abbreviation parseToAst :=
  (FileParser.parseToAst preprocessSource babelParseToAst).
Local Abbreviation findGraphQLTags :=
  (FileParser.findGraphQLTags camelCase preprocessSource babelParseToAst
     getGraphQLTag).
Local Abbreviation parseFile :=
  (FileParser.parseFile camelCase md5 preprocessSource babelParseToAst
     getGraphQLTag).

(** [w'] is the process at some moment of a batch over [files] that was
    started in [w]: the same files, the log extended, every cache entry
    of [w] as it was, and every other entry the extraction of a file of
    the batch, under its key. *)
Definition during (files : list string) (w w' : world) : Prop :=
  later w w'
  ∧ ∀ key defs, cache w' !! key = Some defs →
      cache w !! key = Some defs
      ∨ (cache w !! key = None
         ∧ ∃ file text,
             file ∈ files ∧ fs w file = Some text
             ∧ indexOf text "graphql" ≠ (-1)%Z
             ∧ key = md5 (file +:+ text)
             ∧ (findGraphQLTags file text initialLocatorState).1
               = Normal defs).

(** The call for [file] missed the cache under [hash], the key of the
    file and its [text]. *)
Definition pending (files : list string) (w : world)
    (file text hash : string) : Prop :=
  fs w file = Some text ∧ indexOf text "graphql" ≠ (-1)%Z
  ∧ hash = md5 (file +:+ text) ∧ cache w !! hash = None.

(** What a suspended call carries is what the code computed up to
    there; what a call returned is what [parseFile] returns in a state of
    the process during the batch. *)
Definition callSound (files : list string) (w : world) (c : call) : Prop :=
  match c with
  | AwaitReadFile _ => True
  | AwaitPreprocessSource file text hash s =>
      pending files w file text hash
      ∧ s = emitting initialLocatorState [CallPreprocessSource file text]
  | AwaitParseToAst file hash ast s =>
      ∃ text, pending files w file text hash
              ∧ parseToAst file text initialLocatorState = (ast, s)
  | AwaitFindGraphQLTags file hash result =>
      ∃ text, pending files w file text hash
              ∧ (findGraphQLTags file text initialLocatorState).1 = result
  | AwaitParseFile file doc | Settled file doc =>
      ∃ w', during files w w' ∧ doc = (parseFile file w').1
  end.

Definition sound (files : list string) (w : world) (b : batch) : Prop :=
  during files w (process b)
  ∧ callFile <$> calls b = files
  ∧ Forall (callSound files w) (calls b)
  ∧ (∀ file doc, documents b !! file = Some doc →
       Settled file (Some doc) ∈ calls b)
  ∧ (∀ file doc, Settled file (Some doc) ∈ calls b →
       is_Some (documents b !! file)).

(** No other path of the batch has, with its text, the key of [file]
    with its text. *)
Definition aloneUnderKey (files : list string) (w : world) (file : string)
    : Prop :=
  ∀ file' text text',
    file' ∈ files → file' ≠ file →
    fs w file = Some text → fs w file' = Some text' →
    md5 (file' +:+ text') ≠ md5 (file +:+ text).

End batch.

(** ** Preprocessed candidates *)
Section candidates.
Variable babelParseToAst : string → string → string + node.

(** What trying one candidate that does not parse emits. *)
Definition failureEvents (filePath item : string) : list event :=
  match babelParseToAst item filePath with
  | inl error =>
    [CallBabelParseToAst item filePath; ReportError error;
     QueryExtractionGraphQLError filePath]
  | inr _ => []
  end.

Definition failsToParse (filePath item : string) : Prop :=
  ∃ error, babelParseToAst item filePath = inl error.

(** The candidates after the failing ones: none, or a first one that
  parses. *)
Definition parsesFirst (filePath : string) (rest : list string) : Prop :=
  match rest with
  | [] => True
  | item :: _ => ∃ ast, babelParseToAst item filePath = inr ast
  end.

Definition firstAst (filePath : string) (rest : list string) : option node :=
  match rest with
  | [] => None
  | item :: _ =>
    match babelParseToAst item filePath with
    | inr ast => Some ast
    | inl _ => None
    end
  end.

End candidates.

(** ** One variable, several call sites *)

(** The nodes right below [n], by visitor key. *)
Definition children (n : node) : list node :=
  match n with
  | JSXElement _ attrs kids => attrs ++ kids
  | JSXAttribute _ None => []
  | JSXAttribute _ (Some v) => [v]
  | TaggedTemplateExpression _ t _ es => t :: es
  | Identifier _ => []
  | VariableDeclarator i None => [i]
  | VariableDeclarator i (Some e) => [i; e]
  | CallExpression c _ args => c :: args
  | ExportNamedDeclaration d => d
  | Other kids => kids
  end.

(** Nothing in the file makes a traversal throw: every declarator has an
    initialiser, and [getGraphQLTag] throws on no node. *)
Definition traversable (getGraphQLTag : node → tagResult) (ast : node)
    : Prop :=
  (∀ id init, VariableDeclarator id init ∈ descendants ast → is_Some init)
  ∧ (∀ path error, path ∈ descendants ast →
       getGraphQLTag path ≠ TagThrows error).

(** [<StaticQuery query={Q} />] somewhere in the file: an element named
    [StaticQuery] with an attribute named [query] in which the
    identifier [Q] occurs. *)
Definition elementSite (ast : node) (Q : string) : Prop :=
  ∃ attributes children value,
    let element := JSXElement (Some "StaticQuery") attributes children in
    let attribute := JSXAttribute (Some "query") value in
    element ∈ descendants ast ∧ attribute ∈ descendants element
    ∧ Identifier Q ∈ descendants attribute.

(** [useStaticQuery(Q)] somewhere in the file, [useStaticQuery] being
    imported from gatsby: a call of that callee in which the identifier
    [Q] occurs. *)
Definition hookSite (ast : node) (Q : string) : Prop :=
  ∃ callee arguments,
    let call := CallExpression callee true arguments in
    node_name callee = Some "useStaticQuery"
    ∧ call ∈ descendants ast ∧ Identifier Q ∈ descendants call
    ∧ Q ≠ "useStaticQuery".

(** One definition of [defs] is registered under [key], and no other. *)
Definition onceIn (locations : gmap N string) (key : string)
    (defs : list definition) : Prop :=
  ∃ i q, defs !! i = Some q ∧ locations !! oid q = Some key
         ∧ ∀ j q', defs !! j = Some q' →
             locations !! oid q' = Some key → j = i.

(** [documentLocations] after the [forEach] of one extraction. *)
Definition setLocations (templateStart : N) (defs : list definition)
    (m : gmap N string) : gmap N string :=
  foldl (λ m def, <[oid def := locationKey templateStart (loc_start def)]> m)
    m defs.

Inductive callSite := StaticQueryElement | UseStaticQueryCall.

(** [<StaticQuery query={Q} />] and [useStaticQuery(Q)], the latter with
    [useStaticQuery] imported from gatsby. *)
Definition callSiteNode (Q : string) (c : callSite) : node :=
  match c with
  | StaticQueryElement =>
      JSXElement (Some "StaticQuery")
        [JSXAttribute (Some "query") (Some (Other [Identifier Q]))] []
  | UseStaticQueryCall =>
      CallExpression (Identifier "useStaticQuery") true [Identifier Q]
  end.

(** [const Q = template] followed by the call sites. *)
Definition sharedQueryProgram (Q : string) (template : node)
    (sites : list callSite) : node :=
  Other (Other [VariableDeclarator (Identifier Q) (Some template)]
         :: map (callSiteNode Q) sites).

(** The [isHook] flag of each discovery, in the order the passes make
    them: the elements first, then the hook calls. *)
Definition elementDiscoveries (sites : list callSite) : list bool :=
  flat_map (λ c, match c with StaticQueryElement => [false] | _ => [] end)
    sites.

Definition hookDiscoveries (sites : list callSite) : list bool :=
  flat_map (λ c, match c with UseStaticQueryCall => [true] | _ => [] end)
    sites.

Definition discoveries (sites : list callSite) : list bool :=
  elementDiscoveries sites ++ hookDiscoveries sites.


Section discovery.
Variable camelCase : string → string.
Variable file : string.

(** The definitions one [extractStaticQuery] pushes for the parsed
  definitions [ds], allocated from [next] on. *)
Definition extracted (isHook : bool) (text : string) (h : N) (next : N)
  (ds : list parsedDefinition) : list definition :=
  map (markStaticQuery isHook text h)
  (map (λ def, generateQueryName camelCase def h file) (allocate next ds)).

(** The state after one [extractStaticQuery] on a template at [start]
  for which [getGraphQLTag] returned [ds], [text], [h] and [g]. *)
Definition afterExtract (start : N) (ds : list parsedDefinition)
  (text : string) (h : N) (g : bool) (isHook : bool) (s : locatorState)
  : locatorState :=
  {| queries := queries s ++ extracted isHook text h (nextObject s) ds;
   documentLocations :=
     setLocations start (allocate (nextObject s) ds) (documentLocations s);
   nextObject := (nextObject s + N.of_nat (length ds))%N;
   emitted := emitted s
              ++ CallGetGraphQLTag start
                 :: (if g then [ReportWarn (globalTagMessage file)]
                     else []) |}.

End discovery.

(** The nodes the call sites contribute to a traversal of the program. *)
Definition siteNodes (Q : string) (sites : list callSite) : list node :=
  flat_map (λ c, c :: descendants c) (map (callSiteNode Q) sites).

(** Every recorded definition is registered under the key made of the
    template's offset and its own, and stems from [ds]. *)
Definition consistent (start : N) (ds : list parsedDefinition)
    (s : locatorState) : Prop :=
  ∀ q, q ∈ queries s →
    (oid q < nextObject s)%N
    ∧ documentLocations s !! oid q = Some (locationKey start (loc_start q))
    ∧ loc_start q ∈ parsed_loc_start <$> ds.

End Spec.
Import Spec.

(** * Pages for the code examples (gatsby-remark-code-repls, gatsby-node.js)

    [createPages] with the file system, the page action and the reporter
    as explicit effects.  What lives outside the module is a parameter:
    the constants of [./constants], [fs], [recursive-readdir], [extname]
    and [resolve] of [path], [normalize-path], [JSON.stringify], the
    [RegExp] constructor, and whether [reporter.panic] returns (the
    reporter of gatsby-cli ends the process, a stub returns).  The
    [codepen] option, when given, is an object whose properties have the
    types the plugin documents; the [directory] option is any value. *)
Module CodeRepls.

(** An error as [fs] throws it; [code] is [err.code]. *)
Record jsError := {
  code : option string;
  message : string
}.

(** The [codepen] option once the defaults are merged in.
    [includeMatchingCSS] tells whether the property is the value [true]. *)
Record codepenOptions := {
  redirectTemplate : string;
  html : string;
  externals : list string;
  includeMatchingCSS : bool
}.

(** The [codepen] object as the site passes it: [None] for a property the
    object does not have. *)
Record codepenGiven := {
  given_redirectTemplate : option string;
  given_html : option string;
  given_externals : option (list string);
  given_includeMatchingCSS : option bool
}.

(** The [directory] option as the site passes it: a string, [null], or a
    value of another kind that has no [endsWith] method (a number, a
    boolean, a plain object). *)
Inductive directoryGiven :=
| DirectoryString (s : string)
| DirectoryNull
| DirectoryOther.

(** [None] for a property the object does not have, or has as
    [undefined]: the default of the destructuring pattern applies. *)
Record pluginOptions := {
  directory : option directoryGiven;
  codepen : option codepenGiven
}.

(** The object handed to [JSON.stringify]; [css] is [None] while the
    variable is [undefined]. *)
Record prefill := {
  editors : string;
  prefill_html : string;
  js : string;
  js_external : string;
  js_pre_processor : string;
  layout : string;
  css : option string
}.

(** The argument of [createPage]. *)
Record page := {
  path : string;
  component : string;
  context_action : string;
  context_payload : string
}.

Inductive effect :=
| ReporterPanic (message : string) (error : option jsError)
| ConsoleWarn (message : string)
| CreatePage (p : page)
| Readdir (directory : string)
| ReadFileSync (file : string).

(** How a computation ends: it returns, it throws, or the process ended
    inside [reporter.panic]. *)
Inductive outcome (A : Type) :=
| Returned (a : A)
| Threw (error : jsError)
| Exited.
Arguments Returned {A} a.
Arguments Threw {A} error.
Arguments Exited {A}.

(** A computation over the effects performed so far. *)
Definition Run (A : Type) : Type := list effect → outcome A * list effect.

Definition ret {A : Type} (a : A) : Run A := λ s, (Returned a, s).

Definition bind {A B : Type} (m : Run A) (f : A → Run B) : Run B := λ s,
  match m s with
  | (Returned a, s') => f a s'
  | (Threw e, s') => (Threw e, s')
  | (Exited, s') => (Exited, s')
  end.

Declare Scope run_scope.
Delimit Scope run_scope with Run.
Notation "x ← y ; z" := (bind y (λ x : _, z))
  (at level 20, y at level 100, z at level 200, only parsing) : run_scope.
Notation "x ;; z" := (bind x (λ _, z))
  (at level 100, z at level 200, only parsing, right associativity)
  : run_scope.
Local Open Scope run_scope.

Definition throw {A : Type} (error : jsError) : Run A := λ s, (Threw error, s).

(** [try { m } catch (error) { handler }] *)
Definition tryCatch {A : Type} (m : Run A) (handler : jsError → Run A)
    : Run A := λ s,
  match m s with
  | (Threw e, s') => handler e s'
  | r => r
  end.

Definition perform (e : effect) : Run unit := λ s, (Returned (), s ++ [e]).

Fixpoint forEach {A : Type} (f : A → Run unit) (l : list A) : Run unit :=
  match l with
  | [] => ret ()
  | x :: rest => f x;; forEach f rest
  end.

(** [s.endsWith(suffix)] *)
Fixpoint endsWith (s suffix : string) : bool :=
  if bool_decide (s = suffix) then true
  else match s with
       | EmptyString => false
       | String _ rest => endsWith rest suffix
       end.

(** [s] without its first [n] characters. *)
Fixpoint skip (n : nat) (s : string) : string :=
  match n, s with
  | S n, String _ rest => skip n rest
  | _, _ => s
  end.

(** [s.replace(pattern, replacement)] for a string [pattern] and a
    [replacement] without dollar sign: the first occurrence is replaced. *)
Fixpoint replaceFirst (pattern replacement s : string) : string :=
  if String.prefix pattern s
  then replacement +:+ skip (String.length pattern) s
  else match s with
       | EmptyString => EmptyString
       | String c rest => String c (replaceFirst pattern replacement rest)
       end.

Definition invalidDirectory (directory : string) : string :=
  "Invalid REPL directory specified: " +:+ dq +:+ directory +:+ dq.

Definition invalidRedirectTemplate (redirectTemplate : string) : string :=
  "Invalid REPL redirectTemplate specified: " +:+ dq +:+ redirectTemplate
  +:+ dq.

Definition noFiles (directory : string) : string :=
  "Specified REPL directory " +:+ dq +:+ directory +:+ dq
  +:+ " contains no files".

Definition cannotReadDirectory (directory : string) : string :=
  nl
  +:+ "      Error in gatsby-remark-code-repls plugin: cannot read directory "
  +:+ directory +:+ "." +:+ nl
  +:+ "      More details can be found in the error reporting below." +:+ nl
  +:+ "      ".

(** [{ ...OPTION_DEFAULT_CODEPEN, ...codepen }] *)
Definition spread (defaults : codepenOptions) (given : codepenGiven)
    : codepenOptions :=
  {| redirectTemplate :=
       default (redirectTemplate defaults) (given_redirectTemplate given);
     html := default (html defaults) (given_html given);
     externals := default (externals defaults) (given_externals given);
     includeMatchingCSS :=
       default (includeMatchingCSS defaults)
         (given_includeMatchingCSS given) |}.

Section definitions.

Variable OPTION_DEFAULT_LINK_TEXT : string.
Variable OPTION_DEFAULT_CODEPEN : codepenOptions.
Variable existsSync : string → bool.
Variable readdir : string → jsError + list string.
    (* inl: the promise is rejected *)
Variable readFileSync : string → jsError + string.
Variable extname : string → string.
Variable RegExp : string → jsError + (string → string → string).
    (* [new RegExp(source)]: inl, the SyntaxError of a source that is no
       regular expression; inr re, where [re replacement s] is
       [s.replace(re, replacement)] *)
Variable stringify : prefill → string.
Variable normalizedResolve : string → string.
    (* normalizePath(resolve(p)) *)
Variable panicReturns : bool.

(** [reporter.panic(message, error)] *)
Definition panic (message : string) (error : option jsError) : Run unit :=
  λ s, (if panicReturns then Returned () else Exited,
        s ++ [ReporterPanic message error]).

Definition callReaddir (directory : string) : Run (list string) :=
  perform (Readdir directory);;
  match readdir directory with
  | inl error => throw error
  | inr files => ret files
  end.

Definition callReadFileSync (file : string) : Run string :=
  perform (ReadFileSync file);;
  match readFileSync file with
  | inl error => throw error
  | inr contents => ret contents
  end.

(** The callback of [files.forEach]. *)
Definition forFile (directory : string) (codepen : codepenOptions)
    (file : string) : Run unit :=
  if bool_decide (extname file = ".js") || bool_decide (extname file = ".jsx")
  then
    slug ← (let stem :=
              String.substring 0
                (String.length file - String.length (extname file)) file in
            match RegExp ("^" +:+ directory) with
            | inl error => throw error
            | inr re => ret (re "redirect-to-codepen/" stem)
            end);
    code ← callReadFileSync file;
    css ← (if includeMatchingCSS codepen then
             tryCatch
               (css ← callReadFileSync
                        (replaceFirst (extname file) ".css" file);
                ret (Some css))
               (* If the file doesn't exist, we gracefully ignore the
                  error *)
               (λ err,
                  if bool_decide (CodeRepls.code err ≠ Some "ENOENT")
                  then throw err
                  else ret None)
           else ret None);
    (* Codepen configuration. *)
    let action := "https://codepen.io/pen/define" in
    let payload :=
      stringify {| editors := "0010";
                   prefill_html := html codepen;
                   js := code;
                   js_external := String.concat ";" (externals codepen);
                   js_pre_processor := "babel";
                   layout := "left";
                   css := css |} in
    perform (CreatePage {| path := slug;
                           component :=
                             normalizedResolve (redirectTemplate codepen);
                           context_action := action;
                           context_payload := payload |})
  else ret ().

(** The body of [createPages] once [directory] ends with a slash and the
    defaults are merged into [codepen]. *)
Definition createPagesIn (directory : string) (codepen : codepenOptions)
    : Run unit :=
  (if existsSync directory then ret ()
   else panic (invalidDirectory directory) None);;
  (if existsSync (redirectTemplate codepen) then ret ()
   else panic (invalidRedirectTemplate (redirectTemplate codepen)) None);;
  tryCatch
    (files ← callReaddir directory;
     match files with
     | [] => perform (ConsoleWarn (noFiles directory))
     | _ :: _ => forEach (forFile directory codepen) files
     end)
    (λ error, panic (cannotReadDirectory directory) (Some error)).

Definition endsWithOfNull : jsError :=
  {| code := None;
     message := "TypeError: Cannot read property 'endsWith' of null" |}.

Definition endsWithNotAFunction : jsError :=
  {| code := None;
     message := "TypeError: directory.endsWith is not a function" |}.

(** The directory after [if (!directory.endsWith(`/`)) directory += `/`],
    the default applied first; the call of [endsWith] throws on a value
    that is not a string. *)
Definition directoryOf (options : option pluginOptions) : jsError + string :=
  match default (DirectoryString OPTION_DEFAULT_LINK_TEXT)
          (options ≫= directory) with
  | DirectoryString directory =>
      inr (if endsWith directory "/" then directory else directory +:+ "/")
  | DirectoryNull => inl endsWithOfNull
  | DirectoryOther => inl endsWithNotAFunction
  end.

Definition codepenOf (options : option pluginOptions) : codepenOptions :=
  match options ≫= codepen with
  | None => OPTION_DEFAULT_CODEPEN
  | Some given => spread OPTION_DEFAULT_CODEPEN given
  end.

(** [exports.createPages]; [None] when the second argument is
    [undefined]. *)
Definition createPages (options : option pluginOptions) : Run unit :=
  let codepen := codepenOf options in
  match directoryOf options with
  | inl error => throw error
  | inr directory => createPagesIn directory codepen
  end.

End definitions.
End CodeRepls.

(** ** Vocabulary of the statements about [createPages] *)
Module CodeReplsSpec.
Import CodeRepls.

(** The pages among the effects, in order. *)
Definition created (effects : list effect) : list page :=
  omap (λ e, match e with CreatePage p => Some p | _ => None end) effects.

(** The files read, in order. *)
Definition filesRead (effects : list effect) : list string :=
  omap (λ e, match e with ReadFileSync f => Some f | _ => None end) effects.

(** Neither a panic nor a warning. *)
Definition silent (e : effect) : Prop :=
  match e with
  | ReporterPanic _ _ | ConsoleWarn _ => False
  | _ => True
  end.

Section vocabulary.
Variable readFileSync : string → jsError + string.
Variable extname : string → string.
Variable RegExp : string → jsError + (string → string → string).
Variable stringify : prefill → string.
Variable normalizedResolve : string → string.

(** The files that get a page. *)
Definition isScript (file : string) : bool :=
  bool_decide (extname file = ".js") || bool_decide (extname file = ".jsx").

(** The slug of [file], or the error of the [RegExp] constructor. *)
Definition slugOf (directory file : string) : jsError + string :=
  match RegExp ("^" +:+ directory) with
  | inl error => inl error
  | inr re =>
      inr (re "redirect-to-codepen/"
             (String.substring 0
                (String.length file - String.length (extname file)) file))
  end.

(** The style sheet looked for beside [file]. *)
Definition cssFile (file : string) : string :=
  replaceFirst (extname file) ".css" file.

Definition pageOf (slug : string) (codepen : codepenOptions)
    (code : string) (css : option string) : page :=
  {| path := slug;
     component := normalizedResolve (redirectTemplate codepen);
     context_action := "https://codepen.io/pen/define";
     context_payload :=
       stringify {| editors := "0010";
                    prefill_html := html codepen;
                    js := code;
                    js_external := String.concat ";" (externals codepen);
                    js_pre_processor := "babel";
                    layout := "left";
                    css := css |} |}.

(** What reading the style sheet of [file] comes to: its contents, nothing
    when there is no such file, or the error that is thrown on. *)
Definition matchingCSS (file : string) : jsError + option string :=
  match readFileSync (cssFile file) with
  | inr css => inr (Some css)
  | inl err =>
      if bool_decide (code err ≠ Some "ENOENT") then inl err else inr None
  end.

(** The directory makes a regular expression, and the file and, when
    asked for, its style sheet can be read. *)
Definition readable (directory : string) (codepen : codepenOptions)
    (file : string) : Prop :=
  (∃ slug, slugOf directory file = inr slug)
  ∧ (∃ contents, readFileSync file = inr contents)
  ∧ (includeMatchingCSS codepen = true → ∃ css, matchingCSS file = inr css).

(** Making the regular expression, or else reading the file, or else
    reading its style sheet, throws [error]. *)
Definition unreadable (directory : string) (codepen : codepenOptions)
    (file : string) (error : jsError) : Prop :=
  slugOf directory file = inl error
  ∨ ((∃ slug, slugOf directory file = inr slug)
     ∧ (readFileSync file = inl error
        ∨ ((∃ contents, readFileSync file = inr contents)
           ∧ includeMatchingCSS codepen = true
           ∧ matchingCSS file = inl error))).

(** The page of a script file for which nothing throws. *)
Definition pageFor (directory : string) (codepen : codepenOptions)
    (file : string) : page :=
  pageOf
    (match slugOf directory file with inr slug => slug | inl _ => "" end)
    codepen
    (match readFileSync file with inr contents => contents | inl _ => "" end)
    (if includeMatchingCSS codepen
     then match matchingCSS file with inr css => css | inl _ => None end
     else None).

(** The reads made for a script file. *)
Definition readsFor (codepen : codepenOptions) (file : string)
    : list string :=
  file :: (if includeMatchingCSS codepen then [cssFile file] else []).

(** What [createPages] may do at all, for the directory, the options and
    the listing at hand. *)
Definition permitted (directory : string) (codepen : codepenOptions)
    (files : list string) (e : effect) : Prop :=
  match e with
  | ReporterPanic message _ =>
      message = invalidDirectory directory
      ∨ message = invalidRedirectTemplate (redirectTemplate codepen)
      ∨ message = cannotReadDirectory directory
  | ConsoleWarn message => message = noFiles directory
  | Readdir d => d = directory
  | ReadFileSync f =>
      ∃ file, file ∈ files ∧ isScript file = true
              ∧ f ∈ readsFor codepen file
  | CreatePage p =>
      ∃ file, file ∈ files ∧ isScript file = true
              ∧ slugOf directory file = inr (path p)
              ∧ component p = normalizedResolve (redirectTemplate codepen)
              ∧ context_action p = "https://codepen.io/pen/define"
  end.

End vocabulary.

(** [m] only adds effects, all of them satisfying [P]. *)
Definition performs {A : Type} (P : effect → Prop) (m : Run A) : Prop :=
  ∀ s, ∃ effects, (m s).2 = s ++ effects ∧ Forall P effects.

End CodeReplsSpec.

(** ** A directory of examples, for running [createPages] *)
Module ReplFixture.
Import CodeRepls.

Fixpoint hasSlash (s : string) : bool :=
  match s with
  | EmptyString => false
  | String c rest => bool_decide (String c EmptyString = "/") || hasSlash rest
  end.

(** The last segment of a path. *)
Fixpoint basename (s : string) : string :=
  match s with
  | EmptyString => EmptyString
  | String c rest => if hasSlash s then basename rest else s
  end.

Fixpoint fromLastDot (s : string) : string :=
  match s with
  | EmptyString => EmptyString
  | String c rest =>
      if bool_decide (fromLastDot rest ≠ EmptyString) then fromLastDot rest
      else if bool_decide (String c EmptyString = ".") then s
      else EmptyString
  end.

(** The part of the last path segment from its last dot on, for the
    paths used here. *)
Definition extname (file : string) : string := fromLastDot (basename file).

(** A source with two plus signs in a row is no regular expression; the
    other sources used here are a caret followed by plain characters. *)
Definition RegExp (source : string) : jsError + (string → string → string) :=
  if bool_decide (indexOf source "++" ≠ (-1)%Z)
  then inl {| code := None;
              message := "SyntaxError: Invalid regular expression: Nothing to repeat" |}
  else inr (λ replacement s,
              if String.prefix (skip 1 source) s
              then replacement +:+ skip (String.length (skip 1 source)) s
              else s).

Definition stringify (p : prefill) : string :=
  "{" +:+ editors p +:+ "|" +:+ prefill_html p +:+ "|" +:+ js p +:+ "|"
  +:+ js_external p +:+ "|" +:+ js_pre_processor p +:+ "|" +:+ layout p
  +:+ match css p with Some c => "|" +:+ c | None => EmptyString end
  +:+ "}".

Definition defaults : codepenOptions :=
  {| redirectTemplate := "src/redirect.js";
     html := "<div id=root></div>";
     externals := ["react.js"; "react-dom.js"];
     includeMatchingCSS := false |}.

Definition withCSS : pluginOptions :=
  {| directory := Some (DirectoryString "examples");
     codepen :=
       Some {| given_redirectTemplate := None; given_html := None;
               given_externals := None;
               given_includeMatchingCSS := Some true |} |}.

Definition existsSync (p : string) : bool :=
  bool_decide (p ∈ ["examples/"; "empty/"; "locked/"; "c++/";
                    "src/redirect.js"]).

Definition readdir (directory : string) : jsError + list string :=
  if bool_decide (directory = "examples/")
  then inr ["examples/a.js"; "examples/a.css"; "examples/notes.md";
            "examples/b.jsx"]
  else if bool_decide (directory = "empty/") then inr []
  else if bool_decide (directory = "locked/")
  then inr ["locked/a.js"; "locked/b.js"; "locked/c.js"]
  else if bool_decide (directory = "c++/")
  then inr ["c++/readme.md"; "c++/hello.js"]
  else inl {| code := Some "ENOENT"; message := "no such directory" |}.

Definition readFileSync (file : string) : jsError + string :=
  if bool_decide (file = "examples/a.js") then inr "render(<A />)"
  else if bool_decide (file = "examples/a.css") then inr "a { color: red }"
  else if bool_decide (file = "examples/b.jsx") then inr "render(<B />)"
  else if bool_decide (file = "locked/a.js") then inr "render(<A />)"
  else if bool_decide (file = "locked/c.js") then inr "render(<C />)"
  else if bool_decide (file = "c++/hello.js") then inr "render(<Hello />)"
  else if bool_decide (file = "examples/chart.js/a.js")
  then inr "render(<Chart />)"
  else if bool_decide (file = "locked/b.js")
  then inl {| code := Some "EACCES"; message := "permission denied" |}
  else inl {| code := Some "ENOENT"; message := "no such file" |}.

Definition createPages (panicReturns : bool)
    : option pluginOptions → Run unit :=
  CodeRepls.createPages "REPL" defaults existsSync readdir readFileSync
    extname RegExp stringify (λ p, "/site/" +:+ p) panicReturns.

End ReplFixture.

(** * Saving the state of the databases (gatsby, db/index.js)

    [saveState] is an async function: it runs up to its [await] when it
    is called and from there on when the promise of [Promise.all]
    settles.  The two parts are the functions [saveState] and [settle]
    below, and a run of the module is a sequence of things that happen to
    it: an event is emitted, the delay of the debounced function elapses,
    the pending promise settles.  The emitter calls the listeners of the
    event type and then those registered for [*], each in registration
    order (mitt); [_.debounce] is kept as the fact that a trailing call
    is scheduled. *)
Module Autosave.

(** A value a promise can be rejected with: [err.message] when [err] and
    the message are truthy, and the value as a template string shows it. *)
Record rejection := {
  err_message : option string;
  err_shown : string
}.

Inductive effect :=
| SaveStates (dbs : list string)    (* dbs.map(db => db.saveState()) *)
| Warn (message : string).          (* report.warn *)

(** The module-level [saveInProgress], the [bootstrapFinished] of
    [startAutosave], whether a call of the debounced function is
    scheduled, and the calls made so far. *)
Record state := {
  saveInProgress : bool;
  bootstrapFinished : bool;
  scheduled : bool;
  effects : list effect
}.

(** The three listeners [startAutosave] can register. *)
Inductive listener :=
| DevelopBootstrapFinished
| DevelopAny
| BuildBootstrapFinished.

(** What can happen to the module. *)
Inductive step :=
| Emit (type : string)                  (* emitter.emit(type) *)
| DelayElapsed                          (* the debounce delay is over *)
| Settle (result : option rejection).   (* Promise.all settles; None: resolved *)

Definition initial : state :=
  {| saveInProgress := false; bootstrapFinished := false;
     scheduled := false; effects := [] |}.

Definition errorPersisting (err : rejection) : string :=
  "Error persisting state: " +:+ default (err_shown err) (err_message err).

Section definitions.
Variable GATSBY_DB_NODES : option string.          (* process.env *)
Variable gatsby_executing_command : option string. (* process.env *)

(** Even if we are using loki, we still include redux in the list of
    dbs since it still has pages, config, etc. *)
Definition dbs : list string :=
  ["redux"] ++ (if decide (GATSBY_DB_NODES = Some "loki") then ["loki"]
                else []).

(** [saveState] up to the [await]. *)
Definition saveState (st : state) : state :=
  if saveInProgress st then st
  else {| saveInProgress := true;
          bootstrapFinished := bootstrapFinished st;
          scheduled := scheduled st;
          effects := effects st ++ [SaveStates dbs] |}.

(** [saveState] from the [await] on. *)
Definition settle (result : option rejection) (st : state) : state :=
  {| saveInProgress := false;
     bootstrapFinished := bootstrapFinished st;
     scheduled := scheduled st;
     effects := effects st ++ match result with
                        | Some err => [Warn (errorPersisting err)]
                        | None => []
                        end |}.

(** [saveStateDebounced()] *)
Definition saveStateDebounced (st : state) : state :=
  {| saveInProgress := saveInProgress st;
     bootstrapFinished := bootstrapFinished st;
     scheduled := true;
     effects := effects st |}.

(** The debounced function invokes [saveState]. *)
Definition delayElapsed (st : state) : state :=
  if scheduled st then
    saveState {| saveInProgress := saveInProgress st;
                 bootstrapFinished := bootstrapFinished st;
                 scheduled := false;
                 effects := effects st |}
  else st.

Definition call (l : listener) (st : state) : state :=
  match l with
  | DevelopBootstrapFinished =>
      saveState {| saveInProgress := saveInProgress st;
                   bootstrapFinished := true;
                   scheduled := scheduled st;
                   effects := effects st |}
  | DevelopAny =>
      if bootstrapFinished st then saveStateDebounced st else st
  | BuildBootstrapFinished => saveState st
  end.

(** The listeners [startAutosave] registers, with their event types. *)
Definition startAutosave : list (string * listener) :=
  (if decide (gatsby_executing_command = Some "develop")
   then [("BOOTSTRAP_FINISHED", DevelopBootstrapFinished); ("*", DevelopAny)]
   else [])
  ++ (if decide (gatsby_executing_command = Some "build")
      then [("BOOTSTRAP_FINISHED", BuildBootstrapFinished)]
      else []).

Definition listenersOf (type : string) : list listener :=
  snd <$> filter (λ r, r.1 = type) startAutosave.

(** [emitter.emit(type)] *)
Definition emit (type : string) (st : state) : state :=
  foldl (λ st l, call l st) st (listenersOf type ++ listenersOf "*").

(** One thing happens.  A promise settles only while a save is in
    progress. *)
Definition after (st : state) (x : step) : state :=
  match x with
  | Emit type => emit type st
  | DelayElapsed => delayElapsed st
  | Settle result => if saveInProgress st then settle result st else st
  end.

Definition run (history : list step) (st : state) : state :=
  foldl after st history.

End definitions.

(** ** Vocabulary of the statements *)

Definition isSaveStates (e : effect) : bool :=
  match e with SaveStates _ => true | Warn _ => false end.

Definition isSettle (x : step) : bool :=
  match x with Settle _ => true | _ => false end.

Definition isRejection (x : step) : bool :=
  match x with Settle (Some _) => true | _ => false end.

Definition isBootstrapFinished (x : step) : bool :=
  match x with
  | Emit type => bool_decide (type = "BOOTSTRAP_FINISHED")
  | _ => false
  end.

(** The number of times the databases were told to save. *)
Definition saves (st : state) : nat :=
  length (filter (λ e, isSaveStates e = true) (effects st)).

Definition warnings (st : state) : nat :=
  length (filter (λ e, isSaveStates e = false) (effects st)).

End Autosave.

(** ** Further files, for running the code on them *)
Module Cases.

(** A text file that mentions the tag and is no JavaScript. *)
Definition notesSource : string := "notes about graphql".

(** [a.js] and [a.jsx]: the path of the first followed by its text reads
    the same as the path of the second followed by its text. *)
Definition shiftedSource : string :=
  "x; export const query = graphql" +:+ bq +:+ "{ b }" +:+ bq.

Definition shiftedTail : string :=
  "; export const query = graphql" +:+ bq +:+ "{ b }" +:+ bq.

Definition shiftedAst : node :=
  Other [Other [Identifier "x"];
         ExportNamedDeclaration
           [Fixture.declare "query" (Some (Fixture.gql 24 "{ b }"))]].

Definition readFile (file : string) : option string :=
  if decide (file = "notes.txt") then Some notesSource
  else if decide (file = "a.js") then Some shiftedSource
  else if decide (file = "a.jsx") then Some shiftedTail
  else Fixture.readFile file.

Definition babelParseToAst (source filePath : string) : string + node :=
  if decide (source = shiftedSource) then inr shiftedAst
  else Fixture.babelParseToAst source filePath.

Definition world1 : world := {| fs := readFile; cache := ∅; log := [] |}.

Definition parseFile : string → world → option Document * world :=
  FileParser.parseFile Fixture.camelCase Fixture.md5 Fixture.preprocessSource
    babelParseToAst Fixture.getGraphQLTag.

(** [const Q = css`a`], passed to an element and to a hook call. *)
Definition styledAst : node :=
  Other [Fixture.importGatsby ["StaticQuery"; "useStaticQuery"];
         Fixture.declare "Q"
           (Some (TaggedTemplateExpression 60 (Identifier "css") ["a"] []));
         Fixture.component "A" (Fixture.staticQuery (Identifier "Q"));
         Fixture.component "B" (Fixture.useStaticQuery (Identifier "Q"))].

(** Two objects at the same offset of two templates. *)
Definition twoTemplates : list definition :=
  allocate 0 (replicate 2 {| parsed_name := None; parsed_loc_start := 0 |}).

Definition templateOf (q : definition) : N :=
  if decide (oid q = 0%N) then 10%N else 30%N.

Definition twoLocations : gmap N string :=
  <[0%N := locationKey 10 0]> (<[1%N := locationKey 30 0]> ∅).

End Cases.

(** * Vocabulary of the properties of the traversals and of the cache *)
Module Laws.

(** The events a traversal can emit: warnings and calls of
    [getGraphQLTag]. *)
Definition traversalEvent (e : event) : Prop :=
  match e with
  | ReportWarn _ | CallGetGraphQLTag _ => True
  | _ => False
  end.

(** [s'] is [s] after some extractions: recorded definitions stay where
    they are, objects are only added, the location of an object that
    existed in [s] is as it was, and only warnings and calls of
    [getGraphQLTag] were emitted. *)
Definition grows (s s' : locatorState) : Prop :=
  queries s `prefix_of` queries s'
  ∧ (nextObject s ≤ nextObject s')%N
  ∧ (∀ o, (o < nextObject s)%N →
       documentLocations s' !! o = documentLocations s !! o)
  ∧ ∃ events, emitted s' = emitted s ++ events
              ∧ Forall traversalEvent events.

(** The recorded definitions are pairwise distinct objects of this run,
    each with a location on record made of a template offset and its own
    offset. *)
Definition registered (s : locatorState) : Prop :=
  NoDup (oid <$> queries s)
  ∧ ∀ q, q ∈ queries s →
      (oid q < nextObject s)%N
      ∧ ∃ templateStart,
          documentLocations s !! oid q
          = Some (locationKey templateStart (loc_start q)).

(** The state some steps after an extraction of a template at [start]
    for which [getGraphQLTag] returned [ds], [text], [h] and [g]. *)
Definition discovered (camelCase : string → string) (file : string)
    (start : N) (ds : list parsedDefinition) (text : string) (h : N)
    (g : bool) (isHook : bool) (s' : locatorState) : Prop :=
  ∃ s, grows (Spec.afterExtract camelCase file start ds text h g isHook s) s'.

Definition keeps (I : locatorState → Prop) (s s' : locatorState) : Prop :=
  I s → I s'.

(** [m] leaves the state related by [R] to the one it started in, whether
    it returns or throws. *)
Definition respects {A : Type} (R : relation locatorState) (m : M A) : Prop :=
  ∀ s, R s (m s).2.

(** No hyphen in the string. *)
Fixpoint noDash (s : string) : bool :=
  match s with
  | EmptyString => true
  | String a rest => negb (bool_decide (String a EmptyString = "-")) && noDash rest
  end.

Section pageDiscovery.
Variable camelCase : string → string.
Variable file : string.

(** The definitions the page-query visitor pushes for the parsed
    definitions [ds], allocated from [next] on. *)
Definition pageExtracted (h : N) (next : N) (ds : list parsedDefinition)
    : list definition :=
  map (λ def, generateQueryName camelCase def h file) (allocate next ds).

(** The state after the page-query visitor ran on a template at [start]
    for which [getGraphQLTag] returned [ds], [h] and [g]. *)
Definition afterPageExtract (start : N) (ds : list parsedDefinition)
    (h : N) (g : bool) (s : locatorState) : locatorState :=
  {| queries := queries s ++ pageExtracted h (nextObject s) ds;
     documentLocations :=
       setLocations start (allocate (nextObject s) ds) (documentLocations s);
     nextObject := (nextObject s + N.of_nat (length ds))%N;
     emitted := emitted s
                ++ CallGetGraphQLTag start
                   :: (if g then [ReportWarn (globalTagMessage file)]
                       else []) |}.

End pageDiscovery.

(** [const Q = tag`...`]: a declarator of [Q] whose initialiser is a
    tagged template. *)
Definition bindsTemplate (Q : string) (n : node) : bool :=
  match n with
  | VariableDeclarator id (Some e) =>
      bool_decide (node_name id = Some Q) && isTaggedTemplateExpression e
  | _ => false
  end.

(** The tagged templates below [n], in traversal order. *)
Definition templatesBelow (n : node) : list node :=
  filter (λ p, isTaggedTemplateExpression p = true) (descendants n).

(** The calls of [getGraphQLTag] that a search for [Q] makes: one for
    each tagged template below each declarator that binds [Q] to a
    tagged template. *)
Definition searchCalls (Q : string) (ast : node) : list event :=
  flat_map (λ n,
    if bindsTemplate Q n
    then (λ p, CallGetGraphQLTag (node_start p)) <$> templatesBelow n
    else []) (descendants ast).

(** [export const C = () => useStaticQuery(template)], with
    [useStaticQuery] imported from gatsby. *)
Definition exportedHookProgram (C : string) (template : node) : node :=
  Other [ExportNamedDeclaration
           [Other [VariableDeclarator (Identifier C)
                     (Some (Other [CallExpression
                                     (Identifier "useStaticQuery") true
                                     [template]]))]]].

(** The world after a lookup under [key] missed and the extraction
    resolved with [defs], having emitted [events]. *)
Definition stored (key : string) (defs : list definition)
    (events : list event) (w : world) : world :=
  {| fs := fs w; cache := <[key := defs]> (cache w);
     log := log w ++ events |}.

(** The answers of [getGraphQLTag] when every tag is an imported one. *)
Definition imported (getGraphQLTag : node → tagResult) (path : node)
    : tagResult :=
  match getGraphQLTag path with
  | Tag ds text h _ => Tag ds text h false
  | r => r
  end.

(** Any event but the warning about the global tag in [file]. *)
Definition notGlobalWarning (file : string) (e : event) : bool :=
  match e with
  | ReportWarn message => negb (String.eqb message (globalTagMessage file))
  | _ => true
  end.

(** [s'] is [s] without the warnings about the global tag. *)
Definition unwarned (file : string) (s s' : locatorState) : Prop :=
  queries s' = queries s
  ∧ documentLocations s' = documentLocations s
  ∧ nextObject s' = nextObject s
  ∧ emitted s'
    = filter (λ e, notGlobalWarning file e = true) (emitted s).

(** [m] and [m'] end alike, in states related by [R], when started in
    states related by [R]. *)
Definition alike {A : Type} (R : relation locatorState) (m m' : M A)
    : Prop :=
  ∀ s s', R s s' → (m s).1 = (m' s').1 ∧ R (m s).2 (m' s').2.

End Laws.
Import Laws.

(** * Properties *)

(** ** [_.uniqBy] *)
Section uniqBy_facts.
Context {A K : Type} `{EqDecision K}.
Variable f : A → K.

Lemma baseUniq_fresh seen l x : x ∈ baseUniq f seen l → f x ∉ seen.
Proof.
  revert seen. induction l as [|v l IH]; intros seen; simpl.
  - by intros ?%elem_of_nil.
  - destruct (decide (f v ∈ seen)) as [Hin|Hin].
    + apply IH.
    + intros [->|Hx]%elem_of_cons; [done|].
      apply IH in Hx. by apply not_elem_of_cons in Hx as [_ ?].
Qed.

Lemma baseUniq_sublist seen l : baseUniq f seen l `sublist_of` l.
Proof.
  revert seen. induction l as [|v l IH]; intros seen; simpl; [done|].
  destruct (decide (f v ∈ seen)).
  - by apply sublist_cons.
  - by apply sublist_skip.
Qed.

Lemma baseUniq_NoDup seen l : NoDup (f <$> baseUniq f seen l).
Proof.
  revert seen. induction l as [|v l IH]; intros seen; simpl.
  - constructor.
  - destruct (decide (f v ∈ seen)); [apply IH|].
    rewrite fmap_cons. constructor; [|apply IH].
    intros (y & Hy & Hin)%list_elem_of_fmap.
    apply baseUniq_fresh in Hin. apply Hin. rewrite <- Hy. by left.
Qed.

(** Every value that is kept is the first of the array with its key. *)
Lemma baseUniq_first seen l x :
  x ∈ baseUniq f seen l →
  ∃ i, list_find (λ y, f y = f x) l = Some (i, x).
Proof.
  revert seen. induction l as [|v l IH]; intros seen; simpl.
  - by intros ?%elem_of_nil.
  - destruct (decide (f v ∈ seen)) as [Hin|Hin].
    + intros Hx. pose proof (baseUniq_fresh _ _ _ Hx) as Hfresh.
      destruct (IH _ Hx) as [i Hi].
      exists (S i). rewrite decide_False by (intros E; congruence).
      by rewrite Hi.
    + intros [->|Hx]%elem_of_cons.
      * exists 0. by rewrite decide_True.
      * pose proof (baseUniq_fresh _ _ _ Hx) as Hfresh.
        apply not_elem_of_cons in Hfresh as [Hne _].
        destruct (IH _ Hx) as [i Hi].
        exists (S i). rewrite decide_False by done. by rewrite Hi.
Qed.

(** Every key of the array that was not seen before keeps a value. *)
Lemma baseUniq_covers seen l x :
  x ∈ l → f x ∉ seen → ∃ y, y ∈ baseUniq f seen l ∧ f y = f x.
Proof.
  revert seen. induction l as [|v l IH]; intros seen Hx Hfresh; simpl.
  - by apply elem_of_nil in Hx.
  - apply elem_of_cons in Hx as [->|Hx].
    + rewrite decide_False by done. exists v. split; [by left|done].
    + destruct (decide (f v ∈ seen)); [by apply IH|].
      destruct (decide (f x = f v)) as [E|E].
      * exists v. split; [by left|done].
      * destruct (IH (f v :: seen) Hx) as (y & Hy & Hk).
        { by intros [?| ?]%elem_of_cons. }
        exists y. split; [by right|done].
Qed.

(** An array whose keys are pairwise distinct and unseen is kept whole. *)
Lemma baseUniq_id seen l :
  NoDup (f <$> l) → (∀ x, x ∈ l → f x ∉ seen) → baseUniq f seen l = l.
Proof.
  revert seen. induction l as [|v l IH]; intros seen Hnd Hfresh; simpl; [done|].
  rewrite fmap_cons in Hnd. apply NoDup_cons in Hnd as [Hv Hnd].
  rewrite decide_False by (apply Hfresh; by left).
  f_equal. apply IH; [done|].
  intros x Hx [E|Hin]%elem_of_cons.
  - apply Hv. rewrite <- E. by apply list_elem_of_fmap_2.
  - apply (Hfresh x); [by right|done].
Qed.

(** Values whose keys were all seen are all dropped. *)
Lemma baseUniq_seen seen l :
  (∀ x, x ∈ l → f x ∈ seen) → baseUniq f seen l = [].
Proof.
  induction l as [|v l IH]; intros Hseen; simpl; [done|].
  rewrite decide_True by (apply Hseen; by left).
  apply IH. intros x Hx. apply Hseen. by right.
Qed.

Lemma baseUniq_app seen l k :
  baseUniq f seen (l ++ k)
  = baseUniq f seen l ++ baseUniq f (reverse (f <$> baseUniq f seen l) ++ seen) k.
Proof.
  revert seen. induction l as [|v l IH]; intros seen; simpl; [done|].
  destruct (decide (f v ∈ seen)); [apply IH|].
  rewrite IH. simpl. f_equal. f_equal.
  by rewrite reverse_cons, <- app_assoc.
Qed.

End uniqBy_facts.

(** C8: removing duplicates is stable and idempotent.  For any array of
    definitions and any location table, the result keeps the array order,
    its location keys are pairwise distinct, every key of the array is
    still represented, each kept definition is the first of the array
    (which is filled in component, hook, page pass order) with its key,
    and removing duplicates once more changes nothing. *)
Theorem uniqueQueries_stable_idempotent
    (documentLocations : gmap N string) (queries : list definition) :
  let key := λ q : definition, documentLocations !! oid q in
  let unique := uniqueQueries documentLocations queries in
  unique `sublist_of` queries
  ∧ NoDup (key <$> unique)
  ∧ (∀ q, q ∈ queries → ∃ q', q' ∈ unique ∧ key q' = key q)
  ∧ (∀ q', q' ∈ unique →
       ∃ i, list_find (λ q, key q = key q') queries = Some (i, q'))
  ∧ uniqueQueries documentLocations unique = unique.
Proof.
  intros key unique. unfold unique, uniqueQueries, uniqBy.
  split; [apply baseUniq_sublist|].
  split; [apply baseUniq_NoDup|].
  split.
  { intros q Hq. apply baseUniq_covers; [done|]. by intros ?%elem_of_nil. }
  split; [apply baseUniq_first|].
  apply baseUniq_id; [apply baseUniq_NoDup|].
  by intros x _ ?%elem_of_nil.
Qed.

(** ** Naming *)
Section naming.
Variable camelCase : string → string.

Lemma generateQueryName_fields def h file :
  let def' := generateQueryName camelCase def h file in
  oid def' = oid def ∧ loc_start def' = loc_start def
  ∧ isStaticQuery def' = isStaticQuery def ∧ isHook def' = isHook def
  ∧ text def' = text def ∧ hash def' = hash def.
Proof.
  unfold generateQueryName. destruct (name def) as [[|]|]; simpl; done.
Qed.

(** C7: a definition that carries an author-given (non-empty) name keeps
    it verbatim; one without a name is named camelCase(file) followed by
    the content hash in decimal, so two unnamed definitions with the same
    file and the same hash get the same name. *)
Theorem generateQueryName_spec (def : definition) (h : N) (file : string) :
  (∀ n, name def = Some n → n ≠ EmptyString →
     name (generateQueryName camelCase def h file) = Some n)
  ∧ (name def = None ∨ name def = Some EmptyString →
     name (generateQueryName camelCase def h file)
     = Some (camelCase file +:+ pretty h))
  ∧ (∀ def', (name def = None ∨ name def = Some EmptyString) →
       (name def' = None ∨ name def' = Some EmptyString) →
       name (generateQueryName camelCase def' h file)
       = name (generateQueryName camelCase def h file)).
Proof.
  assert (Hgen : ∀ d, name d = None ∨ name d = Some EmptyString →
    name (generateQueryName camelCase d h file)
    = Some (camelCase file +:+ pretty h)).
  { intros d [E|E]; unfold generateQueryName; by rewrite E. }
  split; [|split].
  - intros n E Hn. unfold generateQueryName. rewrite E.
    destruct n; [done|]. by simpl.
  - apply Hgen.
  - intros def' H H'. by rewrite !Hgen.
Qed.
End naming.

(** ** Decimal rendering is never empty *)

Lemma pretty_N_go_nonempty (x : N) (s : string) :
  s ≠ EmptyString → pretty_N_go x s ≠ EmptyString.
Proof.
  revert s. induction (N.lt_wf_0 x) as [x _ IH]; intros s Hs.
  destruct (decide (x = 0%N)) as [->|Hx].
  - by rewrite pretty_N_go_0.
  - rewrite pretty_N_go_step by lia. apply IH; [|done].
    apply N.div_lt; lia.
Qed.

Lemma pretty_N_nonempty (x : N) : pretty x ≠ EmptyString.
Proof.
  unfold pretty, pretty_N. destruct (decide (x = 0%N)) as [->|Hx]; [done|].
  rewrite pretty_N_go_step by lia. by apply pretty_N_go_nonempty.
Qed.

Lemma append_nonempty (s t : string) : t ≠ EmptyString → s +:+ t ≠ EmptyString.
Proof. destruct s; [done|]. by simpl. Qed.

Lemma Forall_sublist {A} (P : A → Prop) (l k : list A) :
  l `sublist_of` k → Forall P k → Forall P l.
Proof.
  induction 1 as [|x l k _ IH|x l k _ IH]; intros Hk; [done| |].
  - apply Forall_cons in Hk as [? ?]. constructor; auto.
  - apply Forall_cons in Hk as [? ?]. auto.
Qed.

(** ** What one run of the locator can add to its state *)

Lemma extends_refl s : extends s s.
Proof. exists [], []. by rewrite !app_nil_r. Qed.

Lemma extends_trans s1 s2 s3 : extends s1 s2 → extends s2 s3 → extends s1 s3.
Proof.
  intros (a1 & e1 & Hq1 & Ha1 & He1 & Hn1) (a2 & e2 & Hq2 & Ha2 & He2 & Hn2).
  exists (a1 ++ a2), (e1 ++ e2).
  rewrite Hq2, Hq1, He2, He1, !app_assoc.
  repeat split; try done; by apply Forall_app.
Qed.

Lemma bind_assoc {A B C} (m : M A) (f : A → M B) (g : B → M C) s :
  bind (bind m f) g s = bind m (λ a, bind (f a) g) s.
Proof. unfold bind. by destruct (m s) as [[a|e] s']. Qed.

Lemma yields_ret {A} (a : A) (Q : A → Prop) : Q a → yields (ret a) Q.
Proof.
  intros HQ s. split; [apply extends_refl|]. simpl. by intros ? [= <-].
Qed.

Lemma yields_throw {A} e (Q : A → Prop) : yields (throw e) Q.
Proof. intros s. split; [apply extends_refl|]. by simpl. Qed.

Lemma yields_bind {A B} (m : M A) (f : A → M B) (Q : A → Prop) (Q' : B → Prop) :
  yields m Q → (∀ a, Q a → yields (f a) Q') → yields (bind m f) Q'.
Proof.
  intros Hm Hf s. unfold bind. destruct (Hm s) as [Hext HQ].
  destruct (m s) as [[a|e] s1]; simpl in *.
  - destruct (Hf a (HQ a eq_refl) s1) as [Hext' HQ'].
    split; [by eapply extends_trans|done].
  - by split.
Qed.

Lemma steps_bind {A B} (m : M A) (f : A → M B) :
  steps m → (∀ a, steps (f a)) → steps (bind m f).
Proof. intros Hm Hf. eapply yields_bind; [apply Hm|]. intros a _. apply Hf. Qed.

Lemma steps_visitAll {S} (visitor : S → node → M S) nodes s :
  (∀ s n, steps (visitor s n)) → steps (visitAll visitor s nodes).
Proof.
  intros Hv. revert s. induction nodes as [|n nodes IH]; intros s; simpl.
  - by apply yields_ret.
  - apply steps_bind; [apply Hv|]. intros a. apply IH.
Qed.

Lemma steps_traverseWith {S} root (visitor : S → node → M S) s :
  (∀ s n, steps (visitor s n)) → steps (traverseWith root visitor s).
Proof. apply steps_visitAll. Qed.

Lemma steps_traverse root (visitor : node → M unit) :
  (∀ n, steps (visitor n)) → steps (traverse root visitor).
Proof. intros Hv. apply steps_traverseWith. intros _ n. apply Hv. Qed.

Lemma steps_emit e : notSuccess e → steps (emit e).
Proof.
  intros He s. split; [|done]. exists [], [e]. simpl.
  rewrite app_nil_r. repeat split; try done. by constructor.
Qed.

Lemma steps_push ds : Forall wellFormed ds → steps (push ds).
Proof.
  intros Hd s. split; [|done]. exists ds, []. simpl.
  by rewrite app_nil_r.
Qed.

Lemma steps_setLocation d k : steps (setLocation d k).
Proof.
  intros s. split; [|done]. exists [], []. simpl. by rewrite !app_nil_r.
Qed.

Lemma steps_forEach {A} (f : A → M unit) l :
  (∀ x, steps (f x)) → steps (forEach f l).
Proof.
  intros Hf. induction l as [|x l IH]; simpl.
  - by apply yields_ret.
  - apply steps_bind; [apply Hf|]. by intros _.
Qed.

Lemma allocate_unmarked next ds : Forall unmarked (allocate next ds).
Proof.
  revert next. induction ds as [|d ds IH]; intros next; simpl; constructor.
  - by repeat split.
  - apply IH.
Qed.

Lemma yields_allocated ds : yields (allocated ds) (Forall unmarked).
Proof.
  intros s. split.
  - exists [], []. simpl. by rewrite !app_nil_r.
  - simpl. intros a [= <-]. apply allocate_unmarked.
Qed.

Lemma visitAll_app {S} (visitor : S → node → M S) a l1 l2 s :
  visitAll visitor a (l1 ++ l2) s
  = match visitAll visitor a l1 s with
    | (Normal a', s') => visitAll visitor a' l2 s'
    | (Thrown e, s') => (Thrown e, s')
    end.
Proof.
  revert a s. induction l1 as [|n l1 IH]; intros a s; [done|].
  simpl. unfold bind. destruct (visitor a n s) as [[a'|e] s']; [apply IH|done].
Qed.

Lemma visitAll_skip {S} (visitor : S → node → M S) a l s :
  (∀ n, n ∈ l → ∀ a s, visitor a n s = (Normal a, s)) →
  visitAll visitor a l s = (Normal a, s).
Proof.
  induction l as [|n l IH]; intros Hskip; [done|].
  simpl. unfold bind. rewrite Hskip by (by left).
  apply IH. intros m Hm. apply Hskip. by right.
Qed.

Lemma forEach_setLocation start defs s :
  forEach (λ def, setLocation def (locationKey start (loc_start def))) defs s
  = (Normal (),
     {| queries := queries s;
        documentLocations := setLocations start defs (documentLocations s);
        nextObject := nextObject s;
        emitted := emitted s |}).
Proof.
  revert s. induction defs as [|d defs IH]; intros s.
  - by destruct s.
  - simpl. unfold bind. simpl. by rewrite IH.
Qed.

(** ** The locator only pushes well-formed definitions *)
Section locator_facts.
Variable camelCase : string → string.
Variable preprocessSource : string → string → list string.
Variable babelParseToAst : string → string → string + node.
Variable getGraphQLTag : node → tagResult.

Local Abbreviation generateQueryName := (FileParser.generateQueryName camelCase).
Local Abbreviation extractStaticQuery :=
  (FileParser.extractStaticQuery camelCase getGraphQLTag).
Local Abbreviation extractPageQuery := (FileParser.extractPageQuery camelCase getGraphQLTag).
Local Abbreviation locateTags := (FileParser.locateTags camelCase getGraphQLTag).
Local Abbreviation passes := (FileParser.passes camelCase getGraphQLTag).
Local Abbreviation parseToAst := (FileParser.parseToAst preprocessSource babelParseToAst).
Local Abbreviation findGraphQLTags :=
  (FileParser.findGraphQLTags camelCase preprocessSource babelParseToAst
     getGraphQLTag).

Lemma generateQueryName_named def h file :
  named (generateQueryName def h file).
Proof.
  unfold named, generateQueryName.
  destruct (name def) as [[|a n]|] eqn:E; simpl.
  - eexists. split; [done|]. apply append_nonempty, pretty_N_nonempty.
  - exists (String a n). by rewrite E.
  - eexists. split; [done|]. apply append_nonempty, pretty_N_nonempty.
Qed.

Lemma generateQueryName_unmarked def h file :
  unmarked def → unmarked (generateQueryName def h file).
Proof.
  unfold unmarked.
  destruct (generateQueryName_fields camelCase def h file)
    as (_ & _ & -> & -> & -> & ->). done.
Qed.

Lemma markStaticQuery_wellFormed isHook text h d :
  named d → wellFormed (markStaticQuery isHook text h d).
Proof.
  intros Hn. split; [done|]. left. repeat split; simpl; eauto.
Qed.

Lemma yields_callGetGraphQLTag path :
  yields (callGetGraphQLTag getGraphQLTag path)
    (λ r, ∀ defs text h g, r = Some (defs, text, h, g) → Forall unmarked defs).
Proof.
  unfold callGetGraphQLTag.
  eapply yields_bind; [by apply steps_emit|]. intros _ _.
  destruct (getGraphQLTag path) as [e| |ds text h g].
  - apply yields_throw.
  - by apply yields_ret.
  - eapply yields_bind; [apply yields_allocated|]. intros defs Hdefs.
    apply yields_ret. by intros ???? [= <- _ _ _].
Qed.

Lemma yields_locateAndName file path h defs :
  yields (locateAndName camelCase file path h defs)
    (λ defs', defs' = map (λ def, generateQueryName def h file) defs).
Proof.
  unfold locateAndName.
  eapply yields_bind.
  - apply steps_forEach. intros d. apply steps_setLocation.
  - intros _ _. by apply yields_ret.
Qed.

Lemma steps_warnForGlobalTag file : steps (warnForGlobalTag file).
Proof. by apply steps_emit. Qed.

Lemma steps_warnForUnknownQueryVariable varName file usage :
  steps (warnForUnknownQueryVariable varName file usage).
Proof. by apply steps_emit. Qed.

Lemma steps_extractStaticQuery file path isHook :
  steps (extractStaticQuery file path isHook).
Proof.
  unfold FileParser.extractStaticQuery.
  eapply yields_bind; [apply yields_callGetGraphQLTag|].
  intros [[[[defs text] h] g]|] Hr; [|by apply yields_ret].
  apply steps_bind.
  { destruct g; [apply steps_warnForGlobalTag|by apply yields_ret]. }
  intros _. eapply yields_bind; [apply yields_locateAndName|].
  intros defs' ->. apply steps_push.
  rewrite !Forall_map. apply Forall_true. intros d.
  apply markStaticQuery_wellFormed, generateQueryName_named.
Qed.

Lemma steps_extractPageQuery file path : steps (extractPageQuery file path).
Proof.
  unfold FileParser.extractPageQuery.
  eapply yields_bind; [apply yields_callGetGraphQLTag|].
  intros [[[[defs text] h] g]|] Hr; [|by apply yields_ret].
  apply steps_bind.
  { destruct g; [apply steps_warnForGlobalTag|by apply yields_ret]. }
  intros _. eapply yields_bind; [apply yields_locateAndName|].
  intros defs' ->. apply steps_push.
  rewrite Forall_map. eapply Forall_impl; [by eapply Hr|].
  intros d Hd. split; [apply generateQueryName_named|].
  right. by apply generateQueryName_unmarked.
Qed.

(** *** What one extraction does to the state *)

Lemma extractStaticQuery_Tag file path isHook ds text h g s :
  getGraphQLTag path = Tag ds text h g →
  extractStaticQuery file path isHook s
  = (Normal (),
     afterExtract camelCase file (node_start path) ds text h g isHook s).
Proof.
  intros Htag.
  unfold FileParser.extractStaticQuery, callGetGraphQLTag, locateAndName.
  unfold bind at 1. unfold bind at 1. simpl. rewrite Htag.
  unfold bind at 1. simpl. unfold bind at 1.
  destruct g; simpl; unfold bind; rewrite forEach_setLocation; simpl;
    unfold afterExtract, extracted; simpl; f_equal; f_equal;
    by rewrite <- app_assoc.
Qed.

Lemma extractPageQuery_Tag file path ds text h g s :
  getGraphQLTag path = Tag ds text h g →
  queries (extractPageQuery file path s).2
  = queries s
    ++ map (λ def, generateQueryName def h file) (allocate (nextObject s) ds).
Proof.
  intros Htag.
  unfold FileParser.extractPageQuery, callGetGraphQLTag, locateAndName.
  unfold bind at 1. unfold bind at 1. simpl. rewrite Htag.
  unfold bind at 1. simpl. unfold bind at 1.
  destruct g; simpl; unfold bind; rewrite forEach_setLocation; done.
Qed.

Lemma extract_no_Tag file path s :
  (∀ ds text h g, getGraphQLTag path ≠ Tag ds text h g) →
  (∀ isHook, queries (extractStaticQuery file path isHook s).2 = queries s)
  ∧ queries (extractPageQuery file path s).2 = queries s.
Proof.
  intros Hno.
  unfold FileParser.extractStaticQuery, FileParser.extractPageQuery,
    callGetGraphQLTag.
  unfold bind. simpl.
  destruct (getGraphQLTag path) as [e| |ds text h g]; [done|done|].
  by destruct (Hno ds text h g).
Qed.

(** [extractStaticQuery] pushes marked definitions only, the visitor of
    the page-query pass unmarked ones only. *)
Lemma extractStaticQuery_pushes_marked file path isHook s :
  Forall markedStatic
    (pushedBy (extractStaticQuery file path isHook) s).
Proof.
  unfold pushedBy.
  destruct (getGraphQLTag path) as [e| |ds text h g] eqn:Htag.
  - rewrite (proj1 (extract_no_Tag file path s ltac:(congruence))).
    by rewrite drop_all.
  - rewrite (proj1 (extract_no_Tag file path s ltac:(congruence))).
    by rewrite drop_all.
  - rewrite (extractStaticQuery_Tag _ _ _ _ _ _ _ _ Htag). simpl.
    rewrite drop_app_length. unfold extracted.
    rewrite !Forall_map. apply Forall_true. intros d.
    repeat split; simpl; eauto.
Qed.

Lemma extractPageQuery_pushes_unmarked file path s :
  Forall unmarked (pushedBy (extractPageQuery file path) s).
Proof.
  unfold pushedBy.
  destruct (getGraphQLTag path) as [e| |ds text h g] eqn:Htag.
  - rewrite (proj2 (extract_no_Tag file path s ltac:(congruence))).
    by rewrite drop_all.
  - rewrite (proj2 (extract_no_Tag file path s ltac:(congruence))).
    by rewrite drop_all.
  - rewrite (extractPageQuery_Tag _ _ _ _ _ _ _ Htag).
    rewrite drop_app_length, Forall_map.
    eapply Forall_impl; [apply allocate_unmarked|].
    intros d Hd. by apply generateQueryName_unmarked.
Qed.

Lemma steps_variableDeclaratorVisitor file varName isHook found varPath :
  steps (variableDeclaratorVisitor camelCase getGraphQLTag file varName
           isHook found varPath).
Proof.
  unfold variableDeclaratorVisitor.
  destruct varPath; try by apply yields_ret.
  case_decide; [|by apply yields_ret].
  destruct init as [e|]; [|apply yields_throw].
  destruct (isTaggedTemplateExpression e); [|by apply yields_ret].
  apply steps_traverseWith. intros f n.
  destruct n; try by apply yields_ret.
  apply steps_bind; [apply steps_extractStaticQuery|].
  intros _. by apply yields_ret.
Qed.

(** Reading [init.type] of a declarator of the searched name that has no
    initialiser throws. *)
Lemma variableDeclaratorVisitor_uninitialised file varName isHook found s :
  variableDeclaratorVisitor camelCase getGraphQLTag file varName isHook found
    (VariableDeclarator (Identifier varName) None) s
  = (Thrown "TypeError: Cannot read property 'type' of null", s).
Proof. unfold variableDeclaratorVisitor. simpl. by rewrite decide_True. Qed.

(** When every declarator of the searched name has an initialiser that is
    not a tagged template (in particular when there is no such declarator),
    the search records nothing and ends with the warning that names the
    variable, the file and the calling construct; the traversal that made
    the search goes on. *)
Lemma findVariable_unresolved ast file varName usage isHook s :
  (∀ id init, VariableDeclarator id init ∈ descendants ast →
     node_name id = Some varName →
     ∃ e, init = Some e ∧ isTaggedTemplateExpression e = false) →
  findVariable camelCase getGraphQLTag ast file varName usage isHook s
  = (Normal (),
     emitting s [ReportWarn (unknownQueryVariableMessage varName file usage)]).
Proof.
  intros Hdecl. unfold findVariable, traverseWith, bind.
  rewrite visitAll_skip; [done|].
  intros n Hn found s'. unfold variableDeclaratorVisitor.
  destruct n as [| | | |id init| | |]; try done.
  case_decide as Hid; [|done].
  destruct (Hdecl id init Hn Hid) as (e & -> & ->). done.
Qed.

Lemma steps_findVariable ast file varName usage isHook :
  steps (findVariable camelCase getGraphQLTag ast file varName usage isHook).
Proof.
  unfold findVariable. apply steps_bind.
  - apply steps_traverseWith. intros f n.
    apply steps_variableDeclaratorVisitor.
  - intros [|]; [by apply yields_ret|].
    apply steps_warnForUnknownQueryVariable.
Qed.

Lemma steps_staticQueryVisitor ast file path :
  steps (staticQueryVisitor camelCase getGraphQLTag ast file path).
Proof.
  unfold staticQueryVisitor.
  destruct path; try by apply yields_ret.
  case_decide; [|by apply yields_ret].
  apply steps_traverse. intros jsxPath.
  destruct jsxPath; try by apply yields_ret.
  case_decide; [|by apply yields_ret].
  apply steps_traverse. intros p.
  destruct p; try by apply yields_ret.
  - apply steps_extractStaticQuery.
  - case_decide; [apply steps_findVariable|by apply yields_ret].
Qed.

Lemma steps_useStaticQueryVisitor ast file hookPath :
  steps (useStaticQueryVisitor camelCase getGraphQLTag ast file hookPath).
Proof.
  unfold useStaticQueryVisitor.
  destruct hookPath; try by apply yields_ret.
  destruct (_ || _); [by apply yields_ret|].
  apply steps_traverse. intros p.
  destruct p; try by apply yields_ret.
  - apply steps_extractStaticQuery.
  - destruct (_ && _); [apply steps_findVariable|by apply yields_ret].
Qed.

Lemma steps_pageQueryVisitor file path :
  steps (pageQueryVisitor camelCase getGraphQLTag file path).
Proof.
  unfold pageQueryVisitor.
  destruct path; try by apply yields_ret.
  apply steps_traverse. intros p.
  destruct p; try by apply yields_ret.
  apply steps_extractPageQuery.
Qed.

Lemma steps_passes file ast : steps (passes file ast).
Proof.
  unfold FileParser.passes.
  apply steps_bind;
    [apply steps_traverse; intros n; apply steps_staticQueryVisitor|].
  intros _. apply steps_bind;
    [apply steps_traverse; intros n; apply steps_useStaticQueryVisitor|].
  intros _. apply steps_traverse. intros n. apply steps_pageQueryVisitor.
Qed.

(** The passes run in the order component, hook, page, and each of them
    only appends to [queries]. *)
Lemma passes_in_order file ast s :
  let s1 :=
    (traverse ast (staticQueryVisitor camelCase getGraphQLTag ast file) s).2 in
  let s2 :=
    (traverse ast (useStaticQueryVisitor camelCase getGraphQLTag ast file)
       s1).2 in
  let s3 :=
    (traverse ast (pageQueryVisitor camelCase getGraphQLTag file) s2).2 in
  queries s `prefix_of` queries s1
  ∧ queries s1 `prefix_of` queries s2
  ∧ queries s2 `prefix_of` queries s3
  ∧ ((passes file ast s).1 = Normal () → (passes file ast s).2 = s3).
Proof.
  intros s1 s2 s3.
  assert (Hprefix : ∀ (m : M unit) s0, steps m →
            queries s0 `prefix_of` queries (m s0).2).
  { intros m s0 Hm. destruct (Hm s0) as [(a & _ & Hq & _) _].
    by exists a. }
  split; [apply Hprefix, steps_traverse; intros n;
          apply steps_staticQueryVisitor|].
  split; [apply Hprefix, steps_traverse; intros n;
          apply steps_useStaticQueryVisitor|].
  split; [apply Hprefix, steps_traverse; intros n;
          apply steps_pageQueryVisitor|].
  unfold FileParser.passes, bind, s3, s2, s1.
  destruct (traverse ast _ s) as [[[]|e] t1]; [|done]. simpl.
  destruct (traverse ast _ t1) as [[[]|e] t2]; [|done]. done.
Qed.

Lemma locateTags_passes file ast s :
  locateTags file ast s
  = match passes file ast s with
    | (Normal _, s') =>
        (Normal (uniqueQueries (documentLocations s') (queries s')), s')
    | (Thrown e, s') => (Thrown e, s')
    end.
Proof.
  unfold FileParser.locateTags, bind.
  by destruct (passes file ast s) as [[[]|e] s1].
Qed.

Lemma steps_tryCandidates filePath items :
  steps (tryCandidates babelParseToAst filePath items).
Proof.
  induction items as [|item rest IH]; simpl; [by apply yields_ret|].
  apply steps_bind; [by apply steps_emit|]. intros _.
  destruct (babelParseToAst item filePath); [|by apply yields_ret].
  apply steps_bind; [by apply steps_emit|]. intros _.
  apply steps_bind; [by apply steps_emit|]. by intros _.
Qed.

Lemma steps_parseTranspiled filePath fileStr transpiled :
  steps (parseTranspiled babelParseToAst filePath fileStr transpiled).
Proof.
  unfold parseTranspiled. destruct transpiled as [|c cs].
  - apply steps_bind; [by apply steps_emit|]. intros _.
    destruct (babelParseToAst fileStr filePath); [|by apply yields_ret].
    apply steps_bind; [by apply steps_emit|]. intros _.
    apply steps_bind; [by apply steps_emit|]. intros _. by apply yields_ret.
  - apply steps_bind; [apply steps_tryCandidates|].
    intros [ast|]; [by apply yields_ret|].
    apply steps_bind; [by apply steps_emit|]. intros _.
    apply steps_bind; [by apply steps_emit|]. intros _. by apply yields_ret.
Qed.

Lemma steps_parseToAst filePath fileStr : steps (parseToAst filePath fileStr).
Proof.
  unfold FileParser.parseToAst.
  apply steps_bind; [by apply steps_emit|]. intros _.
  apply steps_parseTranspiled.
Qed.

Lemma steps_locateTags file ast : steps (locateTags file ast).
Proof.
  unfold FileParser.locateTags.
  apply steps_bind; [apply steps_passes|]. intros _.
  apply steps_bind; [intros s; split; [apply extends_refl|done]|].
  intros s. by apply yields_ret.
Qed.

(** The first thing [findGraphQLTags] does is to run the preprocessors. *)
Lemma findGraphQLTags_emitted file text s :
  ∃ events,
    Forall notSuccess events
    ∧ emitted (findGraphQLTags file text s).2
      = emitted s ++ CallPreprocessSource file text :: events.
Proof.
  unfold FileParser.findGraphQLTags, FileParser.parseToAst.
  rewrite !bind_assoc. unfold bind at 1. simpl.
  match goal with |- context [bind ?m ?f ?s0] =>
    assert (Hs : steps (bind m f)); [|destruct (Hs s0) as [Hext _]] end.
  { apply steps_bind; [apply steps_parseTranspiled|].
    intros [ast|]; [apply steps_locateTags|by apply yields_ret]. }
  destruct Hext as (a & ev & _ & _ & He & Hn). simpl in He.
  exists ev. split; [done|]. by rewrite He, <- app_assoc.
Qed.

(** Whatever [findGraphQLTags] resolves to is well formed, and it never
    signals success itself. *)
Lemma findGraphQLTags_wellFormed file text r s :
  findGraphQLTags file text initialLocatorState = (r, s) →
  Forall notSuccess (emitted s)
  ∧ ∀ defs, r = Normal defs → Forall wellFormed defs.
Proof.
  unfold FileParser.findGraphQLTags, bind.
  destruct (steps_parseToAst file text initialLocatorState) as [Hext _].
  destruct (parseToAst file text initialLocatorState) as [[[ast|]|e] s1];
    simpl in *.
  - rewrite locateTags_passes.
    destruct (steps_passes file ast s1) as [Hext' _].
    pose proof (extends_trans _ _ _ Hext Hext') as (a & ev & Hq & Ha & He & Hn).
    destruct (passes file ast s1) as [[[]|e] s2]; simpl in *;
      intros [= <- <-]; (split; [by rewrite He|]); [|done].
    intros defs [= <-]. rewrite Hq. simpl.
    eapply Forall_sublist; [apply baseUniq_sublist|apply Ha].
  - destruct Hext as (a & ev & Hq & Ha & He & Hn).
    intros [= <- <-]. split; [by rewrite He|]. by intros defs [= <-].
  - destruct Hext as (a & ev & Hq & Ha & He & Hn).
    intros [= <- <-]. split; [by rewrite He|]. done.
Qed.
End locator_facts.

(** ** [indexOf] and occurrences *)

Lemma prefix_true_iff (p s : string) :
  String.prefix p s = true ↔ ∃ post, s = p +:+ post.
Proof.
  revert s. induction p as [|a p IH]; intros s.
  - split; [intros _; by exists s|]. by destruct s.
  - destruct s as [|b s]; simpl.
    + split; [done|]. by intros [post ?].
    + destruct (Ascii.ascii_dec a b) as [->|Hne].
      * rewrite IH. split; intros [post E]; exists post.
        -- by subst.
        -- change (String b s = String b (p +:+ post)) in E. congruence.
      * split; [done|]. intros [post E].
        change (String b s = String a (p +:+ post)) in E. congruence.
Qed.

Lemma occursIn_cons (p : string) a (s : string) :
  occursIn p (String a s) ↔ String.prefix p (String a s) = true ∨ occursIn p s.
Proof.
  rewrite prefix_true_iff. split.
  - intros ([|b pre] & post & E).
    + left. by exists post.
    + right. exists pre, post.
      change (String a s = String b (pre +:+ p +:+ post)) in E. congruence.
  - intros [[post E]|(pre & post & E)].
    + by exists EmptyString, post.
    + exists (String a pre), post. by subst.
Qed.

Lemma indexOfFrom_none (p s : string) (i : Z) :
  (0 ≤ i)%Z → indexOfFrom p s i = (-1)%Z ↔ ¬ occursIn p s.
Proof.
  revert i. induction s as [|a s IH]; intros i Hi.
  - change (indexOfFrom p EmptyString i)
      with (if String.prefix p EmptyString then i else (-1)%Z).
    destruct (String.prefix p EmptyString) eqn:E.
    + split; [intros ?; exfalso; lia|]. intros Hno. exfalso. apply Hno.
      apply prefix_true_iff in E as [post E]. by exists EmptyString, post.
    + split; [|done]. intros _ ([|b pre] & post & Hocc); [|done].
      simpl in Hocc.
      assert (String.prefix p EmptyString = true) as Ht
        by (apply prefix_true_iff; by exists post).
      congruence.
  - rewrite occursIn_cons.
    change (indexOfFrom p (String a s) i)
      with (if String.prefix p (String a s) then i
            else indexOfFrom p s (i + 1)%Z).
    destruct (String.prefix p (String a s)) eqn:E.
    + split; [intros ?; exfalso; lia|]. intros Hno. exfalso. apply Hno.
      by left.
    + rewrite IH by lia. split.
      * intros Hno [?|?]; [done|by apply Hno].
      * intros Hno ?. apply Hno. by right.
Qed.

Lemma indexOf_none (s p : string) : indexOf s p = (-1)%Z ↔ ¬ occursIn p s.
Proof. apply indexOfFrom_none. lia. Qed.

(** ** [parseFile] *)
Section parseFile_facts.
Variable camelCase : string → string.
Variable md5 : string → string.
Variable preprocessSource : string → string → list string.
Variable babelParseToAst : string → string → string + node.
Variable getGraphQLTag : node → tagResult.

Local Abbreviation findGraphQLTags :=
  (FileParser.findGraphQLTags camelCase preprocessSource babelParseToAst
     getGraphQLTag).
Local Abbreviation cachedFindGraphQLTags :=
  (FileParser.cachedFindGraphQLTags camelCase preprocessSource
     babelParseToAst getGraphQLTag).
Local Abbreviation parseFile :=
  (FileParser.parseFile camelCase md5 preprocessSource babelParseToAst
     getGraphQLTag).

(** C4: a file whose text has no occurrence of [graphql] yields [null]
    and leaves the process untouched: nothing is logged (so neither the
    preprocessors, the parser nor [getGraphQLTag] were called) and the
    cache is as it was. *)
Theorem parseFile_without_tag (file text : string) (w : world) :
  fs w file = Some text →
  ¬ occursIn "graphql" text →
  parseFile file w = (None, w).
Proof.
  intros Hread Hno. unfold FileParser.parseFile. rewrite Hread.
  apply indexOf_none in Hno. by rewrite decide_True.
Qed.

Lemma cachedFindGraphQLTags_log key file text w r w' :
  cachedFindGraphQLTags key file text w = (r, w') →
  fs w' = fs w
  ∧ ∃ events, log w' = log w ++ events ∧ Forall notSuccess events.
Proof.
  unfold FileParser.cachedFindGraphQLTags.
  destruct (cache w !! key) as [defs|].
  - intros [= <- <-]. split; [done|]. exists []. by rewrite app_nil_r.
  - destruct (findGraphQLTags file text initialLocatorState) as [[defs|e] s]
      eqn:E; apply findGraphQLTags_wellFormed in E as [Hev _];
      intros [= <- <-]; (split; [done|]); by exists (emitted s).
Qed.

(** C2: [parseFile] never returns an empty document.  A document that is
    returned has a non-empty [definitions] array; when the extraction
    (cached or fresh) gives no definition the result is [null]; when it
    gives definitions the result is the document made of them; and the
    events of the call end with one success notification for the file
    when a document is returned and contain none otherwise. *)
Theorem parseFile_never_empty (file : string) (w : world) :
  let result := parseFile file w in
  (∀ doc, result.1 = Some doc → definitions doc ≠ [])
  ∧ (∀ text, fs w file = Some text → indexOf text "graphql" ≠ (-1)%Z →
       (cachedFindGraphQLTags (md5 (file +:+ text)) file text w).1
       = Normal [] →
       result.1 = None)
  ∧ (∀ text astDefinitions,
       fs w file = Some text → indexOf text "graphql" ≠ (-1)%Z →
       (cachedFindGraphQLTags (md5 (file +:+ text)) file text w).1
       = Normal astDefinitions →
       astDefinitions ≠ [] →
       result.1 = Some {| kind := "Document";
                          definitions := astDefinitions |}
       ∧ ∃ events,
           Forall notSuccess events
           ∧ log result.2
             = log w ++ events ++ [QueryExtractedBabelSuccess file])
  ∧ ∃ events,
      Forall notSuccess events
      ∧ log result.2
        = log w ++ events
          ++ match result.1 with
             | Some _ => [QueryExtractedBabelSuccess file]
             | None => []
             end.
Proof.
  unfold FileParser.parseFile. simpl.
  destruct (fs w file) as [text|] eqn:Hread; simpl.
  2:{ split; [done|]. split; [done|]. split; [done|].
      eexists. split; [|by rewrite app_nil_r]. by repeat constructor. }
  case_decide as Hidx; simpl.
  { split; [done|]. split; [done|].
    split; [by intros text' defs [= <-] Hidx'|].
    exists []. by rewrite !app_nil_r. }
  destruct (cachedFindGraphQLTags _ file text w) as [[defs|e] w1] eqn:E;
    destruct (cachedFindGraphQLTags_log _ _ _ _ _ _ E)
      as (_ & events & Hlog & Hev); simpl.
  - destruct defs as [|d defs]; simpl.
    + split; [done|]. split; [done|].
      split; [intros text' defs [= <-] _; rewrite E; by intros [= <-] |].
      exists events. by rewrite app_nil_r.
    + split; [by intros doc [= <-]|]. split.
      { intros text' [= <-] _ Hz. by rewrite E in Hz. }
      split.
      { intros text' defs' [= <-] _. rewrite E. intros [= <-] _.
        split; [done|]. exists events. by rewrite Hlog, <- app_assoc. }
      exists events. by rewrite Hlog, <- app_assoc.
  - split; [done|]. split; [done|].
    split; [intros text' defs [= <-] _; by rewrite E|].
    eexists. rewrite Hlog, <- app_assoc.
    split; [|by rewrite app_nil_r].
    apply Forall_app. split; [done|]. by repeat constructor.
Qed.

Lemma cachedFindGraphQLTags_wellFormed key file text w r w' :
  cacheWellFormed w →
  cachedFindGraphQLTags key file text w = (r, w') →
  cacheWellFormed w' ∧ ∀ defs, r = Normal defs → Forall wellFormed defs.
Proof.
  intros Hw. unfold FileParser.cachedFindGraphQLTags.
  destruct (cache w !! key) as [defs|] eqn:Hkey.
  - intros [= <- <-]. split; [done|]. intros ? [= <-].
    by apply (Hw key defs).
  - destruct (findGraphQLTags file text initialLocatorState) as [[defs|e] s]
      eqn:E; apply findGraphQLTags_wellFormed in E as [_ Hdefs];
      intros [= <- <-].
    + split; [|by intros ? [= <-]; apply Hdefs].
      apply map_Forall_insert_2; [by apply Hdefs|done].
    + by split.
Qed.

Lemma parseFile_hit file text w defs :
  fs w file = Some text →
  indexOf text "graphql" ≠ (-1)%Z →
  cache w !! md5 (file +:+ text) = Some defs →
  parseFile file w = finish file defs w.
Proof.
  intros Hread Hidx Hkey. unfold FileParser.parseFile.
  rewrite Hread, decide_False by done.
  unfold FileParser.cachedFindGraphQLTags. rewrite Hkey.
  unfold finish. by destruct defs.
Qed.

Lemma parseFile_miss file text w :
  fs w file = Some text →
  indexOf text "graphql" ≠ (-1)%Z →
  cache w !! md5 (file +:+ text) = None →
  parseFile file w
  = match findGraphQLTags file text initialLocatorState with
    | (Normal defs, s) =>
        finish file defs
          {| fs := fs w;
             cache := <[md5 (file +:+ text) := defs]> (cache w);
             log := log w ++ emitted s |}
    | (Thrown e, s) =>
        (None,
         logged (logged w (emitted s))
           [ReportError (problemParsingGraphQL file);
            QueryExtractionGraphQLError file])
    end.
Proof.
  intros Hread Hidx Hkey. unfold FileParser.parseFile.
  rewrite Hread, decide_False by done.
  unfold FileParser.cachedFindGraphQLTags. rewrite Hkey.
  destruct (findGraphQLTags file text initialLocatorState) as [[defs|e] s];
    [|done].
  unfold finish. by destruct defs.
Qed.

(** A document that [parseFile] returns is in the cache under the key of
    the file and its text. *)
Lemma parseFile_document_cached file text w doc :
  fs w file = Some text →
  (parseFile file w).1 = Some doc →
  indexOf text "graphql" ≠ (-1)%Z
  ∧ cache (parseFile file w).2 !! md5 (file +:+ text)
    = Some (definitions doc).
Proof.
  intros Hread.
  destruct (decide (indexOf text "graphql" = (-1)%Z)) as [Hidx|Hidx].
  { unfold FileParser.parseFile. by rewrite Hread, decide_True. }
  intros Hdoc. split; [done|]. revert Hdoc.
  destruct (cache w !! md5 (file +:+ text)) as [defs|] eqn:Hkey.
  - rewrite (parseFile_hit _ _ _ _ Hread Hidx Hkey).
    unfold finish. destruct defs; [done|]. by intros [= <-].
  - rewrite (parseFile_miss _ _ _ Hread Hidx Hkey).
    destruct (findGraphQLTags file text initialLocatorState) as [[defs|e] s];
      [|done].
    unfold finish. destruct defs; [done|]. intros [= <-]. simpl.
    apply lookup_insert_eq.
Qed.

(** What the first of two calls leaves behind when it stored an entry. *)
Lemma parseFile_stores file text w :
  fs w file = Some text →
  indexOf text "graphql" ≠ (-1)%Z →
  is_Some (cache (parseFile file w).2 !! md5 (file +:+ text)) →
  ∃ defs, cache (parseFile file w).2 !! md5 (file +:+ text) = Some defs
          ∧ (parseFile file w).1 = (finish file defs w).1.
Proof.
  intros Hread Hidx.
  destruct (cache w !! md5 (file +:+ text)) as [defs|] eqn:Hkey.
  - rewrite (parseFile_hit _ _ _ _ Hread Hidx Hkey). intros _. exists defs.
    split; [|done]. unfold finish. by destruct defs.
  - rewrite (parseFile_miss _ _ _ Hread Hidx Hkey).
    destruct (findGraphQLTags file text initialLocatorState) as [[defs|e] s].
    + intros _. exists defs. unfold finish.
      destruct defs; simpl; by rewrite lookup_insert_eq.
    + simpl. rewrite Hkey. by intros [? ?].
Qed.

End parseFile_facts.

(** ** [parseToAst] on preprocessed candidates *)

Lemma emitting_app s a b : emitting (emitting s a) b = emitting s (a ++ b).
Proof. unfold emitting. simpl. by rewrite app_assoc. Qed.

Lemma emitting_nil s : emitting s [] = s.
Proof. destruct s. unfold emitting. simpl. by rewrite app_nil_r. Qed.

Section parseToAst_facts.
Variable preprocessSource : string → string → list string.
Variable babelParseToAst : string → string → string + node.

Local Abbreviation failureEvents := (Spec.failureEvents babelParseToAst).
Local Abbreviation failsToParse := (Spec.failsToParse babelParseToAst).
Local Abbreviation parsesFirst := (Spec.parsesFirst babelParseToAst).
Local Abbreviation firstAst := (Spec.firstAst babelParseToAst).

Lemma tryCandidates_run filePath failed rest s :
  Forall (failsToParse filePath) failed →
  parsesFirst filePath rest →
  tryCandidates babelParseToAst filePath (failed ++ rest) s
  = (Normal (firstAst filePath rest),
     emitting s (flat_map (failureEvents filePath) failed
                 ++ match rest with
                    | [] => []
                    | item :: _ => [CallBabelParseToAst item filePath]
                    end)).
Proof.
  intros Hfailed Hrest. revert s.
  induction Hfailed as [|item failed [error Hitem] _ IH]; intros s.
  - destruct rest as [|item rest]; simpl.
    + by rewrite emitting_nil.
    + destruct Hrest as [ast Hast]. unfold bind. simpl. by rewrite Hast.
  - simpl. unfold bind. simpl. rewrite Hitem. simpl.
    rewrite IH, !emitting_app. unfold Spec.failureEvents at 2. by rewrite Hitem.
Qed.

(** C6, as the code has it.  With at least one candidate, of which the
    first ones ([failed]) do not parse and the next one, if there is one,
    does: [parseToAst] returns the AST of that first parsing candidate,
    having emitted the error report and the extraction-error notification
    once for each candidate of [failed], whether or not a later one
    parses; when no candidate is left it returns [null] after one more
    report ([Failed to parse preprocessed file]) and notification.  It
    never throws. *)
Theorem parseToAst_candidates (filePath fileStr : string)
    (failed rest : list string) (s : locatorState) :
  preprocessSource filePath fileStr = failed ++ rest →
  failed ++ rest ≠ [] →
  Forall (failsToParse filePath) failed →
  parsesFirst filePath rest →
  parseToAst preprocessSource babelParseToAst filePath fileStr s
  = (Normal (firstAst filePath rest),
     emitting s
       (CallPreprocessSource filePath fileStr
        :: flat_map (failureEvents filePath) failed
        ++ match rest with
           | [] => [ReportError (failedToParsePreprocessed filePath);
                    QueryExtractionGraphQLError filePath]
           | item :: _ => [CallBabelParseToAst item filePath]
           end)).
Proof.
  intros Hpre Hne Hfailed Hrest.
  unfold parseToAst, parseTranspiled. rewrite Hpre.
  destruct (failed ++ rest) as [|c cs] eqn:E; [done|]. rewrite <- E.
  unfold bind at 1. simpl. unfold bind at 1.
  rewrite (tryCandidates_run _ _ _ _ Hfailed Hrest), emitting_app.
  destruct rest as [|item rest]; simpl.
  - unfold bind. simpl. by rewrite !emitting_app, app_nil_r.
  - destruct Hrest as [ast ->]. done.
Qed.
End parseToAst_facts.

(** ** One variable, several call sites *)

Lemma NoDup_fmap_eq {A B} (f : A → B) (l : list A) x y :
  NoDup (f <$> l) → x ∈ l → y ∈ l → f x = f y → x = y.
Proof.
  induction l as [|a l IH]; intros Hnd Hx Hy E.
  - by apply elem_of_nil in Hx.
  - rewrite fmap_cons in Hnd. apply NoDup_cons in Hnd as [Hfresh Hnd].
    apply elem_of_cons in Hx as [->|Hx]; apply elem_of_cons in Hy as [->|Hy].
    + done.
    + exfalso. apply Hfresh. rewrite E. by apply list_elem_of_fmap_2.
    + exfalso. apply Hfresh. rewrite <- E. by apply list_elem_of_fmap_2.
    + by apply IH.
Qed.

Lemma descendants_Other kids :
  descendants (Other kids) = flat_map (λ c, c :: descendants c) kids.
Proof. induction kids as [|c kids IH]; [done|]. simpl in *. by rewrite IH. Qed.

Section shared_variable.
Variable camelCase : string → string.
Variable getGraphQLTag : node → tagResult.
Variable file : string.

Local Abbreviation extractStaticQuery :=
  (FileParser.extractStaticQuery camelCase getGraphQLTag).
Local Abbreviation findVariable :=
  (FileParser.findVariable camelCase getGraphQLTag).
Local Abbreviation extracted := (Spec.extracted camelCase file).
Local Abbreviation afterExtract := (Spec.afterExtract camelCase file).

(** *** The scenario *)
Variable Q : string.
Variable start : N.
Variable tagName : string.
Variable raw : list string.
Variable ds : list parsedDefinition.
Variable text : string.
Variable h : N.
Variable g : bool.

Local Abbreviation template :=
  (TaggedTemplateExpression start (Identifier tagName) raw []).

Hypothesis Q_not_graphql : Q ≠ "graphql".
Hypothesis Q_not_useStaticQuery : Q ≠ "useStaticQuery".
Hypothesis template_tag : getGraphQLTag template = Tag ds text h g.

Local Abbreviation discover := (afterExtract start ds text h g).
Local Abbreviation siteNodes := (Spec.siteNodes Q).
Local Abbreviation consistent := (Spec.consistent start ds).

Lemma sharedQueryProgram_descendants sites :
  descendants (sharedQueryProgram Q template sites)
  = [Other [VariableDeclarator (Identifier Q) (Some template)];
     VariableDeclarator (Identifier Q) (Some template);
     Identifier Q; template; Identifier tagName]
    ++ siteNodes sites.
Proof. unfold sharedQueryProgram. by rewrite descendants_Other. Qed.

Lemma siteNodes_shape sites n :
  n ∈ siteNodes sites →
  n = callSiteNode Q StaticQueryElement
  ∨ n = JSXAttribute (Some "query") (Some (Other [Identifier Q]))
  ∨ n = Other [Identifier Q]
  ∨ n = Identifier Q
  ∨ n = callSiteNode Q UseStaticQueryCall
  ∨ n = Identifier "useStaticQuery".
Proof.
  unfold Spec.siteNodes. induction sites as [|c sites IH]; simpl.
  - by intros ?%elem_of_nil.
  - destruct c; simpl; intros Hn;
      repeat (apply elem_of_cons in Hn as [-> | Hn]; [by auto 10|]);
      by apply IH.
Qed.

Lemma findVariable_shared sites usage isHook s :
  findVariable (sharedQueryProgram Q template sites) file Q usage isHook s
  = (Normal (), discover isHook s).
Proof.
  unfold FileParser.findVariable, traverseWith.
  rewrite sharedQueryProgram_descendants.
  unfold bind at 1. rewrite visitAll_app.
  assert (Hfirst : visitAll
    (variableDeclaratorVisitor camelCase getGraphQLTag file Q isHook) false
    [Other [VariableDeclarator (Identifier Q) (Some template)];
     VariableDeclarator (Identifier Q) (Some template);
     Identifier Q; template; Identifier tagName] s
    = (Normal true, discover isHook s)).
  { simpl. unfold bind at 1. simpl. unfold bind at 1.
    rewrite decide_True by done. simpl.
    unfold traverseWith. simpl. unfold bind at 1. simpl.
    unfold bind at 1. unfold bind at 1.
    rewrite (extractStaticQuery_Tag camelCase getGraphQLTag file _ _ _ _ _ _ _
               template_tag). done. }
  rewrite Hfirst.
  rewrite visitAll_skip; [done|].
  intros n Hn a s'. apply siteNodes_shape in Hn.
  destruct Hn as [-> | [-> | [-> | [-> | [-> | ->] ] ] ] ]; done.
Qed.
Section passes.
Variable ast : node.
Hypothesis findVariable_ast : ∀ usage isHook s,
  findVariable ast file Q usage isHook s = (Normal (), discover isHook s).

Lemma staticQueryVisitor_element s :
  staticQueryVisitor camelCase getGraphQLTag ast file
    (callSiteNode Q StaticQueryElement) s
  = (Normal (), discover false s).
Proof.
  unfold staticQueryVisitor, callSiteNode.
  rewrite decide_True by done.
  unfold traverse, traverseWith. simpl descendants.
  simpl visitAll. unfold bind at 1.
  rewrite decide_True by done.
  unfold traverse, traverseWith. simpl descendants.
  simpl visitAll. unfold bind at 1. unfold bind at 1. unfold bind at 1.
  simpl. rewrite findVariable_ast. done.
Qed.

Lemma useStaticQueryVisitor_call s :
  useStaticQueryVisitor camelCase getGraphQLTag ast file
    (callSiteNode Q UseStaticQueryCall) s
  = (Normal (), discover true s).
Proof.
  unfold useStaticQueryVisitor, callSiteNode.
  rewrite bool_decide_eq_false_2 by (by intros ?). cbn [orb negb].
  unfold traverse, traverseWith. simpl descendants.
  cbn [visitAll]. unfold bind at 1. unfold bind at 1.
  rewrite (bool_decide_eq_false_2 ("useStaticQuery" ≠ "useStaticQuery"))
    by (by intros ?).
  rewrite (bool_decide_eq_true_2 (Q ≠ "graphql")) by done.
  rewrite (bool_decide_eq_true_2 (Q ≠ "useStaticQuery")) by done.
  rewrite andb_false_r. cbn [andb]. unfold ret at 1.
  rewrite findVariable_ast. done.
Qed.

(** The component-query pass over the call sites. *)
Lemma staticQuery_pass sites s :
  visitAll (λ _ n, staticQueryVisitor camelCase getGraphQLTag ast file n)
    () (siteNodes sites) s
  = (Normal (), foldl (λ s b, discover b s) s (elementDiscoveries sites)).
Proof.
  revert s. induction sites as [|c sites IH]; intros s; [done|].
  unfold Spec.siteNodes in *. destruct c.
  - change (flat_map _ (map _ (StaticQueryElement :: sites)))
      with (callSiteNode Q StaticQueryElement
            :: [JSXAttribute (Some "query") (Some (Other [Identifier Q]));
                Other [Identifier Q]; Identifier Q]
            ++ flat_map (λ c, c :: descendants c)
                 (map (callSiteNode Q) sites)).
    cbn [visitAll]. unfold bind at 1.
    rewrite staticQueryVisitor_element, visitAll_app. simpl. apply IH.
  - change (flat_map _ (map _ (UseStaticQueryCall :: sites)))
      with ([callSiteNode Q UseStaticQueryCall;
             Identifier "useStaticQuery"; Identifier Q]
            ++ flat_map (λ c, c :: descendants c)
                 (map (callSiteNode Q) sites)).
    rewrite visitAll_app. simpl. apply IH.
Qed.

(** The hook-query pass over the call sites. *)
Lemma useStaticQuery_pass sites s :
  visitAll
    (λ _ n, useStaticQueryVisitor camelCase getGraphQLTag ast file n)
    () (siteNodes sites) s
  = (Normal (), foldl (λ s b, discover b s) s (hookDiscoveries sites)).
Proof.
  revert s. induction sites as [|c sites IH]; intros s; [done|].
  unfold Spec.siteNodes in *. destruct c.
  - change (flat_map _ (map _ (StaticQueryElement :: sites)))
      with ([callSiteNode Q StaticQueryElement;
             JSXAttribute (Some "query") (Some (Other [Identifier Q]));
             Other [Identifier Q]; Identifier Q]
            ++ flat_map (λ c, c :: descendants c)
                 (map (callSiteNode Q) sites)).
    rewrite visitAll_app. simpl. apply IH.
  - change (flat_map _ (map _ (UseStaticQueryCall :: sites)))
      with (callSiteNode Q UseStaticQueryCall
            :: [Identifier "useStaticQuery"; Identifier Q]
            ++ flat_map (λ c, c :: descendants c)
                 (map (callSiteNode Q) sites)).
    cbn [visitAll]. unfold bind at 1.
    rewrite useStaticQueryVisitor_call, visitAll_app. simpl. apply IH.
Qed.

(** No call site is an export declaration. *)
Lemma pageQuery_pass sites s :
  visitAll (λ _ n, pageQueryVisitor camelCase getGraphQLTag file n)
    () (siteNodes sites) s
  = (Normal (), s).
Proof.
  apply visitAll_skip. intros n Hn [] s'. apply siteNodes_shape in Hn.
  destruct Hn as [-> | [-> | [-> | [-> | [-> | ->] ] ] ] ]; done.
Qed.
End passes.
Lemma passes_shared sites s :
  passes camelCase getGraphQLTag file (sharedQueryProgram Q template sites) s
  = (Normal (), foldl (λ s b, discover b s) s (discoveries sites)).
Proof.
  unfold passes, traverse, traverseWith.
  rewrite sharedQueryProgram_descendants.
  pose proof (findVariable_shared sites) as Hfv.
  unfold bind. rewrite !visitAll_app. simpl.
  unfold bind, ret. rewrite (staticQuery_pass _ Hfv).
  rewrite (useStaticQuery_pass _ Hfv).
  rewrite pageQuery_pass. unfold discoveries. by rewrite foldl_app.
Qed.
(** *** What the repeated discoveries leave in the state *)

Lemma allocate_oid next (l : list parsedDefinition) d :
  d ∈ allocate next l →
  (next ≤ oid d < next + N.of_nat (length l))%N.
Proof.
  revert next. induction l as [|p l IH]; intros next; simpl.
  - by intros ?%elem_of_nil.
  - intros [->|Hd]%elem_of_cons; simpl; [lia|].
    apply IH in Hd. lia.
Qed.

Lemma allocate_NoDup next (l : list parsedDefinition) :
  NoDup (oid <$> allocate next l).
Proof.
  revert next. induction l as [|p l IH]; intros next; cbn [allocate].
  - constructor.
  - rewrite fmap_cons. constructor; [|apply IH]. simpl.
    intros (d & Hd & Hin)%list_elem_of_fmap.
    apply allocate_oid in Hin. lia.
Qed.

Lemma allocate_loc_start next (l : list parsedDefinition) :
  loc_start <$> allocate next l = parsed_loc_start <$> l.
Proof.
  revert next. induction l as [|p l IH]; intros next; cbn [allocate];
    [done|].
  by rewrite !fmap_cons, IH.
Qed.

Lemma extracted_oid isHook next :
  oid <$> extracted isHook text h next ds = oid <$> allocate next ds.
Proof.
  unfold Spec.extracted. rewrite <- !list_fmap_compose. apply list_fmap_ext.
  intros _ d _. simpl.
  by destruct (generateQueryName_fields camelCase d h file) as (-> & _).
Qed.

Lemma extracted_loc_start isHook next :
  loc_start <$> extracted isHook text h next ds = parsed_loc_start <$> ds.
Proof.
  rewrite <- (allocate_loc_start next). unfold Spec.extracted.
  rewrite <- !list_fmap_compose. apply list_fmap_ext.
  intros _ d _. simpl.
  by destruct (generateQueryName_fields camelCase d h file) as (_ & -> & _).
Qed.

Lemma setLocations_other defs m o :
  (∀ d, d ∈ defs → oid d ≠ o) → setLocations start defs m !! o = m !! o.
Proof.
  unfold setLocations. revert m.
  induction defs as [|d defs IH]; intros m Hother; [done|].
  simpl. rewrite IH by (intros d' Hd'; apply Hother; by right).
  apply lookup_insert_ne, Hother. by left.
Qed.

Lemma setLocations_in defs m d :
  NoDup (oid <$> defs) → d ∈ defs →
  setLocations start defs m !! oid d
  = Some (locationKey start (loc_start d)).
Proof.
  unfold setLocations. revert m.
  induction defs as [|d' defs IH]; intros m Hnd Hd.
  - by apply elem_of_nil in Hd.
  - rewrite fmap_cons in Hnd. apply NoDup_cons in Hnd as [Hfresh Hnd].
    simpl. apply elem_of_cons in Hd as [->|Hd].
    + fold (setLocations start defs
              (<[oid d' := locationKey start (loc_start d')]> m)).
      rewrite setLocations_other; [apply lookup_insert_eq|].
      intros d Hd E. apply Hfresh. rewrite <- E.
      by apply list_elem_of_fmap_2.
    + by apply IH.
Qed.

Lemma consistent_discover isHook s :
  consistent s → consistent (discover isHook s).
Proof.
  intros Hs q. unfold Spec.afterExtract. simpl.
  intros [Hq|Hq]%elem_of_app.
  - destruct (Hs q Hq) as (Hlt & Hkey & Hstart).
    split; [lia|]. split; [|done].
    rewrite setLocations_other; [done|].
    intros d Hd%allocate_oid. lia.
  - assert (Hoid : oid q ∈ oid <$> allocate (nextObject s) ds).
    { rewrite <- (extracted_oid isHook). by apply list_elem_of_fmap_2. }
    apply list_elem_of_fmap in Hoid as (d & Hoid & Hd).
    assert (loc_start q = loc_start d) as Hloc.
    { unfold Spec.extracted in Hq.
      apply list_elem_of_fmap in Hq as (d1 & -> & Hd1).
      apply list_elem_of_fmap in Hd1 as (d0 & -> & Hd0). simpl in *.
      destruct (generateQueryName_fields camelCase d0 h file)
        as (Ho & Hl & _). simpl in Ho, Hl. rewrite Ho in Hoid.
      rewrite Hl. f_equal.
      pose proof (allocate_NoDup (nextObject s) ds) as Hnd.
      by eapply (NoDup_fmap_eq oid). }
    split; [apply allocate_oid in Hd; lia|]. split.
    + rewrite Hoid, Hloc. apply setLocations_in; [apply allocate_NoDup|done].
    + rewrite <- (extracted_loc_start isHook (nextObject s)).
      by apply list_elem_of_fmap_2.
Qed.

Lemma discover_foldl flags s :
  consistent s →
  consistent (foldl (λ s b, discover b s) s flags)
  ∧ ∃ added,
      queries (foldl (λ s b, discover b s) s flags) = queries s ++ added
      ∧ length added = length flags * length ds.
Proof.
  revert s. induction flags as [|b flags IH]; intros s Hs; simpl.
  - split; [done|]. exists []. by rewrite app_nil_r.
  - destruct (IH (discover b s) (consistent_discover b s Hs))
      as (Hc & added & Hq & Hlen).
    split; [done|]. simpl in Hq.
    exists (extracted b text h (nextObject s) ds ++ added).
    rewrite Hq, <- app_assoc. split; [done|].
    rewrite length_app, Hlen. unfold Spec.extracted.
    rewrite !length_map.
    assert (length (allocate (nextObject s) ds) = length ds) as ->; [|done].
    rewrite <- (length_fmap loc_start), allocate_loc_start.
    apply length_fmap.
Qed.

Lemma discoveries_length sites : length (discoveries sites) = length sites.
Proof.
  unfold discoveries, elementDiscoveries, hookDiscoveries.
  rewrite length_app. induction sites as [|[] sites IH]; simpl; lia.
Qed.
Lemma locationKey_inj a b :
  locationKey start a = locationKey start b → a = b.
Proof.
  unfold locationKey. intros E.
  apply String.app_inj in E. apply (String.app_inj "-") in E.
  by apply (inj pretty) in E.
Qed.

(** A block of definitions with pairwise distinct offsets, followed by
    rediscoveries of the same offsets, is deduplicated to the block. *)
Lemma uniqueQueries_block (locations : gmap N string) block added :
  (∀ q, q ∈ block ++ added →
     locations !! oid q = Some (locationKey start (loc_start q))) →
  NoDup (loc_start <$> block) →
  (∀ q, q ∈ added → loc_start q ∈ loc_start <$> block) →
  uniqueQueries locations (block ++ added) = block.
Proof.
  intros Hkey Hnd Hadded. unfold uniqueQueries, uniqBy.
  assert (Hkeys : (λ q, locations !! oid q) <$> block
                  = (λ a, Some (locationKey start a)) <$> (loc_start <$> block)).
  { rewrite <- list_fmap_compose. apply list_fmap_ext. intros i q Hq.
    apply Hkey, elem_of_app. left. by eapply list_elem_of_lookup_2. }
  assert (Hblock : baseUniq (λ q, locations !! oid q) [] block = block).
  { apply baseUniq_id; [|by intros ? _ ?%elem_of_nil].
    rewrite Hkeys. apply NoDup_fmap_2; [|done].
    intros a b [= E]. by apply locationKey_inj. }
  rewrite baseUniq_app, Hblock, baseUniq_seen; [by rewrite app_nil_r|].
  intros q Hq. rewrite app_nil_r, elem_of_reverse, Hkeys.
  rewrite Hkey by (apply elem_of_app; by right).
  by apply (list_elem_of_fmap_2 (λ a, Some (locationKey start a))), Hadded.
Qed.

(** X29: in a file made of the declaration of [Q] and of call sites
    that pass [Q] alone, however many call sites there are (elements or
    hook calls, at least one), the result holds each definition of the
    template exactly once, with the properties given by the first
    discovery in pass order.  The traversals did record the definitions
    once per call site, every record under the key made of the
    template's offset and the definition's own, and removing duplicates
    keeps the first record of each key.  The offsets of the template's
    definitions are pairwise distinct. *)
Theorem shared_program_first_discovery (sites : list callSite) :
  NoDup (parsed_loc_start <$> ds) →
  sites ≠ [] →
  let result :=
    locateTags camelCase getGraphQLTag file
      (sharedQueryProgram Q template sites) initialLocatorState in
  result.1 = Normal (extracted (hd false (discoveries sites)) text h 0 ds)
  ∧ length (extracted (hd false (discoveries sites)) text h 0 ds)
    = length ds
  ∧ length (queries result.2) = length sites * length ds
  ∧ ∀ q, q ∈ queries result.2 →
      documentLocations result.2 !! oid q
      = Some (locationKey start (loc_start q)).
Proof.
  intros Hnd Hsites result. unfold result.
  rewrite locateTags_passes, passes_shared.
  pose proof (discoveries_length sites) as Hlen.
  destruct (discoveries sites) as [|b flags] eqn:E.
  { destruct sites; [done|]. simpl in Hlen. lia. }
  simpl foldl. simpl hd.
  assert (Hfirst : consistent (discover b initialLocatorState)).
  { apply consistent_discover. by intros q ?%elem_of_nil. }
  destruct (discover_foldl flags _ Hfirst) as (Hc & added & Hq & Hadded).
  simpl in Hq. simpl.
  split; [|split; [|split]].
  - f_equal. rewrite Hq. apply uniqueQueries_block.
    + intros q Hin. rewrite <- Hq in Hin. by apply Hc in Hin as (_ & ? & _).
    + by rewrite extracted_loc_start.
    + intros q Hin. rewrite extracted_loc_start.
      apply (Hc q). rewrite Hq. apply elem_of_app. by right.
  - rewrite <- (length_fmap loc_start), extracted_loc_start.
    apply length_fmap.
  - rewrite Hq, length_app, Hadded.
    assert (length (extracted b text h 0 ds) = length ds) as ->.
    { rewrite <- (length_fmap loc_start), extracted_loc_start.
      apply length_fmap. }
    simpl in Hlen. lia.
  - intros q Hin. by apply Hc in Hin as (_ & ? & _).
Qed.
End shared_variable.

(** * Further properties of the traversals *)

(** ** A relation kept by the extractions is kept by the three passes *)
Section respects_facts.
Variable R : relation locatorState.
Hypothesis R_refl : ∀ s, R s s.
Hypothesis R_trans : ∀ s1 s2 s3, R s1 s2 → R s2 s3 → R s1 s3.

Lemma respects_ret {A} (a : A) : respects R (ret a).
Proof. intros s. apply R_refl. Qed.

Lemma respects_throw {A} e : respects R (throw (A := A) e).
Proof. intros s. apply R_refl. Qed.

Lemma respects_bind {A B} (m : M A) (f : A → M B) :
  respects R m → (∀ a, respects R (f a)) → respects R (bind m f).
Proof.
  intros Hm Hf s. unfold bind. specialize (Hm s).
  destruct (m s) as [[a|e] s1]; simpl in *; [|done].
  eapply R_trans; [done|apply Hf].
Qed.

Lemma respects_visitAll {S} (visitor : S → node → M S) nodes a :
  (∀ a n, respects R (visitor a n)) → respects R (visitAll visitor a nodes).
Proof.
  intros Hv. revert a. induction nodes as [|n nodes IH]; intros a; simpl.
  - apply respects_ret.
  - apply respects_bind; [apply Hv|]. intros a'. apply IH.
Qed.

Lemma respects_traverse root (visitor : node → M unit) :
  (∀ n, respects R (visitor n)) → respects R (traverse root visitor).
Proof. intros Hv. apply respects_visitAll. intros _ n. apply Hv. Qed.

Section visitors.
Variable camelCase : string → string.
Variable getGraphQLTag : node → tagResult.

Hypothesis R_warn : ∀ message s, R s (emitting s [ReportWarn message]).
Hypothesis R_static : ∀ file path isHook,
  respects R (extractStaticQuery camelCase getGraphQLTag file path isHook).
Hypothesis R_page : ∀ file path,
  respects R (extractPageQuery camelCase getGraphQLTag file path).

Lemma respects_findVariable ast file varName usage isHook :
  respects R (findVariable camelCase getGraphQLTag ast file varName usage
                isHook).
Proof.
  unfold findVariable. apply respects_bind.
  - apply respects_visitAll. intros found varPath.
    unfold variableDeclaratorVisitor.
    destruct varPath; try apply respects_ret.
    case_decide; [|apply respects_ret].
    destruct init as [e|]; [|apply respects_throw].
    destruct (isTaggedTemplateExpression e); [|apply respects_ret].
    apply respects_visitAll. intros f n.
    destruct n; try apply respects_ret.
    apply respects_bind; [apply R_static|]. intros _. apply respects_ret.
  - intros [|]; [apply respects_ret|]. intros s. apply R_warn.
Qed.

Lemma respects_staticQueryVisitor ast file path :
  respects R (staticQueryVisitor camelCase getGraphQLTag ast file path).
Proof.
  unfold staticQueryVisitor.
  destruct path; try apply respects_ret.
  case_decide; [|apply respects_ret].
  apply respects_traverse. intros jsxPath.
  destruct jsxPath; try apply respects_ret.
  case_decide; [|apply respects_ret].
  apply respects_traverse. intros p.
  destruct p; try apply respects_ret.
  - apply R_static.
  - case_decide; [apply respects_findVariable|apply respects_ret].
Qed.

Lemma respects_useStaticQueryVisitor ast file hookPath :
  respects R (useStaticQueryVisitor camelCase getGraphQLTag ast file hookPath).
Proof.
  unfold useStaticQueryVisitor.
  destruct hookPath; try apply respects_ret.
  destruct (_ || _); [apply respects_ret|].
  apply respects_traverse. intros p.
  destruct p; try apply respects_ret.
  - apply R_static.
  - destruct (_ && _); [apply respects_findVariable|apply respects_ret].
Qed.

Lemma respects_pageQueryVisitor file path :
  respects R (pageQueryVisitor camelCase getGraphQLTag file path).
Proof.
  unfold pageQueryVisitor.
  destruct path; try apply respects_ret.
  apply respects_traverse. intros p.
  destruct p; try apply respects_ret.
  apply R_page.
Qed.

Lemma respects_passes file ast :
  respects R (passes camelCase getGraphQLTag file ast).
Proof.
  unfold passes.
  apply respects_bind;
    [apply respects_traverse; intros n; apply respects_staticQueryVisitor|].
  intros _. apply respects_bind;
    [apply respects_traverse; intros n; apply respects_useStaticQueryVisitor|].
  intros _. apply respects_traverse. intros n.
  apply respects_pageQueryVisitor.
Qed.

End visitors.
End respects_facts.

(** ** One extraction, whatever [getGraphQLTag] answers *)
Section extraction_facts.
Variable camelCase : string → string.
Variable getGraphQLTag : node → tagResult.

Local Abbreviation extractStaticQuery :=
  (FileParser.extractStaticQuery camelCase getGraphQLTag).
Local Abbreviation extractPageQuery :=
  (FileParser.extractPageQuery camelCase getGraphQLTag).
Local Abbreviation passes := (FileParser.passes camelCase getGraphQLTag).
Local Abbreviation locateTags :=
  (FileParser.locateTags camelCase getGraphQLTag).

Lemma extractStaticQuery_run file path isHook s :
  extractStaticQuery file path isHook s
  = match getGraphQLTag path with
    | TagThrows error =>
        (Thrown error, emitting s [CallGetGraphQLTag (node_start path)])
    | NoTag => (Normal (), emitting s [CallGetGraphQLTag (node_start path)])
    | Tag ds text h g =>
        (Normal (),
         afterExtract camelCase file (node_start path) ds text h g isHook s)
    end.
Proof.
  destruct (getGraphQLTag path) as [e| |ds text h g] eqn:Htag.
  - unfold FileParser.extractStaticQuery, callGetGraphQLTag, bind. simpl.
    by rewrite Htag.
  - unfold FileParser.extractStaticQuery, callGetGraphQLTag, bind. simpl.
    by rewrite Htag.
  - by apply extractStaticQuery_Tag.
Qed.

Lemma extractPageQuery_run file path s :
  extractPageQuery file path s
  = match getGraphQLTag path with
    | TagThrows error =>
        (Thrown error, emitting s [CallGetGraphQLTag (node_start path)])
    | NoTag => (Normal (), emitting s [CallGetGraphQLTag (node_start path)])
    | Tag ds text h g =>
        (Normal (),
         afterPageExtract camelCase file (node_start path) ds h g s)
    end.
Proof.
  destruct (getGraphQLTag path) as [e| |ds text h g] eqn:Htag.
  - unfold FileParser.extractPageQuery, callGetGraphQLTag, bind. simpl.
    by rewrite Htag.
  - unfold FileParser.extractPageQuery, callGetGraphQLTag, bind. simpl.
    by rewrite Htag.
  - unfold FileParser.extractPageQuery, callGetGraphQLTag, locateAndName.
    unfold bind at 1. unfold bind at 1. simpl. rewrite Htag.
    unfold bind at 1. simpl. unfold bind at 1.
    destruct g; simpl; unfold bind; rewrite forEach_setLocation; simpl;
      unfold afterPageExtract, pageExtracted; simpl; f_equal; f_equal;
      by rewrite <- app_assoc.
Qed.

(** *** The state only grows *)

Lemma grows_refl s : grows s s.
Proof.
  split; [done|]. split; [lia|]. split; [done|].
  exists []. by rewrite app_nil_r.
Qed.

Lemma grows_trans s1 s2 s3 : grows s1 s2 → grows s2 s3 → grows s1 s3.
Proof.
  intros (Hq1 & Hn1 & Hl1 & e1 & He1 & Ht1) (Hq2 & Hn2 & Hl2 & e2 & He2 & Ht2).
  split; [|split; [|split]].
  - by etrans.
  - lia.
  - intros o Ho. rewrite Hl2 by lia. by apply Hl1.
  - exists (e1 ++ e2). rewrite He2, He1, app_assoc.
    split; [done|]. by apply Forall_app.
Qed.

Lemma grows_emitting s events :
  Forall traversalEvent events → grows s (emitting s events).
Proof.
  intros He. split; [done|]. split; [simpl; lia|]. split; [done|].
  by exists events.
Qed.

Lemma grows_block s block start ds events :
  Forall traversalEvent events →
  grows s {| queries := queries s ++ block;
             documentLocations :=
               setLocations start (allocate (nextObject s) ds)
                 (documentLocations s);
             nextObject := (nextObject s + N.of_nat (length ds))%N;
             emitted := emitted s ++ events |}.
Proof.
  intros He. split; [|split; [|split]]; simpl.
  - by apply prefix_app_r.
  - lia.
  - intros o Ho. apply setLocations_other.
    intros d Hd%allocate_oid. lia.
  - by exists events.
Qed.

Lemma grows_extractStaticQuery file path isHook :
  respects grows (extractStaticQuery file path isHook).
Proof.
  intros s. rewrite extractStaticQuery_run.
  destruct (getGraphQLTag path) as [e| |ds text h g]; simpl.
  - apply grows_emitting. by repeat constructor.
  - apply grows_emitting. by repeat constructor.
  - apply grows_block. destruct g; by repeat constructor.
Qed.

Lemma grows_extractPageQuery file path :
  respects grows (extractPageQuery file path).
Proof.
  intros s. rewrite extractPageQuery_run.
  destruct (getGraphQLTag path) as [e| |ds text h g]; simpl.
  - apply grows_emitting. by repeat constructor.
  - apply grows_emitting. by repeat constructor.
  - apply grows_block. destruct g; by repeat constructor.
Qed.

(** X1: whatever the syntax tree and whether or not a traversal throws,
    the three passes only append to [queries], only add objects, leave
    the location of every object that existed before as it was, and emit
    nothing but warnings and calls of [getGraphQLTag]: no error is
    reported and no notification is fired from inside the traversals. *)
Theorem passes_grow (file : string) (ast : node) (s : locatorState) :
  grows s (passes file ast s).2.
Proof.
  apply (respects_passes grows grows_refl grows_trans).
  - intros message s'. apply grows_emitting. by repeat constructor.
  - apply grows_extractStaticQuery.
  - apply grows_extractPageQuery.
Qed.

(** *** Every recorded definition has a location *)

Lemma registered_block (f : definition → definition) start ds events s :
  (∀ d, oid (f d) = oid d ∧ loc_start (f d) = loc_start d) →
  registered s →
  registered {| queries := queries s ++ (f <$> allocate (nextObject s) ds);
                documentLocations :=
                  setLocations start (allocate (nextObject s) ds)
                    (documentLocations s);
                nextObject := (nextObject s + N.of_nat (length ds))%N;
                emitted := events |}.
Proof.
  intros Hf [Hnd Hs].
  assert (Hoids : oid <$> (f <$> allocate (nextObject s) ds)
                  = oid <$> allocate (nextObject s) ds).
  { rewrite <- list_fmap_compose. apply list_fmap_ext.
    intros _ d _. simpl. apply Hf. }
  split; simpl.
  - rewrite fmap_app, Hoids. apply NoDup_app. split; [done|].
    split; [|apply allocate_NoDup].
    intros o (q & -> & Hq)%list_elem_of_fmap (d & E & Hd)%list_elem_of_fmap.
    apply Hs in Hq as [Hlt _]. apply allocate_oid in Hd. lia.
  - intros q [Hq|Hq]%elem_of_app.
    + destruct (Hs q Hq) as (Hlt & t & Hkey).
      split; [lia|]. exists t.
      rewrite setLocations_other; [done|].
      intros d Hd%allocate_oid. lia.
    + apply list_elem_of_fmap in Hq as (d & -> & Hd).
      destruct (Hf d) as [-> ->].
      split; [apply allocate_oid in Hd; lia|].
      exists start. apply setLocations_in; [apply allocate_NoDup|done].
Qed.

Lemma keeps_registered_static file path isHook :
  respects (keeps registered) (extractStaticQuery file path isHook).
Proof.
  intros s Hs. rewrite extractStaticQuery_run.
  destruct (getGraphQLTag path) as [e| |ds text h g]; simpl; [done|done|].
  unfold afterExtract, extracted.
  change (map (markStaticQuery isHook text h)
            (map (λ def, generateQueryName camelCase def h file)
               (allocate (nextObject s) ds)))
    with ((markStaticQuery isHook text h)
            <$> ((λ def, generateQueryName camelCase def h file)
                   <$> allocate (nextObject s) ds)).
  rewrite <- list_fmap_compose.
  apply registered_block; [|done].
  intros d. simpl.
  by destruct (generateQueryName_fields camelCase d h file) as (-> & -> & _).
Qed.

Lemma keeps_registered_page file path :
  respects (keeps registered) (extractPageQuery file path).
Proof.
  intros s Hs. rewrite extractPageQuery_run.
  destruct (getGraphQLTag path) as [e| |ds text h g]; simpl; [done|done|].
  unfold afterPageExtract, pageExtracted.
  apply (registered_block (λ def, generateQueryName camelCase def h file));
    [|done].
  intros d.
  by destruct (generateQueryName_fields camelCase d h file) as (-> & -> & _).
Qed.

Lemma passes_keep_registered file ast :
  respects (keeps registered) (passes file ast).
Proof.
  apply (respects_passes (keeps registered)).
  - by intros s Hs.
  - intros s1 s2 s3 H12 H23 Hs. auto.
  - by intros message s Hs.
  - apply keeps_registered_static.
  - apply keeps_registered_page.
Qed.

(** X2: whatever the syntax tree, what the traversals recorded are
    pairwise distinct objects, each with a location on record (template
    offset, hyphen, own offset): [documentLocations.get] is never
    undefined for a recorded definition.  When the traversals return, the
    result holds one definition for each recorded location and no two
    with the same one. *)
Theorem locateTags_registered (file : string) (ast : node) :
  let result := locateTags file ast initialLocatorState in
  let key := λ q : definition, documentLocations result.2 !! oid q in
  registered result.2
  ∧ ∀ defs, result.1 = Normal defs →
      NoDup (key <$> defs)
      ∧ (∀ q, q ∈ queries result.2 → ∃ q', q' ∈ defs ∧ key q' = key q)
      ∧ ∀ q, q ∈ defs →
          ∃ templateStart,
            key q = Some (locationKey templateStart (loc_start q)).
Proof.
  intros result key.
  assert (Hreg : registered (passes file ast initialLocatorState).2).
  { apply passes_keep_registered. split; [constructor|].
    by intros q ?%elem_of_nil. }
  unfold key, result. rewrite locateTags_passes.
  destruct (passes file ast initialLocatorState) as [[[]|e] s']; simpl in *;
    [|by split].
  split; [done|]. intros defs [= <-].
  unfold uniqueQueries, uniqBy.
  split; [apply baseUniq_NoDup|]. split.
  - intros q Hq.
    apply (baseUniq_covers (λ q, documentLocations s' !! oid q));
      [done|]. by intros ?%elem_of_nil.
  - intros q Hq. apply Hreg. eapply elem_of_sublist; [done|].
    apply baseUniq_sublist.
Qed.

End extraction_facts.

(** ** Location keys tell locations apart *)

Lemma append_String c (a x : string) : String c a +:+ x = String c (a +:+ x).
Proof. reflexivity. Qed.

Lemma append_Empty (x : string) : EmptyString +:+ x = x.
Proof. reflexivity. Qed.

Lemma pretty_N_char_noDash (x : N) s :
  noDash (String (pretty_N_char x) s) = noDash s.
Proof.
  unfold pretty_N_char. repeat case_match; reflexivity.
Qed.

Lemma pretty_N_go_noDash (x : N) (s : string) :
  noDash s = true → noDash (pretty_N_go x s) = true.
Proof.
  revert s. induction (N.lt_wf_0 x) as [x _ IH]; intros s Hs.
  destruct (decide (x = 0%N)) as [->|Hx].
  - by rewrite pretty_N_go_0.
  - rewrite pretty_N_go_step by lia. apply IH; [apply N.div_lt; lia|].
    by rewrite pretty_N_char_noDash.
Qed.

Lemma pretty_N_noDash (x : N) : noDash (pretty x) = true.
Proof.
  unfold pretty, pretty_N. destruct (decide (x = 0%N)); [done|].
  by apply pretty_N_go_noDash.
Qed.

(** Two strings without hyphen, each followed by a hyphen: equal wholes
    have equal parts. *)
Lemma noDash_split (a a' r r' : string) :
  noDash a = true → noDash a' = true →
  a +:+ "-" +:+ r = a' +:+ "-" +:+ r' → a = a' ∧ r = r'.
Proof.
  revert a'. induction a as [|c a IH]; intros [|c' a'] Ha Ha' E.
  - rewrite !append_Empty in E. by injection E.
  - rewrite append_Empty, !append_String, append_Empty in E.
    injection E as <- _. done.
  - rewrite append_Empty, !append_String, append_Empty in E.
    injection E as -> _. done.
  - rewrite !append_String in E. injection E as -> E.
    simpl in Ha, Ha'. apply andb_true_iff in Ha as [_ Ha].
    apply andb_true_iff in Ha' as [_ Ha'].
    destruct (IH a' Ha Ha' E) as [-> ->]. done.
Qed.

Lemma locationKey_inj_pair (t d t' d' : N) :
  locationKey t d = locationKey t' d' → t = t' ∧ d = d'.
Proof.
  unfold locationKey. intros E.
  apply noDash_split in E as [Et Ed]; [|apply pretty_N_noDash..].
  split; by apply (inj pretty).
Qed.

Lemma NoDup_fmap_reflect {A B C} (f : A → B) (g : A → C) (l : list A) :
  (∀ x y, x ∈ l → y ∈ l → f x = f y → g x = g y) →
  NoDup (g <$> l) → NoDup (f <$> l).
Proof.
  induction l as [|x l IH]; intros Hfg; [constructor|].
  rewrite !fmap_cons. intros [Hx Hl]%NoDup_cons. constructor.
  - intros (y & E & Hy)%list_elem_of_fmap. apply Hx.
    rewrite (Hfg x y); [by apply list_elem_of_fmap_2|by left|by right|done].
  - apply IH; [|done]. intros y z Hy Hz. apply Hfg; by right.
Qed.

(** X3: definitions recorded at pairwise different locations (template
    offset, own offset) all survive the removal of duplicates, in their
    order: the key built from the two offsets never makes two locations
    collide, so two call sites with the same query text but different
    templates stay two definitions. *)
Theorem uniqueQueries_keeps_distinct_locations
    (locations : gmap N string) (queries : list definition)
    (templateStart : definition → N) :
  (∀ q, q ∈ queries →
     locations !! oid q
     = Some (locationKey (templateStart q) (loc_start q))) →
  NoDup ((λ q, (templateStart q, loc_start q)) <$> queries) →
  uniqueQueries locations queries = queries.
Proof.
  intros Hkey Hnd. unfold uniqueQueries, uniqBy.
  apply baseUniq_id; [|by intros ? _ ?%elem_of_nil].
  eapply NoDup_fmap_reflect; [|done].
  intros x y Hx Hy. rewrite (Hkey x Hx), (Hkey y Hy). intros [= E].
  by apply locationKey_inj_pair in E as [-> ->].
Qed.

(** ** The cache across calls *)
Section cache_facts.
Variable camelCase : string → string.
Variable md5 : string → string.
Variable preprocessSource : string → string → list string.
Variable babelParseToAst : string → string → string + node.
Variable getGraphQLTag : node → tagResult.

Local Abbreviation parseToAst :=
  (FileParser.parseToAst preprocessSource babelParseToAst).
Local Abbreviation findGraphQLTags :=
  (FileParser.findGraphQLTags camelCase preprocessSource babelParseToAst
     getGraphQLTag).
Local Abbreviation parseFile :=
  (FileParser.parseFile camelCase md5 preprocessSource babelParseToAst
     getGraphQLTag).

(** X4: a file that contains the substring but does not parse (every
    preprocessed candidate fails, or Babel fails on the text when no
    plugin preprocessed it) gives null and leaves an empty array in the
    cache under its key; the errors are reported once, during that call.
    Parsing the unchanged file again returns null without any report,
    notification or call of a parser.  Without preprocessed candidates
    the first call fires the Babel error notification with the error and
    then reports the problem. *)
Theorem unparsable_file_cached (file text : string) (w : world)
    (s : locatorState) :
  fs w file = Some text →
  indexOf text "graphql" ≠ (-1)%Z →
  cache w !! md5 (file +:+ text) = None →
  parseToAst file text initialLocatorState = (Normal None, s) →
  let w1 := stored (md5 (file +:+ text)) [] (emitted s) w in
  parseFile file w = (None, w1)
  ∧ parseFile file w1 = (None, w1)
  ∧ (preprocessSource file text = [] →
     ∃ error, babelParseToAst text file = inl error
       ∧ emitted s = [CallPreprocessSource file text;
                      CallBabelParseToAst text file;
                      QueryExtractionBabelError file error;
                      ReportError (problemParsing file)]).
Proof.
  intros Hfs Hidx Hmiss Hast w1. split; [|split].
  - rewrite (parseFile_miss _ _ _ _ _ _ _ _ Hfs Hidx Hmiss).
    unfold FileParser.findGraphQLTags, bind. by rewrite Hast.
  - apply (parseFile_hit _ _ _ _ _ file text w1 []); [done|done|].
    apply lookup_insert_eq.
  - intros Hpre. revert Hast.
    unfold FileParser.parseToAst, parseTranspiled. rewrite Hpre.
    unfold bind. simpl.
    destruct (babelParseToAst text file) as [error|ast]; simpl; [|done].
    intros [= <-]. by exists error.
Qed.

Lemma later_refl w : later w w.
Proof. by split; [|split]. Qed.

Lemma later_trans w1 w2 w3 : later w1 w2 → later w2 w3 → later w1 w3.
Proof.
  intros (Hf1 & Hc1 & Hl1) (Hf2 & Hc2 & Hl2).
  split; [congruence|]. split; by etrans.
Qed.

Lemma later_logged w events : later w (logged w events).
Proof. split; [done|]. split; [done|]. by apply prefix_app_r. Qed.

Lemma later_finish file defs w : later w (finish file defs w).2.
Proof. destruct defs; [apply later_refl|apply later_logged]. Qed.

Lemma parseFile_later file w :
  later w (parseFile file w).2
  ∧ ∀ key defs, cache (parseFile file w).2 !! key = Some defs →
      cache w !! key = Some defs
      ∨ ∃ text, fs w file = Some text ∧ key = md5 (file +:+ text).
Proof.
  destruct (fs w file) as [text|] eqn:Hfs.
  2:{ unfold FileParser.parseFile. rewrite Hfs.
      split; [apply later_logged|]. intros key defs H. by left. }
  destruct (decide (indexOf text "graphql" = (-1)%Z)) as [Hidx|Hidx].
  { unfold FileParser.parseFile. rewrite Hfs, decide_True by done.
    split; [apply later_refl|]. intros key defs H. by left. }
  destruct (cache w !! md5 (file +:+ text)) as [defs|] eqn:Hkey.
  { rewrite (parseFile_hit _ _ _ _ _ _ _ _ _ Hfs Hidx Hkey).
    split; [apply later_finish|].
    intros key defs' H. left. by destruct defs. }
  rewrite (parseFile_miss _ _ _ _ _ _ _ _ Hfs Hidx Hkey).
  destruct (findGraphQLTags file text initialLocatorState) as [[defs|e] s].
  - split.
    + eapply later_trans; [|apply later_finish].
      split; [done|]. split; [by apply insert_subseteq|].
      by apply prefix_app_r.
    + intros key defs' H.
      assert (H' : <[md5 (file +:+ text) := defs]> (cache w) !! key
                   = Some defs') by (by destruct defs).
      apply lookup_insert_Some in H' as [[<- _]|[_ H'] ]; [|by left].
      right. by exists text.
  - simpl. split; [|intros key defs H; by left].
    eapply later_trans; apply later_logged.
Qed.

(** C3, as the code has it.  A document that the first call returns is
    stored under the key of the path and the content (an entry is left
    behind even for an empty result, unless the extraction threw).  With
    the entry still in the cache, a later call for the same path and
    content returns the same result, leaves cache and file system alone
    and logs nothing but the success notification: no preprocessor,
    parser or traversal runs.  When the content differs the key differs,
    provided [md5] does not collide on the two inputs; and when the new
    content was not in the cache before the first call and the second
    call follows the first, the lookup misses, the preprocessors, the
    parser and the traversals run again and the result is that of a
    first extraction of the new content. *)
Theorem parseFile_cached (file text : string) (w w' : world) :
  fs w file = Some text →
  let first := parseFile file w in
  let key := md5 (file +:+ text) in
  (∀ doc, first.1 = Some doc →
     indexOf text "graphql" ≠ (-1)%Z
     ∧ cache first.2 !! key = Some (definitions doc))
  ∧ (indexOf text "graphql" ≠ (-1)%Z →
     is_Some (cache first.2 !! key) →
     cache first.2 ⊆ cache w' →
     fs w' file = Some text →
     let second := parseFile file w' in
     second.1 = first.1
     ∧ cache second.2 = cache w' ∧ fs second.2 = fs w'
     ∧ log second.2
       = log w' ++ match first.1 with
                   | Some _ => [QueryExtractedBabelSuccess file]
                   | None => []
                   end)
  ∧ (∀ text', text' ≠ text →
       (md5 (file +:+ text') = md5 (file +:+ text) →
        file +:+ text' = file +:+ text) →
       md5 (file +:+ text') ≠ key
       ∧ (cache w !! md5 (file +:+ text') = None →
          cache w' = cache first.2 →
          fs w' file = Some text' →
          indexOf text' "graphql" ≠ (-1)%Z →
          let second := parseFile file w' in
          cache w' !! md5 (file +:+ text') = None
          ∧ (∃ events,
               log second.2
               = log w' ++ CallPreprocessSource file text' :: events)
          ∧ second.1
            = (parseFile file {| fs := fs w'; cache := ∅; log := [] |}).1)).
Proof.
  intros Hread first key. split; [|split].
  - intros doc Hdoc. by apply (parseFile_document_cached camelCase md5 preprocessSource
                  babelParseToAst getGraphQLTag).
  - intros Hidx Hstored Hsub Hread' second.
    destruct (parseFile_stores _ _ _ _ _ _ _ _ Hread Hidx Hstored)
      as (defs & Hkey & H1).
    fold first in Hkey, H1. unfold second.
    rewrite (parseFile_hit _ _ _ _ _ file text w' defs Hread' Hidx)
      by (by eapply lookup_weaken).
    rewrite H1. unfold finish. destruct defs; simpl; [|done].
    by rewrite app_nil_r.
  - intros text' Hne Hcollide.
    assert (Hkeys : md5 (file +:+ text') ≠ key).
    { intros E. apply Hcollide in E. by apply String.app_inj in E. }
    split; [done|].
    intros Hnew Hcache Hread' Hidx' second.
    assert (Hmiss : cache w' !! md5 (file +:+ text') = None).
    { rewrite Hcache.
      destruct (cache first.2 !! md5 (file +:+ text')) as [defs|] eqn:E;
        [|done].
      apply (parseFile_later file w) in E
        as [E|(text0 & Hread0 & E)]; [congruence|].
      rewrite Hread in Hread0. injection Hread0 as <-. done. }
    split; [done|]. unfold second.
    rewrite (parseFile_miss _ _ _ _ _ _ _ _ Hread' Hidx' Hmiss).
    rewrite (parseFile_miss _ _ _ _ _ file text'
               {| fs := fs w'; cache := ∅; log := [] |} Hread' Hidx')
      by apply lookup_empty.
    destruct (findGraphQLTags_emitted camelCase preprocessSource
                babelParseToAst getGraphQLTag file text' initialLocatorState)
      as (events & _ & He).
    destruct (findGraphQLTags file text' initialLocatorState) as [[ds|e] s];
      simpl in He; rewrite He.
    + split.
      * exists (events ++ match ds with
                          | [] => []
                          | _ :: _ => [QueryExtractedBabelSuccess file]
                          end).
        unfold finish. destruct ds; simpl; [by rewrite app_nil_r|].
        by rewrite <- app_assoc.
      * unfold finish. by destruct ds.
    + split; [|done]. eexists. simpl. by rewrite <- app_assoc.
Qed.

(** X6: the cache key is the digest of the path followed by the text.
    When a second path and text concatenate to the same string as a file
    already in the cache, the second file is answered from the cache of
    the first: the same definitions (named after the first path when the
    name was generated), no parser called, and only the success
    notification, for the second path, when the definitions are not
    empty. *)
Theorem parseFile_shared_key (file text file' text' : string)
    (w w' : world) :
  file +:+ text = file' +:+ text' →
  fs w file = Some text →
  indexOf text "graphql" ≠ (-1)%Z →
  let first := parseFile file w in
  is_Some (cache first.2 !! md5 (file +:+ text)) →
  cache first.2 ⊆ cache w' →
  fs w' file' = Some text' →
  indexOf text' "graphql" ≠ (-1)%Z →
  let second := parseFile file' w' in
  second.1 = first.1
  ∧ cache second.2 = cache w' ∧ fs second.2 = fs w'
  ∧ log second.2
    = log w' ++ match first.1 with
                | Some _ => [QueryExtractedBabelSuccess file']
                | None => []
                end.
Proof.
  intros Hcat Hfs Hidx first Hstored Hsub Hfs' Hidx' second.
  destruct (parseFile_stores _ _ _ _ _ _ _ _ Hfs Hidx Hstored)
    as (defs & Hdefs & Hfirst).
  fold first in Hdefs, Hfirst.
  assert (Hhit : cache w' !! md5 (file' +:+ text') = Some defs).
  { rewrite <- Hcat. by eapply lookup_weaken. }
  unfold second. rewrite (parseFile_hit _ _ _ _ _ _ _ _ _ Hfs' Hidx' Hhit).
  rewrite Hfirst. destruct defs; simpl; by rewrite ?app_nil_r.
Qed.

End cache_facts.

(** ** The calls of a batch, in any order *)
Section batch_facts.
Variable camelCase : string → string.
Variable md5 : string → string.
Variable preprocessSource : string → string → list string.
Variable babelParseToAst : string → string → string + node.
Variable getGraphQLTag : node → tagResult.

Local Abbreviation parseToAst :=
  (FileParser.parseToAst preprocessSource babelParseToAst).
Local Abbreviation findGraphQLTags :=
  (FileParser.findGraphQLTags camelCase preprocessSource babelParseToAst
     getGraphQLTag).
Local Abbreviation parseFile :=
  (FileParser.parseFile camelCase md5 preprocessSource babelParseToAst
     getGraphQLTag).
Local Abbreviation resume :=
  (FileParser.resume camelCase md5 preprocessSource babelParseToAst getGraphQLTag).
Local Abbreviation advance :=
  (FileParser.advance camelCase md5 preprocessSource babelParseToAst
     getGraphQLTag).
Local Abbreviation settled :=
  (FileParser.settled camelCase md5 preprocessSource babelParseToAst
     getGraphQLTag).
Local Abbreviation parseFiles :=
  (FileParser.parseFiles camelCase md5 preprocessSource babelParseToAst
     getGraphQLTag).
Local Abbreviation during :=
  (Spec.during camelCase md5 preprocessSource babelParseToAst
     getGraphQLTag).
Local Abbreviation pending := (Spec.pending md5).
Local Abbreviation callSound :=
  (Spec.callSound camelCase md5 preprocessSource babelParseToAst
     getGraphQLTag).
Local Abbreviation sound :=
  (Spec.sound camelCase md5 preprocessSource babelParseToAst
     getGraphQLTag).
Local Abbreviation aloneUnderKey := (Spec.aloneUnderKey md5).

Lemma during_refl files w : during files w w.
Proof. split; [apply later_refl|]. intros key defs H. by left. Qed.

Lemma during_logged files w w' events :
  during files w w' → during files w (logged w' events).
Proof.
  intros [Hl Hc]. split; [|done].
  eapply later_trans; [done|apply later_logged].
Qed.

Lemma during_resolved files w w' file defs :
  during files w w' → during files w (FileParser.resolved file defs w').2.
Proof.
  intros H. unfold FileParser.resolved. simpl.
  case_decide; [by apply during_logged|done].
Qed.

Lemma during_stored files w w' file text defs :
  during files w w' → file ∈ files →
  pending files w file text (md5 (file +:+ text)) →
  (findGraphQLTags file text initialLocatorState).1 = Normal defs →
  during files w
    {| fs := fs w'; cache := <[md5 (file +:+ text) := defs]> (cache w');
       log := log w' |}.
Proof.
  intros [(Hfs & Hsub & Hlog) Hc] Hin (Hread & Hidx & _ & Hmiss) Hdefs.
  split; [split; [done|split; [|done] ]|]; simpl.
  - by apply insert_subseteq_r.
  - intros key defs' [[<- <-]|[Hne H] ]%lookup_insert_Some; [|by apply Hc].
    right. split; [done|]. by exists file, text.
Qed.

Lemma elem_of_insert_other {A} (l : list A) i c c' x :
  l !! i = Some c → x ≠ c → x ≠ c' → x ∈ <[i:=c']> l ↔ x ∈ l.
Proof.
  intros Hi Hc Hc'. split.
  - intros [j Hj]%list_elem_of_lookup_1.
    destruct (decide (i = j)) as [->|Hne].
    + rewrite list_lookup_insert_eq in Hj by (by eapply lookup_lt_Some).
      congruence.
    + rewrite list_lookup_insert_ne in Hj by done.
      by eapply list_elem_of_lookup_2.
  - intros [j Hj]%list_elem_of_lookup_1.
    destruct (decide (i = j)) as [->|Hne]; [congruence|].
    apply (list_elem_of_lookup_2 _ j). by rewrite list_lookup_insert_ne.
Qed.

Lemma callFile_insert (l : list call) i c c' :
  l !! i = Some c → callFile c' = callFile c →
  callFile <$> <[i:=c']> l = callFile <$> l.
Proof.
  intros Hi Hf. rewrite list_fmap_insert, Hf. apply list_insert_id.
  by rewrite list_lookup_fmap, Hi.
Qed.

(** A turn that does not end the call. *)
Lemma sound_turn files w b i c c' w' :
  sound files w b → calls b !! i = Some c →
  (∀ f d, c ≠ Settled f d) → (∀ f d, c' ≠ Settled f d) →
  callFile c' = callFile c → during files w w' → callSound files w c' →
  sound files w {| process := w'; calls := <[i:=c']> (calls b);
                   documents := documents b |}.
Proof.
  intros (Hd & Hf & Hc & Hdoc & Hset) Hi Hnot Hnot' Hfile Hd' Hc'.
  split; [done|]. simpl. split; [by rewrite (callFile_insert _ _ c)|].
  split; [by apply Forall_insert|]. split.
  - intros file doc H. apply (elem_of_insert_other _ _ c); auto.
  - intros file doc H. apply (elem_of_insert_other _ _ c) in H; eauto.
Qed.

Lemma sound_file files w b i c :
  sound files w b → calls b !! i = Some c → callFile c ∈ files.
Proof.
  intros (_ & <- & _) Hi. apply list_elem_of_fmap_2.
  by eapply list_elem_of_lookup_2.
Qed.

Lemma resolved_parseFile file text defs w w' :
  fs w' file = Some text → indexOf text "graphql" ≠ (-1)%Z →
  (cache w' !! md5 (file +:+ text) = Some defs
   ∨ (cache w' !! md5 (file +:+ text) = None
      ∧ (findGraphQLTags file text initialLocatorState).1 = Normal defs)) →
  (FileParser.resolved file defs w).1 = AwaitParseFile file (parseFile file w').1.
Proof.
  intros Hread Hidx [Hhit|[Hmiss Hdefs] ].
  - rewrite (parseFile_hit _ _ _ _ _ _ _ _ _ Hread Hidx Hhit).
    unfold FileParser.resolved, finish. by destruct defs.
  - rewrite (parseFile_miss _ _ _ _ _ _ _ _ Hread Hidx Hmiss).
    destruct (findGraphQLTags file text initialLocatorState) as [[ds|e] s];
      simpl in Hdefs; [|done]. injection Hdefs as ->.
    unfold FileParser.resolved, finish. by destruct defs.
Qed.

(** Every turn keeps the batch sound. *)
Lemma advance_sound files w b i : sound files w b → sound files w (advance b i).
Proof.
  intros Hb. unfold FileParser.advance.
  destruct (calls b !! i) as [c|] eqn:Hi; [|done].
  pose proof (sound_file _ _ _ _ _ Hb Hi) as Hin.
  pose proof Hb as (Hd & Hf & Hc & Hdoc & Hset).
  pose proof Hd as [(Hfs & Hsub & Hlog) Hcache].
  pose proof (proj1 (Forall_lookup _ _) Hc i c Hi) as Hsound.
  destruct c as [file|file text hash s|file hash ast s|file hash result
                |file doc|file doc]; simpl in Hin, Hsound; simpl resume.
  - (* the file was read *)
    destruct (fs (process b) file) as [text|] eqn:Hread.
    2:{ eapply sound_turn; try done.
        - by apply during_logged.
        - exists (process b). split; [done|].
          unfold FileParser.parseFile. by rewrite Hread. }
    case_decide as Hidx.
    { eapply sound_turn; try done.
      exists (process b). split; [done|].
      unfold FileParser.parseFile. by rewrite Hread, decide_True. }
    destruct (cache (process b) !! md5 (file +:+ text)) as [defs|] eqn:Hkey.
    + destruct (FileParser.resolved file defs (process b)) as [c' w'] eqn:E.
      assert (Hc' : c' = AwaitParseFile file (parseFile file (process b)).1).
      { change c' with (c', w').1. rewrite <- E.
        apply (resolved_parseFile _ text); auto. }
      subst c'. eapply sound_turn; try done.
      * change w' with (AwaitParseFile file (parseFile file (process b)).1,
                        w').2.
        rewrite <- E. by apply during_resolved.
      * by exists (process b).
    + eapply sound_turn; try done.
      * by apply during_logged.
      * split; [|done]. rewrite Hfs in Hread.
        split; [done|]. split; [done|]. split; [done|].
        destruct (cache w !! md5 (file +:+ text)) eqn:E; [|done].
        eapply lookup_weaken in E; [|done]. congruence.
  - (* the preprocessors answered *)
    destruct Hsound as [Hp ->].
    destruct (parseTranspiled babelParseToAst file text
                (preprocessSource file text)
                (emitting initialLocatorState
                   [CallPreprocessSource file text])) as [ast s'] eqn:E.
    eapply sound_turn; try done.
    + by apply during_logged.
    + exists text. split; [done|].
      unfold FileParser.parseToAst, bind. simpl. done.
  - (* the [then] callback of [findGraphQLTags] *)
    destruct Hsound as (text & Hp & Hast).
    set (r := match ast with
              | Normal None => (Normal [], s)
              | Normal (Some ast) =>
                  locateTags camelCase getGraphQLTag file ast s
              | Thrown error => (Thrown error, s)
              end).
    assert (Hr : findGraphQLTags file text initialLocatorState = r).
    { unfold FileParser.findGraphQLTags, bind. rewrite Hast. unfold r.
      by destruct ast as [ [ast|]|e]. }
    destruct r as [result s'] eqn:E.
    eapply sound_turn; try done.
    + by apply during_logged.
    + exists text. split; [done|]. by rewrite Hr.
  - (* [parseFile] goes on after [await findGraphQLTags] *)
    destruct Hsound as (text & Hp & Hresult).
    pose proof Hp as (Hread & Hidx & -> & Hmiss).
    destruct result as [defs|err].
    + destruct (FileParser.resolved file defs _) as [c' w'] eqn:E.
      assert (Hc' : c' = AwaitParseFile file (parseFile file w).1).
      { change c' with (c', w').1. rewrite <- E.
        apply (resolved_parseFile _ text); auto. }
      subst c'. eapply sound_turn; try done.
      * change w' with (AwaitParseFile file (parseFile file w).1, w').2.
        rewrite <- E. apply during_resolved. by apply during_stored.
      * exists w. split; [apply during_refl|done].
    + eapply sound_turn; try done.
      * by apply during_logged.
      * exists w. split; [apply during_refl|].
        rewrite (parseFile_miss _ _ _ _ _ _ _ _ Hread Hidx Hmiss).
        destruct (findGraphQLTags file text initialLocatorState)
          as [[ds|e] s]; simpl in Hresult; done.
  - (* the [then] callback of [parseFiles] *)
    split; [done|]. simpl. split; [by rewrite (callFile_insert _ _ _ _ Hi)|].
    split; [by apply Forall_insert|].
    assert (Hlt : i < length (calls b)) by (by eapply lookup_lt_Some).
    assert (Hnew : Settled file doc ∈ <[i:=Settled file doc]> (calls b)).
    { apply (list_elem_of_lookup_2 _ i). by apply list_lookup_insert_eq. }
    assert (Hold : ∀ x, x ∈ calls b → x ≠ AwaitParseFile file doc →
              x ∈ <[i:=Settled file doc]> (calls b)).
    { intros x [j Hj]%list_elem_of_lookup_1 Hx.
      destruct (decide (i = j)) as [->|Hne]; [congruence|].
      apply (list_elem_of_lookup_2 _ j). by rewrite list_lookup_insert_ne. }
    assert (Hback : ∀ x, x ∈ <[i:=Settled file doc]> (calls b) →
              x = Settled file doc ∨ x ∈ calls b).
    { intros x [j Hj]%list_elem_of_lookup_1.
      destruct (decide (i = j)) as [->|Hne].
      - rewrite list_lookup_insert_eq in Hj by done. left. congruence.
      - rewrite list_lookup_insert_ne in Hj by done. right.
        by eapply list_elem_of_lookup_2. }
    split.
    + intros f d H. destruct doc as [d0|]; [|by apply Hold; auto].
      apply lookup_insert_Some in H as [[<- <-]|[Hne H] ]; [done|].
      apply Hold; auto.
    + intros f d [E|H]%Hback.
      * injection E as -> <-. by rewrite lookup_insert_eq.
      * apply Hset in H. destruct doc as [d0|]; [|done].
        destruct (decide (file = f)) as [->|Hne].
        -- by rewrite lookup_insert_eq.
        -- by rewrite lookup_insert_ne.
  - (* nothing is left to do *)
    destruct b as [w0 cs docs]. simpl in *. by rewrite list_insert_id.
Qed.

Lemma started_sound files w : sound files w (FileParser.started files w).
Proof.
  split; [apply during_refl|]. simpl. split.
  { rewrite <- list_fmap_compose. apply list_fmap_id. }
  split; [by apply Forall_fmap, Forall_true|]. split.
  - intros file doc H. by rewrite lookup_empty in H.
  - intros file doc (f & [=] & _)%list_elem_of_fmap.
Qed.

Lemma turns_sound files w b turns :
  sound files w b → sound files w (foldl advance b turns).
Proof.
  revert b. induction turns as [|i turns IH]; intros b Hb; [done|].
  simpl. by apply IH, advance_sound.
Qed.

(** *** Every call comes to its end *)

Lemma turnsLeft_bound c : (turnsLeft c ≤ 5)%nat.
Proof. destruct c; simpl; lia. Qed.

Lemma resume_turnsLeft c w documents :
  (turnsLeft (resume c w documents).1.1 ≤ turnsLeft c - 1)%nat.
Proof.
  destruct c as [file|file text hash s|file hash ast s|file hash result
                |file doc|file doc]; simpl.
  - destruct (fs w file) as [text|]; [|simpl; lia].
    case_decide; [simpl; lia|].
    destruct (cache w !! _); simpl; lia.
  - destruct (parseTranspiled _ _ _ _ _); simpl; lia.
  - by destruct ast as [ [ast|]|e]; [destruct (locateTags _ _ _ _ _)|..];
      simpl; lia.
  - destruct result; simpl; lia.
  - lia.
  - lia.
Qed.

Lemma advance_lookup b i j c :
  calls b !! j = Some c →
  ∃ c', calls (advance b i) !! j = Some c'
        ∧ (turnsLeft c' ≤ turnsLeft c)%nat
        ∧ (i = j → (turnsLeft c' ≤ turnsLeft c - 1)%nat).
Proof.
  intros Hj. unfold FileParser.advance.
  destruct (calls b !! i) as [ci|] eqn:Hi.
  - pose proof (resume_turnsLeft ci (process b) (documents b)) as Hle.
    destruct (resume ci (process b) (documents b)) as [[c' w'] docs'].
    simpl in *. destruct (decide (i = j)) as [->|Hne].
    + exists c'. rewrite list_lookup_insert_eq by (by eapply lookup_lt_Some).
      assert (ci = c) as -> by congruence.
      split; [done|]. split; [lia|done].
    + exists c. rewrite list_lookup_insert_ne by done.
      split; [done|]. split; [lia|done].
  - exists c. split; [done|]. split; [lia|]. intros ->. congruence.
Qed.

Lemma turns_lookup turns b j c :
  calls b !! j = Some c →
  ∃ c', calls (foldl advance b turns) !! j = Some c'
        ∧ (turnsLeft c' ≤ turnsLeft c)%nat.
Proof.
  revert b c. induction turns as [|i turns IH]; intros b c Hj.
  { exists c. by split. }
  destruct (advance_lookup b i j c Hj) as (c1 & H1 & Hle & _).
  destruct (IH _ _ H1) as (c' & H' & Hle').
  exists c'. split; [done|]. lia.
Qed.

Lemma own_turns n b j c :
  calls b !! j = Some c → (turnsLeft c ≤ n)%nat →
  ∃ c', calls (foldl advance b (replicate n j)) !! j = Some c'
        ∧ turnsLeft c' = 0.
Proof.
  revert b c. induction n as [|n IH]; intros b c Hj Hn.
  { exists c. split; [done|]. lia. }
  destruct (advance_lookup b j j c Hj) as (c1 & H1 & _ & Hle).
  specialize (Hle eq_refl).
  apply (IH _ c1); [done|]. lia.
Qed.

Lemma remaining_turns (indices : list nat) b j c :
  calls b !! j = Some c → j ∈ indices →
  ∃ c', calls (foldl advance b (flat_map (replicate 5) indices)) !! j
        = Some c'
        ∧ turnsLeft c' = 0.
Proof.
  revert b c. induction indices as [|i indices IH]; intros b c Hj Hin.
  { by apply elem_of_nil in Hin. }
  change (flat_map (replicate 5) (i :: indices))
    with (replicate 5 i ++ flat_map (replicate 5) indices).
  rewrite foldl_app.
  apply elem_of_cons in Hin as [->|Hin].
  - destruct (own_turns 5 b i c Hj (turnsLeft_bound c)) as (c1 & H1 & Hz).
    destruct (turns_lookup (flat_map (replicate 5) indices) _ _ _ H1)
      as (c' & H' & Hle).
    exists c'. split; [done|]. lia.
  - destruct (turns_lookup (replicate 5 i) b j c Hj) as (c1 & H1 & _).
    by apply (IH _ c1).
Qed.

Lemma turns_length turns b :
  length (calls (foldl advance b turns)) = length (calls b).
Proof.
  revert b. induction turns as [|i turns IH]; intros b; [done|].
  simpl. rewrite IH. unfold FileParser.advance.
  destruct (calls b !! i) as [c|]; [|done].
  destruct (resume c (process b) (documents b)) as [[c' w'] docs'].
  simpl. apply length_insert.
Qed.

(** When [Promise.all] resolves every call has returned. *)
Lemma settled_calls files schedule w c :
  c ∈ calls (settled files schedule w) → ∃ doc, c = Settled (callFile c) doc.
Proof.
  intros [j Hj]%list_elem_of_lookup_1. revert Hj.
  unfold FileParser.settled. rewrite foldl_app. intros Hj.
  set (b := foldl advance (FileParser.started files w) schedule) in *.
  assert (Hlen : length (calls b) = length files).
  { unfold b. rewrite turns_length. simpl. apply length_fmap. }
  assert (Hlt : (j < length files)%nat).
  { rewrite <- Hlen, <- (turns_length (FileParser.remaining files) b).
    by eapply lookup_lt_Some. }
  destruct (lookup_lt_is_Some_2 (calls b) j) as [c0 H0]; [lia|].
  destruct (remaining_turns (seq 0 (length files)) b j c0 H0)
    as (c' & H' & Hz).
  { apply elem_of_seq. lia. }
  unfold FileParser.remaining in Hj. rewrite H' in Hj. injection Hj as <-.
  destruct c'; try done. by eexists.
Qed.

Lemma settled_sound files schedule w : sound files w (settled files schedule w).
Proof. apply turns_sound, started_sound. Qed.

(** A file that shares its key with no other file of the batch is
    answered during the batch as it is before it. *)
Lemma during_alone files w w' file :
  during files w w' → aloneUnderKey files w file →
  (parseFile file w').1 = (parseFile file w).1.
Proof.
  intros [(Hfs & Hsub & _) Hcache] Halone.
  destruct (fs w file) as [text|] eqn:Hread.
  2:{ unfold FileParser.parseFile. by rewrite Hfs, Hread. }
  destruct (decide (indexOf text "graphql" = (-1)%Z)) as [Hidx|Hidx].
  { unfold FileParser.parseFile. by rewrite Hfs, Hread, !decide_True. }
  assert (Hread' : fs w' file = Some text) by (by rewrite Hfs).
  assert (Hmiss : ∀ defs,
            cache w !! md5 (file +:+ text) = None →
            (findGraphQLTags file text initialLocatorState).1 = Normal defs →
            (parseFile file w).1 = (finish file defs w').1).
  { intros defs Hkey Hdefs.
    rewrite (parseFile_miss _ _ _ _ _ _ _ _ Hread Hidx Hkey).
    destruct (findGraphQLTags file text initialLocatorState) as [[ds|e] s];
      simpl in Hdefs; [|done]. injection Hdefs as ->.
    unfold finish. by destruct defs. }
  destruct (cache w' !! md5 (file +:+ text)) as [defs|] eqn:Hkey'.
  - rewrite (parseFile_hit _ _ _ _ _ _ _ _ _ Hread' Hidx Hkey').
    destruct (Hcache _ _ Hkey')
      as [Hkey|(Hkey & file' & text' & Hin & Hread2 & _ & E & Hdefs)].
    + rewrite (parseFile_hit _ _ _ _ _ _ _ _ _ Hread Hidx Hkey).
      unfold finish. by destruct defs.
    + destruct (decide (file' = file)) as [->|Hne].
      * assert (text' = text) as -> by congruence. symmetry. by apply Hmiss.
      * exfalso. by eapply Halone.
  - assert (Hkey : cache w !! md5 (file +:+ text) = None).
    { destruct (cache w !! md5 (file +:+ text)) eqn:E; [|done].
      eapply lookup_weaken in E; [|done]. congruence. }
    rewrite (parseFile_miss _ _ _ _ _ _ _ _ Hread' Hidx Hkey').
    rewrite (parseFile_miss _ _ _ _ _ _ _ _ Hread Hidx Hkey).
    destruct (findGraphQLTags file text initialLocatorState) as [[ds|e] s];
      [|done]. unfold finish. by destruct ds.
Qed.


(** X5: a batch never changes the files, never removes or overwrites a
    cache entry and only appends to the event log, in whatever order
    its calls take their turns; an entry that is new after the batch is
    stored under the key of a file of the batch and its text. *)
Theorem parseFiles_later (files : list string) (schedule : list nat)
    (w : world) :
  later w (parseFiles files schedule w).2
  ∧ ∀ key defs, cache (parseFiles files schedule w).2 !! key = Some defs →
      cache w !! key = Some defs
      ∨ ∃ file text, file ∈ files ∧ fs w file = Some text
                     ∧ key = md5 (file +:+ text).
Proof.
  destruct (settled_sound files schedule w) as ([Hl Hcache] & _).
  split; [done|]. intros key defs H.
  apply Hcache in H as [H|(_ & file & text & Hin & Hread & _ & -> & _)];
    [by left|].
  right. by exists file, text.
Qed.


Lemma emittedSince_extends s s' :
  extends s s' → emitted s' = emitted s ++ emittedSince s s'.
Proof.
  intros (a & ev & _ & _ & He & _). unfold emittedSince.
  by rewrite He, drop_app_length.
Qed.

Lemma advance_single c w docs :
  advance {| process := w; calls := [c]; documents := docs |} 0
  = {| process := (resume c w docs).1.2; calls := [(resume c w docs).1.1];
       documents := (resume c w docs).2 |}.
Proof.
  unfold FileParser.advance. simpl.
  by destruct (resume c w docs) as [[c' w'] docs'].
Qed.

(** The last two turns of a call, alone in its batch. *)
Lemma last_turns file hash result w :
  let b :=
    advance
      (advance {| process := w;
                  calls := [AwaitFindGraphQLTags file hash result];
                  documents := ∅ |} 0) 0 in
  (documents b, process b)
  = match result with
    | Normal defs =>
        let r :=
          finish file defs
            {| fs := fs w; cache := <[hash := defs]> (cache w);
               log := log w |} in
        (match r.1 with Some doc => {[file := doc]} | None => ∅ end, r.2)
    | Thrown _ =>
        (∅, logged w [ReportError (problemParsingGraphQL file);
                      QueryExtractionGraphQLError file])
    end.
Proof.
  intros b. unfold b. rewrite !advance_single. cbn [FileParser.resume].
  destruct result as [defs|err]; [|done].
  unfold FileParser.resolved, finish. destruct defs; cbn; [done|].
  by rewrite insert_empty.
Qed.

(** The turns of one extraction make [findGraphQLTags]. *)
Lemma findGraphQLTags_turns file text :
  let s1 := (emit (CallPreprocessSource file text) initialLocatorState).2 in
  let parsed :=
    parseTranspiled babelParseToAst file text (preprocessSource file text)
      s1 in
  let located :=
    match parsed.1 with
    | Normal None => (Normal [], parsed.2)
    | Normal (Some ast) =>
        locateTags camelCase getGraphQLTag file ast parsed.2
    | Thrown error => (Thrown error, parsed.2)
    end in
  findGraphQLTags file text initialLocatorState = located
  ∧ emitted located.2
    = emitted s1 ++ emittedSince s1 parsed.2
      ++ emittedSince parsed.2 located.2.
Proof.
  intros s1 parsed located.
  assert (H1 : extends s1 parsed.2) by apply steps_parseTranspiled.
  assert (H2 : extends parsed.2 located.2).
  { unfold located. destruct parsed.1 as [ [ast|]|e];
      [apply steps_locateTags|apply extends_refl..]. }
  apply emittedSince_extends in H1, H2. split.
  - unfold FileParser.findGraphQLTags, FileParser.parseToAst.
    unfold bind at 2. unfold bind at 1. fold s1.
    change (emit (CallPreprocessSource file text) initialLocatorState)
      with (Normal (), s1).
    cbn iota. fold parsed. unfold located.
    destruct parsed as [ [ [ast|]|e] s2]; done.
  - by rewrite H2, H1, app_assoc.
Qed.

(** X28: a batch of one file is one call of [parseFile]: the map holds
    the document under the path when the call returned one and is empty
    otherwise, and the process is left as that call leaves it. *)
Theorem parseFiles_one (file : string) (w : world) :
  parseFiles [file] [] w
  = (match (parseFile file w).1 with
     | Some doc => {[file := doc]}
     | None => ∅
     end, (parseFile file w).2).
Proof.
  unfold FileParser.parseFiles, FileParser.settled, FileParser.remaining, FileParser.started.
  cbn [app length seq flat_map replicate fmap list_fmap foldl].
  rewrite advance_single. cbn [FileParser.resume].
  destruct (fs w file) as [text|] eqn:Hread.
  2:{ unfold FileParser.parseFile. rewrite Hread.
      cbn [fst snd]. rewrite !advance_single. by cbn. }
  destruct (decide (indexOf text "graphql" = (-1)%Z)) as [Hidx|Hidx].
  { unfold FileParser.parseFile. rewrite Hread, decide_True by done.
    cbn [fst snd]. rewrite !advance_single. by cbn. }
  destruct (cache w !! md5 (file +:+ text)) as [defs|] eqn:Hkey.
  { rewrite (parseFile_hit _ _ _ _ _ _ _ _ _ Hread Hidx Hkey).
    unfold FileParser.resolved, finish. cbn [fst snd].
    rewrite !advance_single. cbn.
    destruct defs; simpl; [done|]. by rewrite insert_empty. }
  rewrite (parseFile_miss _ _ _ _ _ _ _ _ Hread Hidx Hkey).
  destruct (findGraphQLTags_turns file text) as [Hfind Hlog].
  rewrite Hfind. clear Hfind.
  cbn [fst snd]. rewrite advance_single. cbn [FileParser.resume].
  set (s1 := (emit (CallPreprocessSource file text) initialLocatorState).2)
    in *.
  destruct (parseTranspiled babelParseToAst file text
              (preprocessSource file text) s1) as [ast s2].
  cbn [fst snd] in *. rewrite advance_single. cbn [FileParser.resume].
  set (located := match ast with
                  | Normal None => (Normal [], s2)
                  | Normal (Some ast) =>
                      locateTags camelCase getGraphQLTag file ast s2
                  | Thrown error => (Thrown error, s2)
                  end) in *.
  destruct located as [result s3]. cbn [fst snd] in *.
  pose proof (last_turns file (md5 (file +:+ text)) result
                (logged (logged (logged w (emitted s1)) (emittedSince s1 s2))
                   (emittedSince s2 s3))) as Hlast.
  cbn zeta in Hlast. rewrite Hlast.
  assert (Hw : logged (logged (logged w (emitted s1)) (emittedSince s1 s2))
                 (emittedSince s2 s3)
               = logged w (emitted s3)).
  { unfold logged. simpl. f_equal. by rewrite Hlog, !app_assoc. }
  rewrite Hw. by destruct result.
Qed.

End batch_facts.

(** ** One variable, several call sites, in any file *)

(** ** A traversal that returns has entered every node *)
Section visits.
Variable R : relation locatorState.
Hypothesis R_refl : ∀ s, R s s.
Hypothesis R_trans : ∀ s1 s2 s3, R s1 s2 → R s2 s3 → R s1 s3.

Lemma visitAll_visits {S} (visitor : S → node → M S) nodes n a s a' s' :
  (∀ a n, respects R (visitor a n)) →
  n ∈ nodes →
  visitAll visitor a nodes s = (Normal a', s') →
  ∃ a0 s0 a1 s1, visitor a0 n s0 = (Normal a1, s1) ∧ R s1 s'.
Proof.
  intros Hv. revert a s. induction nodes as [|m nodes IH]; intros a s Hn.
  { by apply elem_of_nil in Hn. }
  simpl. unfold bind. destruct (visitor a m s) as [[a1|e] s1] eqn:E; [|done].
  intros Hrest. apply elem_of_cons in Hn as [->|Hn].
  - exists a, s, a1, s1. split; [done|].
    pose proof (respects_visitAll R R_refl R_trans visitor nodes a1 Hv s1)
      as H. by rewrite Hrest in H.
  - by eapply IH.
Qed.

Lemma traverse_visits root (visitor : node → M unit) n s s' :
  (∀ n, respects R (visitor n)) →
  n ∈ descendants root →
  traverse root visitor s = (Normal (), s') →
  ∃ s0 s1, visitor n s0 = (Normal (), s1) ∧ R s1 s'.
Proof.
  intros Hv Hn Hrun.
  destruct (visitAll_visits (λ _ n, visitor n) (descendants root) n () s ()
              s') as (_ & s0 & [] & s1 & H & HR); try done.
  by exists s0, s1.
Qed.
End visits.

Lemma NoDup_lookup_fmap {A B} (f : A → B) (l : list A) i j x y :
  NoDup (f <$> l) → l !! i = Some x → l !! j = Some y → f x = f y → i = j.
Proof.
  intros Hnd Hi Hj E.
  apply (proj1 (NoDup_alt (f <$> l)) Hnd i j (f x)).
  - by rewrite list_lookup_fmap, Hi.
  - by rewrite list_lookup_fmap, Hj, E.
Qed.

Lemma tagged_match {A} (n : node) (x y : A) :
  isTaggedTemplateExpression n = true →
  match n with TaggedTemplateExpression _ _ _ _ => x | _ => y end = x.
Proof. by destruct n. Qed.

Section shared_variable_any_file.
Variable camelCase : string → string.
Variable getGraphQLTag : node → tagResult.
Variable file : string.

Local Abbreviation extractStaticQuery :=
  (FileParser.extractStaticQuery camelCase getGraphQLTag).
Local Abbreviation extractPageQuery :=
  (FileParser.extractPageQuery camelCase getGraphQLTag).
Local Abbreviation findVariable :=
  (FileParser.findVariable camelCase getGraphQLTag).
Local Abbreviation staticQueryVisitor :=
  (FileParser.staticQueryVisitor camelCase getGraphQLTag).
Local Abbreviation useStaticQueryVisitor :=
  (FileParser.useStaticQueryVisitor camelCase getGraphQLTag).
Local Abbreviation pageQueryVisitor :=
  (FileParser.pageQueryVisitor camelCase getGraphQLTag).
Local Abbreviation passes := (FileParser.passes camelCase getGraphQLTag).
Local Abbreviation locateTags :=
  (FileParser.locateTags camelCase getGraphQLTag).
Local Abbreviation afterExtract := (Spec.afterExtract camelCase file).
Local Abbreviation extracted := (Spec.extracted camelCase file).

Lemma grows_warn message s : grows s (emitting s [ReportWarn message]).
Proof. apply grows_emitting. by repeat constructor. Qed.

Lemma grows_findVariable ast varName usage isHook :
  respects grows (findVariable ast file varName usage isHook).
Proof.
  apply (respects_findVariable grows grows_refl grows_trans);
    [apply grows_warn|apply grows_extractStaticQuery].
Qed.

Lemma grows_staticQueryVisitor ast path :
  respects grows (staticQueryVisitor ast file path).
Proof.
  apply (respects_staticQueryVisitor grows grows_refl grows_trans);
    [apply grows_warn|apply grows_extractStaticQuery].
Qed.

Lemma grows_useStaticQueryVisitor ast path :
  respects grows (useStaticQueryVisitor ast file path).
Proof.
  apply (respects_useStaticQueryVisitor grows grows_refl grows_trans);
    [apply grows_warn|apply grows_extractStaticQuery].
Qed.

Lemma grows_pageQueryVisitor path :
  respects grows (pageQueryVisitor file path).
Proof.
  apply (respects_pageQueryVisitor grows grows_refl grows_trans).
  apply grows_extractPageQuery.
Qed.

Lemma grows_run {A} (m : M A) s r s' :
  respects grows m → m s = (r, s') → grows s s'.
Proof. intros Hm E. specialize (Hm s). by rewrite E in Hm. Qed.

(** *** The declaration *)
Variable Q : string.
Variable id template : node.
Variable ds : list parsedDefinition.
Variable text : string.
Variable h : N.
Variable g : bool.

Hypothesis id_name : node_name id = Some Q.
Hypothesis template_tagged : isTaggedTemplateExpression template = true.
Hypothesis template_tag : getGraphQLTag template = Tag ds text h g.

Local Abbreviation start := (node_start template).

Local Abbreviation discovered :=
  (Laws.discovered camelCase file start ds text h g).

Lemma discovered_grows isHook s s' :
  discovered isHook s → grows s s' → discovered isHook s'.
Proof. intros [s0 H] Hs. exists s0. by eapply grows_trans. Qed.

(** A search for [Q] that returns has extracted the template. *)
Lemma findVariable_discovers ast usage isHook s s' :
  VariableDeclarator id (Some template) ∈ descendants ast →
  findVariable ast file Q usage isHook s = (Normal (), s') →
  discovered isHook s'.
Proof.
  intros Hdecl. unfold FileParser.findVariable, bind.
  destruct (traverseWith ast _ false s) as [[found|e] s1] eqn:E; [|done].
  intros Hend.
  assert (Hgrows : grows s1 s').
  { destruct found; [injection Hend as <-; apply grows_refl|].
    injection Hend as <-. apply grows_warn. }
  eapply discovered_grows; [|done]. clear Hend Hgrows.
  assert (Hv : ∀ found varPath,
            respects grows (variableDeclaratorVisitor camelCase getGraphQLTag
                              file Q isHook found varPath)).
  { intros f n. unfold variableDeclaratorVisitor.
    destruct n; try apply (respects_ret grows grows_refl).
    case_decide; [|apply (respects_ret grows grows_refl)].
    destruct init as [e|]; [|apply (respects_throw grows grows_refl)].
    destruct (isTaggedTemplateExpression e);
      [|apply (respects_ret grows grows_refl)].
    apply (respects_visitAll grows grows_refl grows_trans). intros f' n'.
    destruct n'; try apply (respects_ret grows grows_refl).
    apply (respects_bind grows grows_trans);
      [apply grows_extractStaticQuery|].
    intros _. apply (respects_ret grows grows_refl). }
  destruct (visitAll_visits grows grows_refl grows_trans _ _ _ _ _ _ _ Hv
              Hdecl E) as (f0 & s0 & f1 & s2 & Hvisit & Hs2).
  eapply discovered_grows; [|done]. clear Hs2 E.
  unfold variableDeclaratorVisitor in Hvisit.
  rewrite decide_True, template_tagged in Hvisit by done.
  unfold traverseWith in Hvisit.
  assert (Hin : template ∈ descendants (VariableDeclarator id (Some template))).
  { simpl. apply elem_of_cons. right. apply elem_of_app. right. by left. }
  assert (Ht : ∀ (found : bool) templatePath,
            respects grows
              (match templatePath with
               | TaggedTemplateExpression _ _ _ _ =>
                   bind (extractStaticQuery file templatePath isHook)
                     (λ _, ret true)
               | _ => ret found
               end)).
  { intros f' n'. destruct n'; try apply (respects_ret grows grows_refl).
    apply (respects_bind grows grows_trans);
      [apply grows_extractStaticQuery|].
    intros _. apply (respects_ret grows grows_refl). }
  destruct (visitAll_visits grows grows_refl grows_trans _ _ _ _ _ _ _ Ht
              Hin Hvisit) as (f2 & s3 & f3 & s4 & Hextract & Hs4).
  eapply discovered_grows; [|done].
  rewrite (tagged_match template _ _ template_tagged) in Hextract.
  unfold bind in Hextract.
  rewrite extractStaticQuery_run, template_tag in Hextract.
  injection Hextract as _ <-. exists s3. apply grows_refl.
Qed.

(** The component pass, when it returns, has extracted the template for
    an element that passes [Q]. *)
Lemma componentPass_discovers ast s s' :
  VariableDeclarator id (Some template) ∈ descendants ast →
  Q ≠ "graphql" →
  elementSite ast Q →
  traverse ast (staticQueryVisitor ast file) s = (Normal (), s') →
  discovered false s'.
Proof.
  intros Hdecl HQ (attributes & children & value & Helement & Hattribute
                   & Hidentifier) Hrun.
  destruct (traverse_visits grows grows_refl grows_trans _ _ _ _ _
              (grows_staticQueryVisitor ast) Helement Hrun)
    as (s0 & s1 & Hvisit & Hs1).
  eapply discovered_grows; [|done]. clear Hs1 Hrun.
  unfold FileParser.staticQueryVisitor in Hvisit.
  rewrite decide_True in Hvisit by done.
  assert (Hinner : ∀ p,
    respects grows
      (match p with
       | TaggedTemplateExpression _ _ _ _ => extractStaticQuery file p false
       | Identifier varName =>
           if decide (varName ≠ "graphql")
           then findVariable ast file varName "<StaticQuery>" false
           else ret ()
       | _ => ret ()
       end)).
  { intros p. destruct p; try apply (respects_ret grows grows_refl).
    - apply grows_extractStaticQuery.
    - case_decide; [apply grows_findVariable
                   |apply (respects_ret grows grows_refl)]. }
  assert (Hattr : ∀ jsxPath,
    respects grows
      (match jsxPath with
       | JSXAttribute attributeName _ =>
           if decide (attributeName = Some "query")
           then traverse jsxPath (λ p,
                  match p with
                  | TaggedTemplateExpression _ _ _ _ =>
                      extractStaticQuery file p false
                  | Identifier varName =>
                      if decide (varName ≠ "graphql")
                      then findVariable ast file varName "<StaticQuery>"
                             false
                      else ret ()
                  | _ => ret ()
                  end)
           else ret ()
       | _ => ret ()
       end)).
  { intros n. destruct n; try apply (respects_ret grows grows_refl).
    case_decide; [|apply (respects_ret grows grows_refl)].
    apply (respects_traverse grows grows_refl grows_trans). apply Hinner. }
  destruct (traverse_visits grows grows_refl grows_trans _ _ _ _ _
              Hattr Hattribute Hvisit) as (s2 & s3 & Hvisit2 & Hs3).
  eapply discovered_grows; [|done]. clear Hs3 Hvisit.
  rewrite decide_True in Hvisit2 by done.
  destruct (traverse_visits grows grows_refl grows_trans _ _ _ _ _
              Hinner Hidentifier Hvisit2) as (s4 & s5 & Hvisit3 & Hs5).
  eapply discovered_grows; [|done].
  rewrite decide_True in Hvisit3 by done.
  by eapply findVariable_discovers.
Qed.

(** The hook pass, when it returns, has extracted the template for a
    call of [useStaticQuery] that passes [Q]. *)
Lemma hookPass_discovers ast s s' :
  VariableDeclarator id (Some template) ∈ descendants ast →
  Q ≠ "graphql" →
  hookSite ast Q →
  traverse ast (useStaticQueryVisitor ast file) s = (Normal (), s') →
  discovered true s'.
Proof.
  intros Hdecl HQ (callee & arguments & Hcallee & Hcall & Hidentifier & HQ')
    Hrun.
  destruct (traverse_visits grows grows_refl grows_trans _ _ _ _ _
              (grows_useStaticQueryVisitor ast) Hcall Hrun)
    as (s0 & s1 & Hvisit & Hs1).
  eapply discovered_grows; [|done]. clear Hs1 Hrun.
  unfold FileParser.useStaticQueryVisitor in Hvisit.
  rewrite Hcallee in Hvisit.
  rewrite bool_decide_eq_false_2 in Hvisit by (by intros ?).
  cbn [orb negb] in Hvisit.
  assert (Hinner : ∀ p,
    respects grows
      (match p with
       | TaggedTemplateExpression _ _ _ _ => extractStaticQuery file p true
       | Identifier varName =>
           if bool_decide (varName ≠ "graphql")
              && bool_decide (varName ≠ "useStaticQuery")
           then findVariable ast file varName "useStaticQuery" true
           else ret ()
       | _ => ret ()
       end)).
  { intros p. destruct p; try apply (respects_ret grows grows_refl).
    - apply grows_extractStaticQuery.
    - destruct (_ && _); [apply grows_findVariable
                         |apply (respects_ret grows grows_refl)]. }
  destruct (traverse_visits grows grows_refl grows_trans _ _ _ _ _
              Hinner Hidentifier Hvisit) as (s2 & s3 & Hvisit2 & Hs3).
  eapply discovered_grows; [|done].
  rewrite !bool_decide_eq_true_2 in Hvisit2 by done.
  cbn [andb] in Hvisit2. by eapply findVariable_discovers.
Qed.

(** Every definition of the template is on record after an extraction,
    under the key made of the template's offset and its own. *)
Lemma discovered_recorded isHook s' d0 :
  discovered isHook s' → d0 ∈ ds →
  ∃ q, q ∈ queries s'
       ∧ documentLocations s' !! oid q
         = Some (locationKey start (parsed_loc_start d0)).
Proof.
  intros [s (Hprefix & _ & Hlocations & _)] Hd0.
  assert (Hloc : parsed_loc_start d0
                 ∈ loc_start <$> extracted isHook text h (nextObject s) ds).
  { rewrite extracted_loc_start. by apply list_elem_of_fmap_2. }
  apply list_elem_of_fmap in Hloc as (q & Hq0 & Hq).
  assert (Hoid : oid q ∈ oid <$> allocate (nextObject s) ds).
  { rewrite <- (extracted_oid camelCase file ds text h isHook).
    by apply list_elem_of_fmap_2. }
  apply list_elem_of_fmap in Hoid as (d & Hoid & Hd).
  assert (loc_start q = loc_start d) as Hsame.
  { unfold Spec.extracted in Hq.
    apply list_elem_of_fmap in Hq as (d1 & -> & Hd1).
    apply list_elem_of_fmap in Hd1 as (d2 & -> & Hd2). simpl in *.
    destruct (generateQueryName_fields camelCase d2 h file)
      as (Ho & Hl & _). simpl in Ho, Hl. rewrite Ho in Hoid.
    rewrite Hl. f_equal.
    pose proof (allocate_NoDup (nextObject s) ds) as Hnd.
    by eapply (NoDup_fmap_eq oid). }
  exists q. split.
  - eapply elem_of_prefix; [|done]. simpl. apply elem_of_app. by right.
  - rewrite Hlocations.
    + simpl. rewrite Hq0, Hsame, Hoid.
      apply setLocations_in; [apply allocate_NoDup|done].
    + simpl. apply allocate_oid in Hd. lia.
Qed.

Lemma passes_discover ast s s' :
  VariableDeclarator id (Some template) ∈ descendants ast →
  Q ≠ "graphql" →
  elementSite ast Q ∨ hookSite ast Q →
  passes file ast s = (Normal (), s') →
  ∃ isHook, discovered isHook s'.
Proof.
  intros Hdecl HQ Hsite. unfold FileParser.passes, bind.
  destruct (traverse ast (staticQueryVisitor ast file) s)
    as [[[]|e] s1] eqn:E1; [|done].
  destruct (traverse ast (useStaticQueryVisitor ast file) s1)
    as [[[]|e] s2] eqn:E2; [|done].
  intros E3.
  assert (H2 : grows s1 s2).
  { eapply grows_run; [|done].
    apply (respects_traverse grows grows_refl grows_trans).
    apply grows_useStaticQueryVisitor. }
  assert (H3 : grows s2 s').
  { eapply grows_run; [|done].
    apply (respects_traverse grows grows_refl grows_trans).
    apply grows_pageQueryVisitor. }
  destruct Hsite as [Hsite|Hsite].
  - exists false. eapply discovered_grows; [|done].
    eapply discovered_grows; [|done]. by eapply componentPass_discovers.
  - exists true. eapply discovered_grows; [|done].
    by eapply hookPass_discovers.
Qed.

(** However many call sites pass [Q], the result of the traversals holds
    each definition of the template exactly once. *)
Lemma locateTags_once ast s defs s' d0 :
  VariableDeclarator id (Some template) ∈ descendants ast →
  Q ≠ "graphql" →
  elementSite ast Q ∨ hookSite ast Q →
  locateTags file ast s = (Normal defs, s') →
  d0 ∈ ds →
  onceIn (documentLocations s')
    (locationKey start (parsed_loc_start d0)) defs.
Proof.
  intros Hdecl HQ Hsite Hrun Hd0.
  rewrite (locateTags_passes camelCase getGraphQLTag) in Hrun.
  destruct (passes file ast s) as [[[]|e] s1] eqn:E; [|done].
  injection Hrun as <- <-.
  destruct (passes_discover _ _ _ Hdecl HQ Hsite E) as [isHook Hfound].
  destruct (discovered_recorded _ _ _ Hfound Hd0) as (q & Hq & Hkey).
  destruct (baseUniq_covers (λ q, documentLocations s1 !! oid q) []
              (queries s1) q Hq) as (q' & Hq' & Hkey').
  { by intros ?%elem_of_nil. }
  apply list_elem_of_lookup_1 in Hq' as [i Hi].
  exists i, q'. split; [done|]. split; [by rewrite Hkey'|].
  intros j q2 Hj Hkey2.
  eapply (NoDup_lookup_fmap (λ q, documentLocations s1 !! oid q));
    [apply baseUniq_NoDup|exact Hj|exact Hi|].
  by rewrite Hkey2, Hkey', Hkey.
Qed.

End shared_variable_any_file.

(** ** The nodes below a node below the root are below the root *)

Lemma descendants_children n :
  descendants n = flat_map (λ c, c :: descendants c) (children n).
Proof.
  destruct n as [x attrs kids|x [v|]|o t raw es|x|i [e|]|c b args|d|kids];
    cbn [children].
  - change (descendants (JSXElement x attrs kids))
      with (descendants (Other attrs) ++ descendants (Other kids)).
    by rewrite !descendants_Other, flat_map_app.
  - simpl. by rewrite app_nil_r.
  - done.
  - change (descendants (TaggedTemplateExpression o t raw es))
      with ((t :: descendants t) ++ descendants (Other es)).
    by rewrite descendants_Other.
  - done.
  - simpl. by rewrite app_nil_r.
  - simpl. by rewrite app_nil_r.
  - change (descendants (CallExpression c b args))
      with ((c :: descendants c) ++ descendants (Other args)).
    by rewrite descendants_Other.
  - change (descendants (ExportNamedDeclaration d))
      with (descendants (Other d)).
    by rewrite descendants_Other.
  - apply descendants_Other.
Qed.

Lemma elem_of_descendants n r :
  n ∈ descendants r ↔ ∃ c, c ∈ children r ∧ (n = c ∨ n ∈ descendants c).
Proof.
  rewrite descendants_children, list_elem_of_In, in_flat_map.
  split; intros (c & Hc & Hn); exists c.
  - apply list_elem_of_In in Hc. split; [done|].
    apply list_elem_of_In, elem_of_cons in Hn as [->|Hn]; auto.
  - split; [by apply list_elem_of_In|].
    apply list_elem_of_In, elem_of_cons. destruct Hn as [->|Hn]; auto.
Qed.

Lemma descendants_child n c :
  c ∈ children n → (length (descendants c) < length (descendants n))%nat.
Proof.
  rewrite (descendants_children n). generalize (children n). intros l.
  induction l as [|x l IH]; [by intros ?%elem_of_nil|].
  change (flat_map (λ c, c :: descendants c) (x :: l))
    with ((x :: descendants x) ++ flat_map (λ c, c :: descendants c) l).
  rewrite length_app.
  intros [->|Hc]%elem_of_cons; [simpl; lia|].
  apply IH in Hc. lia.
Qed.

Lemma descendants_trans n m r :
  n ∈ descendants m → m ∈ descendants r → n ∈ descendants r.
Proof.
  intros Hn. remember (length (descendants r)) as k eqn:Hk. revert r Hk.
  induction (lt_wf k) as [k _ IH]. intros r -> Hm.
  apply elem_of_descendants in Hm as (c & Hc & [->|Hm]).
  - apply elem_of_descendants. eauto.
  - apply elem_of_descendants. exists c. split; [done|]. right.
    eapply (IH (length (descendants c)));
      [by apply descendants_child|done|done].
Qed.

(** ** Traversals that return *)

Lemma returns_ret {A} (a : A) : returns (ret a).
Proof. intros s. by exists a, s. Qed.

Lemma returns_bind {A B} (m : M A) (f : A → M B) :
  returns m → (∀ a, returns (f a)) → returns (bind m f).
Proof.
  intros Hm Hf s. unfold bind. destruct (Hm s) as (a & s' & ->). apply Hf.
Qed.

Lemma returns_visitAll {S} (visitor : S → node → M S) nodes a :
  (∀ a n, n ∈ nodes → returns (visitor a n)) →
  returns (visitAll visitor a nodes).
Proof.
  revert a. induction nodes as [|n nodes IH]; intros a Hv.
  - apply returns_ret.
  - simpl. apply returns_bind; [apply Hv; by left|].
    intros a'. apply IH. intros a0 m Hm. apply Hv. by right.
Qed.

Lemma returns_traverse root (visitor : node → M unit) :
  (∀ n, n ∈ descendants root → returns (visitor n)) →
  returns (traverse root visitor).
Proof. intros Hv. apply returns_visitAll. intros _ n. apply Hv. Qed.

Section traversable_facts.
Variable camelCase : string → string.
Variable getGraphQLTag : node → tagResult.
Variable file : string.
Variable ast : node.
Hypothesis ast_traversable : traversable getGraphQLTag ast.

Local Abbreviation extractStaticQuery :=
  (FileParser.extractStaticQuery camelCase getGraphQLTag).
Local Abbreviation extractPageQuery :=
  (FileParser.extractPageQuery camelCase getGraphQLTag).
Local Abbreviation findVariable :=
  (FileParser.findVariable camelCase getGraphQLTag).
Local Abbreviation passes := (FileParser.passes camelCase getGraphQLTag).
Local Abbreviation locateTags :=
  (FileParser.locateTags camelCase getGraphQLTag).

Lemma returns_extractStaticQuery path isHook :
  path ∈ descendants ast → returns (extractStaticQuery file path isHook).
Proof.
  intros Hin s. rewrite extractStaticQuery_run.
  destruct ast_traversable as [_ Htag].
  destruct (getGraphQLTag path) as [e| |ds text h g] eqn:E; eauto.
  by destruct (Htag path e Hin).
Qed.

Lemma returns_extractPageQuery path :
  path ∈ descendants ast → returns (extractPageQuery file path).
Proof.
  intros Hin s. rewrite extractPageQuery_run.
  destruct ast_traversable as [_ Htag].
  destruct (getGraphQLTag path) as [e| |ds text h g] eqn:E; eauto.
  by destruct (Htag path e Hin).
Qed.

Lemma returns_findVariable varName usage isHook :
  returns (findVariable ast file varName usage isHook).
Proof.
  unfold FileParser.findVariable. apply returns_bind.
  - apply returns_visitAll. intros found varPath Hin.
    unfold variableDeclaratorVisitor.
    destruct varPath as [| | | |id init| | |]; try apply returns_ret.
    case_decide; [|apply returns_ret].
    destruct ast_traversable as [Hinit _].
    destruct (Hinit id init Hin) as [e ->].
    destruct (isTaggedTemplateExpression e); [|apply returns_ret].
    apply returns_visitAll. intros f n Hn.
    destruct n; try apply returns_ret.
    apply returns_bind; [|intros; apply returns_ret].
    apply returns_extractStaticQuery. by eapply descendants_trans.
  - intros [|]; [apply returns_ret|]. intros s. by eexists _, _.
Qed.

Lemma returns_passes : returns (passes file ast).
Proof.
  unfold FileParser.passes. apply returns_bind; [|intros _; apply returns_bind].
  - apply returns_traverse. intros path Hpath.
    unfold FileParser.staticQueryVisitor.
    destruct path; try apply returns_ret.
    case_decide; [|apply returns_ret].
    apply returns_traverse. intros jsxPath HjsxPath.
    destruct jsxPath; try apply returns_ret.
    case_decide; [|apply returns_ret].
    apply returns_traverse. intros p Hp.
    destruct p; try apply returns_ret.
    + apply returns_extractStaticQuery.
      eapply descendants_trans; [done|]. by eapply descendants_trans.
    + case_decide; [apply returns_findVariable|apply returns_ret].
  - apply returns_traverse. intros hookPath HhookPath.
    unfold FileParser.useStaticQueryVisitor.
    destruct hookPath; try apply returns_ret.
    destruct (_ || _); [apply returns_ret|].
    apply returns_traverse. intros p Hp.
    destruct p; try apply returns_ret.
    + apply returns_extractStaticQuery. by eapply descendants_trans.
    + destruct (_ && _); [apply returns_findVariable|apply returns_ret].
  - intros _. apply returns_traverse. intros path Hpath.
    unfold FileParser.pageQueryVisitor.
    destruct path; try apply returns_ret.
    apply returns_traverse. intros p Hp.
    destruct p; try apply returns_ret.
    apply returns_extractPageQuery. by eapply descendants_trans.
Qed.

Lemma returns_locateTags : returns (locateTags file ast).
Proof.
  intros s. rewrite (locateTags_passes camelCase getGraphQLTag).
  destruct (returns_passes s) as ([] & s' & ->). by eexists _, _.
Qed.

End traversable_facts.

Section shared_variable_document.
Variable camelCase : string → string.
Variable md5 : string → string.
Variable preprocessSource : string → string → list string.
Variable babelParseToAst : string → string → string + node.
Variable getGraphQLTag : node → tagResult.

Local Abbreviation parseToAst :=
  (FileParser.parseToAst preprocessSource babelParseToAst).
Local Abbreviation findGraphQLTags :=
  (FileParser.findGraphQLTags camelCase preprocessSource babelParseToAst
     getGraphQLTag).
Local Abbreviation parseFile :=
  (FileParser.parseFile camelCase md5 preprocessSource babelParseToAst
     getGraphQLTag).


End shared_variable_document.

(** ** Variables passed as the query *)
Section variables.
Variable camelCase : string → string.
Variable getGraphQLTag : node → tagResult.

Local Abbreviation findVariable :=
  (FileParser.findVariable camelCase getGraphQLTag).
Local Abbreviation staticQueryVisitor :=
  (FileParser.staticQueryVisitor camelCase getGraphQLTag).
Local Abbreviation useStaticQueryVisitor :=
  (FileParser.useStaticQueryVisitor camelCase getGraphQLTag).

(** [<StaticQuery query={X} />] searches for [X]. *)
Lemma staticQueryVisitor_callSite ast file X s :
  X ≠ "graphql" →
  staticQueryVisitor ast file (callSiteNode X StaticQueryElement) s
  = findVariable ast file X "<StaticQuery>" false s.
Proof.
  intros HX. unfold FileParser.staticQueryVisitor, callSiteNode.
  rewrite decide_True by done.
  unfold traverse, traverseWith. simpl descendants.
  simpl visitAll. unfold bind at 1.
  rewrite decide_True by done.
  unfold traverse, traverseWith. simpl descendants.
  simpl visitAll. unfold bind at 1. unfold bind at 1. unfold bind at 1.
  simpl. unfold ret at 1.
  by destruct (findVariable ast file X "<StaticQuery>" false s)
    as [[[]|e] s'].
Qed.

(** [useStaticQuery(X)] searches for [X]. *)
Lemma useStaticQueryVisitor_callSite ast file X s :
  X ≠ "graphql" → X ≠ "useStaticQuery" →
  useStaticQueryVisitor ast file (callSiteNode X UseStaticQueryCall) s
  = findVariable ast file X "useStaticQuery" true s.
Proof.
  intros HX HX'. unfold FileParser.useStaticQueryVisitor, callSiteNode.
  rewrite bool_decide_eq_false_2 by (by intros ?). cbn [orb negb].
  unfold traverse, traverseWith. simpl descendants.
  cbn [visitAll]. unfold bind at 1. unfold bind at 1.
  rewrite (bool_decide_eq_false_2 ("useStaticQuery" ≠ "useStaticQuery"))
    by (by intros ?).
  rewrite (bool_decide_eq_true_2 (X ≠ "graphql")) by done.
  rewrite (bool_decide_eq_true_2 (X ≠ "useStaticQuery")) by done.
  rewrite andb_false_r. cbn [andb]. unfold ret at 1.
  by destruct (findVariable ast file X "useStaticQuery" true s)
    as [[[]|e] s'].
Qed.

(** X8: a variable passed as the query that no declarator of the file
    binds to a tagged template (every declarator of that name has an
    initialiser of another kind, or there is none) gives exactly one
    warning, naming the variable, the file and the construct, records
    nothing, and the visitor returns, so the traversal goes on; for
    [<StaticQuery query={X} />] as for [useStaticQuery(X)]. *)
Theorem unresolved_variable_call_sites (ast : node) (file X : string)
    (s : locatorState) :
  (∀ id init, VariableDeclarator id init ∈ descendants ast →
     node_name id = Some X →
     ∃ e, init = Some e ∧ isTaggedTemplateExpression e = false) →
  X ≠ "graphql" →
  staticQueryVisitor ast file (callSiteNode X StaticQueryElement) s
  = (Normal (),
     emitting s
       [ReportWarn (unknownQueryVariableMessage X file "<StaticQuery>")])
  ∧ (X ≠ "useStaticQuery" →
     useStaticQueryVisitor ast file (callSiteNode X UseStaticQueryCall) s
     = (Normal (),
        emitting s
          [ReportWarn (unknownQueryVariableMessage X file "useStaticQuery")])).
Proof.
  intros Hdecl HX. split.
  - rewrite staticQueryVisitor_callSite by done.
    by apply findVariable_unresolved.
  - intros HX'. rewrite useStaticQueryVisitor_callSite by done.
    by apply findVariable_unresolved.
Qed.

End variables.

(** ** A variable bound to a template that is no query *)
Section untagged.
Variable camelCase : string → string.
Variable getGraphQLTag : node → tagResult.
Variable file : string.

Local Abbreviation findVariable :=
  (FileParser.findVariable camelCase getGraphQLTag).
Local Abbreviation staticQueryVisitor :=
  (FileParser.staticQueryVisitor camelCase getGraphQLTag).
Local Abbreviation useStaticQueryVisitor :=
  (FileParser.useStaticQueryVisitor camelCase getGraphQLTag).

(** The templates below a declarator, none of them a query. *)
Lemma templates_untagged isHook nodes found s :
  (∀ p, p ∈ nodes → isTaggedTemplateExpression p = true →
        getGraphQLTag p = NoTag) →
  visitAll (λ found templatePath,
              match templatePath with
              | TaggedTemplateExpression _ _ _ _ =>
                  bind (extractStaticQuery camelCase getGraphQLTag file
                          templatePath isHook) (λ _, ret true)
              | _ => ret found
              end) found nodes s
  = (Normal (found
             || existsb isTaggedTemplateExpression nodes),
     emitting s
       ((λ p, CallGetGraphQLTag (node_start p))
          <$> filter (λ p, isTaggedTemplateExpression p = true) nodes)).
Proof.
  revert found s. induction nodes as [|p nodes IH]; intros found s Hno.
  { simpl. by rewrite orb_false_r, emitting_nil. }
  assert (Hrest : ∀ p, p ∈ nodes → isTaggedTemplateExpression p = true →
                       getGraphQLTag p = NoTag).
  { intros q Hq. apply Hno. by right. }
  cbn [visitAll existsb]. unfold bind at 1.
  destruct (isTaggedTemplateExpression p) eqn:Hp.
  - rewrite filter_cons_True by done.
    rewrite (tagged_match p _ _ Hp). unfold bind at 1.
    rewrite extractStaticQuery_run, (Hno p) by (done || by left).
    unfold ret at 1. rewrite IH by done.
    rewrite fmap_cons, emitting_app. simpl. by rewrite orb_true_r.
  - rewrite filter_cons_False by (by rewrite Hp).
    destruct p; try done; unfold ret at 1; by rewrite IH.
Qed.

Lemma declarators_untagged Q isHook ast nodes found s :
  (∀ n, n ∈ nodes → n ∈ descendants ast) →
  (∀ id init, VariableDeclarator id init ∈ descendants ast →
     node_name id = Some Q → is_Some init) →
  (∀ n p, n ∈ descendants ast → bindsTemplate Q n = true →
     p ∈ descendants n → isTaggedTemplateExpression p = true →
     getGraphQLTag p = NoTag) →
  visitAll (variableDeclaratorVisitor camelCase getGraphQLTag file Q isHook)
    found nodes s
  = (Normal (found || existsb (bindsTemplate Q) nodes),
     emitting s
       (flat_map (λ n,
          if bindsTemplate Q n
          then (λ p, CallGetGraphQLTag (node_start p)) <$> templatesBelow n
          else []) nodes)).
Proof.
  intros Hin Hinit Hno. revert found s.
  induction nodes as [|n nodes IH]; intros found s.
  { simpl. by rewrite orb_false_r, emitting_nil. }
  assert (Hn : n ∈ descendants ast) by (apply Hin; by left).
  assert (Hrest : ∀ m, m ∈ nodes → m ∈ descendants ast).
  { intros m Hm. apply Hin. by right. }
  cbn [visitAll existsb flat_map]. unfold bind at 1.
  unfold variableDeclaratorVisitor at 1.
  destruct n as [| | | |id init| | |];
    try (unfold ret at 1; cbn beta iota; rewrite IH by done; by simpl).
  case_decide as Hname.
  2:{ assert (bindsTemplate Q (VariableDeclarator id init) = false) as ->.
      { unfold bindsTemplate.
        destruct init; [by rewrite bool_decide_eq_false_2|done]. }
      unfold ret at 1. cbn beta iota. rewrite IH by done. by simpl. }
  destruct (Hinit id init Hn Hname) as [e ->].
  assert (Hb : bindsTemplate Q (VariableDeclarator id (Some e))
               = isTaggedTemplateExpression e).
  { unfold bindsTemplate. by rewrite bool_decide_eq_true_2. }
  rewrite !Hb.
  destruct (isTaggedTemplateExpression e) eqn:He.
  - unfold traverseWith. rewrite templates_untagged.
    2:{ intros p Hp.
        by apply (Hno (VariableDeclarator id (Some e))); rewrite ?Hb. }
    rewrite IH by done. rewrite emitting_app.
    assert (Hfound : existsb isTaggedTemplateExpression
                       (descendants (VariableDeclarator id (Some e)))
                     = true).
    { apply existsb_exists. exists e. split; [|done].
      apply list_elem_of_In. simpl. apply elem_of_cons. right.
      apply elem_of_app. right. by left. }
    rewrite Hfound, orb_true_r. cbn [orb]. by rewrite orb_true_r.
  - unfold ret at 1. cbn beta iota. by rewrite IH.
Qed.

(** X9: when every declarator of the variable passed as the query has
    an initialiser, at least one of them binds it to a tagged template,
    and [getGraphQLTag] takes no template below such a declarator for a
    query (another tag), the declaration counts as found: the call site
    records nothing and no warning is emitted, the only effects being
    the calls of [getGraphQLTag] on those templates; for
    [<StaticQuery query={Q} />] as for [useStaticQuery(Q)], in any
    file. *)
Theorem untagged_template_variable_silent (ast : node) (Q : string)
    (s : locatorState) :
  (∀ id init, VariableDeclarator id init ∈ descendants ast →
     node_name id = Some Q → is_Some init) →
  (∃ n, n ∈ descendants ast ∧ bindsTemplate Q n = true) →
  (∀ n p, n ∈ descendants ast → bindsTemplate Q n = true →
     p ∈ descendants n → isTaggedTemplateExpression p = true →
     getGraphQLTag p = NoTag) →
  Q ≠ "graphql" →
  searchCalls Q ast ≠ []
  ∧ staticQueryVisitor ast file (callSiteNode Q StaticQueryElement) s
    = (Normal (), emitting s (searchCalls Q ast))
  ∧ (Q ≠ "useStaticQuery" →
     useStaticQueryVisitor ast file (callSiteNode Q UseStaticQueryCall) s
     = (Normal (), emitting s (searchCalls Q ast))).
Proof.
  intros Hinit (n & Hn & Hbinds) Hno HQ.
  assert (Hsearch : ∀ usage isHook,
    findVariable ast file Q usage isHook s
    = (Normal (), emitting s (searchCalls Q ast))).
  { intros usage isHook. unfold FileParser.findVariable, traverseWith, bind.
    rewrite (declarators_untagged Q isHook ast) by done.
    assert (existsb (bindsTemplate Q) (descendants ast) = true) as ->; [|done].
    apply existsb_exists. exists n. split; [by apply list_elem_of_In|done]. }
  split; [|split].
  - unfold searchCalls. intros Hnil.
    assert (Hall : ∀ m, m ∈ descendants ast →
              (if bindsTemplate Q m
               then (λ p, CallGetGraphQLTag (node_start p))
                      <$> templatesBelow m
               else []) = []).
    { intros m Hm. revert Hnil. generalize (descendants ast) Hm.
      intros l. induction l as [|x l IH]; [by intros ?%elem_of_nil|].
      intros Hx Hnil. simpl in Hnil. apply app_eq_nil in Hnil as [H1 H2].
      apply elem_of_cons in Hx as [->|Hx]; auto. }
    specialize (Hall n Hn). rewrite Hbinds in Hall.
    apply fmap_nil_inv in Hall. unfold templatesBelow in Hall.
    destruct n as [| | | |id [e|]| | |]; try done.
    unfold bindsTemplate in Hbinds. apply andb_prop in Hbinds as [_ He].
    eapply (filter_nil_not_elem_of _ _ e) in Hall; [|done].
    apply Hall. simpl. apply elem_of_cons. right. apply elem_of_app.
    right. by left.
  - rewrite staticQueryVisitor_callSite by done. apply Hsearch.
  - intros HQ'. rewrite useStaticQueryVisitor_callSite by done.
    apply Hsearch.
Qed.

End untagged.


(** ** A hook call inside an exported declaration *)
Section exported_hook.
Variable camelCase : string → string.
Variable getGraphQLTag : node → tagResult.
Variable file : string.
Variable C : string.
Variable start : N.
Variable raw : list string.
Variable ds : list parsedDefinition.
Variable text : string.
Variable h : N.
Variable g : bool.

Local Abbreviation template :=
  (TaggedTemplateExpression start (Identifier "graphql") raw []).
Local Abbreviation extracted := (Spec.extracted camelCase file).
Local Abbreviation pageExtracted := (Laws.pageExtracted camelCase file).

Hypothesis template_tag : getGraphQLTag template = Tag ds text h g.

Lemma passes_exportedHook s :
  passes camelCase getGraphQLTag file (exportedHookProgram C template) s
  = (Normal (),
     afterPageExtract camelCase file start ds h g
       (afterExtract camelCase file start ds text h g true s)).
Proof.
  unfold passes, traverse, traverseWith, exportedHookProgram.
  simpl descendants. unfold bind at 1. simpl visitAll at 1.
  unfold bind at 1. simpl.
  unfold bind at 1. unfold bind at 1. unfold bind at 1. unfold bind at 1.
  unfold bind at 1. unfold bind at 1. simpl.
  unfold traverse, traverseWith. simpl descendants. simpl visitAll.
  unfold bind at 1. unfold bind at 1. unfold bind at 1. simpl.
  rewrite extractStaticQuery_run, template_tag.
  unfold bind, ret. simpl.
  rewrite extractPageQuery_run, template_tag. done.
Qed.

Lemma consistent_block (f : definition → definition) events s :
  (∀ d, oid (f d) = oid d ∧ loc_start (f d) = loc_start d) →
  consistent start ds s →
  consistent start ds
    {| queries := queries s ++ (f <$> allocate (nextObject s) ds);
       documentLocations :=
         setLocations start (allocate (nextObject s) ds)
           (documentLocations s);
       nextObject := (nextObject s + N.of_nat (length ds))%N;
       emitted := events |}.
Proof.
  intros Hf Hs q. simpl. intros [Hq|Hq]%elem_of_app.
  - destruct (Hs q Hq) as (Hlt & Hkey & Hstart).
    split; [lia|]. split; [|done].
    rewrite setLocations_other; [done|].
    intros d Hd%allocate_oid. lia.
  - apply list_elem_of_fmap in Hq as (d & -> & Hd).
    destruct (Hf d) as [-> ->].
    split; [apply allocate_oid in Hd; lia|]. split.
    + apply setLocations_in; [apply allocate_NoDup|done].
    + rewrite <- (allocate_loc_start (nextObject s)).
      by apply list_elem_of_fmap_2.
Qed.

(** X10: [export const C = () => useStaticQuery(graphql`...`)] is found
    twice, by the hook pass and, being below an export, by the
    page-query pass, under the same location.  The result holds each
    definition of the template once, as the hook pass recorded it
    ([isStaticQuery], [isHook] true, [text], [hash]); the unmarked
    records of the page-query pass are dropped as duplicates.  The
    offsets of the template's definitions are pairwise distinct. *)
Theorem exported_hook_found_once :
  NoDup (parsed_loc_start <$> ds) →
  let result :=
    locateTags camelCase getGraphQLTag file (exportedHookProgram C template)
      initialLocatorState in
  result.1 = Normal (extracted true text h 0 ds)
  ∧ queries result.2
    = extracted true text h 0 ds
      ++ pageExtracted h (N.of_nat (length ds)) ds
  ∧ Forall markedStatic (extracted true text h 0 ds)
  ∧ Forall unmarked (pageExtracted h (N.of_nat (length ds)) ds).
Proof.
  intros Hnd result. unfold result.
  rewrite locateTags_passes, passes_exportedHook. simpl.
  set (s1 := afterExtract camelCase file start ds text h g true
               initialLocatorState).
  assert (Hs1 : consistent start ds s1).
  { unfold s1, afterExtract, Spec.extracted.
    change (map (markStaticQuery true text h)
              (map (λ def, generateQueryName camelCase def h file)
                 (allocate (nextObject initialLocatorState) ds)))
      with ((markStaticQuery true text h)
              <$> ((λ def, generateQueryName camelCase def h file)
                     <$> allocate (nextObject initialLocatorState) ds)).
    rewrite <- list_fmap_compose.
    apply consistent_block; [|by intros q ?%elem_of_nil].
    intros d. simpl.
    by destruct (generateQueryName_fields camelCase d h file)
      as (-> & -> & _). }
  assert (Hs2 : consistent start ds
                  (afterPageExtract camelCase file start ds h g s1)).
  { unfold afterPageExtract, Laws.pageExtracted.
    apply (consistent_block
             (λ def, generateQueryName camelCase def h file)); [|done].
    intros d.
    by destruct (generateQueryName_fields camelCase d h file)
      as (-> & -> & _). }
  assert (Hloc : loc_start <$> extracted true text h 0 ds
                 = parsed_loc_start <$> ds).
  { apply extracted_loc_start. }
  split; [|split; [|split] ].
  - f_equal. apply (uniqueQueries_block start).
    + intros q Hq. by apply Hs2 in Hq as (_ & ? & _).
    + by rewrite Hloc.
    + intros q Hq. rewrite Hloc. apply (Hs2 q). simpl.
      apply elem_of_app. by right.
  - done.
  - unfold Spec.extracted. rewrite !Forall_map. apply Forall_true.
    intros d. repeat split; simpl; eauto.
  - unfold Laws.pageExtracted. rewrite Forall_map.
    eapply Forall_impl; [apply allocate_unmarked|].
    intros d Hd. by apply generateQueryName_unmarked.
Qed.

End exported_hook.

(** ** Failures of the parser and of the extraction *)
Section failure_facts.
Variable camelCase : string → string.
Variable md5 : string → string.
Variable preprocessSource : string → string → list string.
Variable babelParseToAst : string → string → string + node.
Variable getGraphQLTag : node → tagResult.

Local Abbreviation parseToAst :=
  (FileParser.parseToAst preprocessSource babelParseToAst).
Local Abbreviation findGraphQLTags :=
  (FileParser.findGraphQLTags camelCase preprocessSource babelParseToAst
     getGraphQLTag).
Local Abbreviation parseFile :=
  (FileParser.parseFile camelCase md5 preprocessSource babelParseToAst
     getGraphQLTag).

(** X11: when the extraction throws (an error of [getGraphQLTag], or of
    the traversal itself), the call reports the problem, fires the
    GraphQL-error notification and returns null, and nothing is stored:
    a second call on the unchanged file runs the preprocessors, the
    parser and the traversals again and reports the same once more. *)
Theorem extraction_error_not_cached (file text error : string) (w : world)
    (s : locatorState) :
  fs w file = Some text →
  indexOf text "graphql" ≠ (-1)%Z →
  cache w !! md5 (file +:+ text) = None →
  findGraphQLTags file text initialLocatorState = (Thrown error, s) →
  let events :=
    emitted s ++ [ReportError (problemParsingGraphQL file);
                  QueryExtractionGraphQLError file] in
  parseFile file w = (None, logged w events)
  ∧ cache (logged w events) = cache w
  ∧ parseFile file (logged w events) = (None, logged (logged w events) events).
Proof.
  intros Hfs Hidx Hmiss Hthrow events.
  assert (Hrun : ∀ w0, fs w0 file = Some text →
            cache w0 !! md5 (file +:+ text) = None →
            parseFile file w0 = (None, logged w0 events)).
  { intros w0 Hfs0 Hmiss0.
    rewrite (parseFile_miss _ _ _ _ _ _ _ _ Hfs0 Hidx Hmiss0), Hthrow.
    unfold logged, events. simpl. by rewrite app_assoc. }
  split; [by apply Hrun|]. split; [done|]. by apply Hrun.
Qed.

Lemma tryCandidates_returns filePath items s :
  ∃ ast events,
    tryCandidates babelParseToAst filePath items s
    = (Normal ast, emitting s events)
    ∧ ∀ error, QueryExtractionBabelError filePath error ∉ events.
Proof.
  revert s. induction items as [|item items IH]; intros s.
  - exists None, []. split; [by rewrite emitting_nil|].
    by intros error ?%elem_of_nil.
  - simpl. unfold bind at 1. simpl.
    destruct (babelParseToAst item filePath) as [error|ast].
    + unfold bind at 1. simpl. unfold bind at 1. simpl.
      destruct (IH (emitting (emitting (emitting s
                  [CallBabelParseToAst item filePath]) [ReportError error])
                  [QueryExtractionGraphQLError filePath]))
        as (ast & events & -> & Hno).
      exists ast, ([CallBabelParseToAst item filePath; ReportError error;
                    QueryExtractionGraphQLError filePath] ++ events).
      split; [by rewrite !emitting_app|].
      intros error' [H|H]%elem_of_app; [|by eapply Hno].
      repeat (apply elem_of_cons in H as [H|H]; [done|]).
      by apply elem_of_nil in H.
    + exists (Some ast), [CallBabelParseToAst item filePath].
      split; [done|]. intros error' H.
      apply elem_of_cons in H as [H|H]; [done|]. by apply elem_of_nil in H.
Qed.

(** X12: [parseToAst] never throws: an error of the parser becomes a
    null result together with an error report, never a silent null.
    The Babel-error notification is fired only when no plugin
    preprocessed the file and Babel failed on the text, and it carries
    that error; with preprocessed candidates the failures fire the
    GraphQL-error notification instead. *)
Theorem parseToAst_returns (filePath fileStr : string) (s : locatorState) :
  ∃ ast events,
    parseToAst filePath fileStr s
    = (Normal ast,
       emitting s (CallPreprocessSource filePath fileStr :: events))
    ∧ (∀ error, QueryExtractionBabelError filePath error ∈ events →
         preprocessSource filePath fileStr = []
         ∧ babelParseToAst fileStr filePath = inl error)
    ∧ (QueryExtractionGraphQLError filePath ∈ events →
         preprocessSource filePath fileStr ≠ [])
    ∧ (ast = None →
         ReportError (problemParsing filePath) ∈ events
         ∨ ReportError (failedToParsePreprocessed filePath) ∈ events).
Proof.
  unfold FileParser.parseToAst, parseTranspiled. unfold bind at 1. simpl.
  destruct (preprocessSource filePath fileStr) as [|item items] eqn:Hpre.
  - unfold bind at 1. simpl.
    destruct (babelParseToAst fileStr filePath) as [error|ast] eqn:Hparse.
    + unfold bind. simpl.
      exists None, [CallBabelParseToAst fileStr filePath;
                    QueryExtractionBabelError filePath error;
                    ReportError (problemParsing filePath)].
      split; [by rewrite !emitting_app|]. split; [|split].
      * intros error' H.
        repeat (apply elem_of_cons in H as [H|H];
                [by (discriminate || injection H as ->)|]).
        by apply elem_of_nil in H.
      * intros H.
        repeat (apply elem_of_cons in H as [H|H]; [done|]).
        by apply elem_of_nil in H.
      * intros _. left. set_solver.
    + exists (Some ast), [CallBabelParseToAst fileStr filePath].
      split; [by rewrite !emitting_app|]. split; [|split]; [| |done].
      * intros error' H.
        apply elem_of_cons in H as [H|H]; [done|]. by apply elem_of_nil in H.
      * intros H.
        apply elem_of_cons in H as [H|H]; [done|]. by apply elem_of_nil in H.
  - unfold bind at 1.
    destruct (tryCandidates_returns filePath (item :: items)
                (emitting s [CallPreprocessSource filePath fileStr]))
      as (ast & events & -> & Hno).
    destruct ast as [ast|].
    + exists (Some ast), events.
      split; [by rewrite !emitting_app|]. split; [|split]; [|done|done].
      intros error H. by apply Hno in H.
    + unfold bind. simpl.
      exists None, (events ++ [ReportError (failedToParsePreprocessed filePath);
                               QueryExtractionGraphQLError filePath]).
      split; [by rewrite !emitting_app|]. split; [|split]; [|done|].
      * intros error [H|H]%elem_of_app; [by apply Hno in H|].
        repeat (apply elem_of_cons in H as [H|H]; [done|]).
        by apply elem_of_nil in H.
      * intros _. right. set_solver.
Qed.

End failure_facts.

(** ** The properties the passes give to a definition *)

Lemma pushes_refl P s : pushes P s s.
Proof. exists []. by rewrite app_nil_r. Qed.

Lemma pushes_trans P s1 s2 s3 : pushes P s1 s2 → pushes P s2 s3 → pushes P s1 s3.
Proof.
  intros (a1 & H1 & Ha1) (a2 & H2 & Ha2). exists (a1 ++ a2).
  rewrite H2, H1, app_assoc. split; [done|]. by apply Forall_app.
Qed.

Lemma pushes_emitting P s events : pushes P s (emitting s events).
Proof. exists []. simpl. by rewrite app_nil_r. Qed.

Lemma pushes_impl (P Q : definition → Prop) s s' :
  (∀ d, P d → Q d) → pushes P s s' → pushes Q s s'.
Proof.
  intros HPQ (a & H & Ha). exists a. split; [done|].
  by eapply Forall_impl.
Qed.

Lemma pushes_pushedBy {A} P (m : M A) s :
  pushes P s (m s).2 → Forall P (pushedBy m s).
Proof.
  intros (a & H & Ha). unfold pushedBy. by rewrite H, drop_app_length.
Qed.

Section per_pass.
Variable R : relation locatorState.
Hypothesis R_refl : ∀ s, R s s.
Hypothesis R_trans : ∀ s1 s2 s3, R s1 s2 → R s2 s3 → R s1 s3.
Variable camelCase : string → string.
Variable getGraphQLTag : node → tagResult.
Hypothesis R_warn : ∀ message s, R s (emitting s [ReportWarn message]).

Lemma respects_findVariable_of ast file varName usage isHook :
  (∀ path,
     respects R (extractStaticQuery camelCase getGraphQLTag file path isHook)) →
  respects R (findVariable camelCase getGraphQLTag ast file varName usage
                isHook).
Proof.
  intros R_static. unfold findVariable. apply (respects_bind R R_trans).
  - apply (respects_visitAll R R_refl R_trans). intros found varPath.
    unfold variableDeclaratorVisitor.
    destruct varPath; try apply (respects_ret R R_refl).
    case_decide; [|apply (respects_ret R R_refl)].
    destruct init as [e|]; [|apply (respects_throw R R_refl)].
    destruct (isTaggedTemplateExpression e); [|apply (respects_ret R R_refl)].
    apply (respects_visitAll R R_refl R_trans). intros f n.
    destruct n; try apply (respects_ret R R_refl).
    apply (respects_bind R R_trans); [apply R_static|].
    intros _. apply (respects_ret R R_refl).
  - intros [|]; [apply (respects_ret R R_refl)|]. intros s. apply R_warn.
Qed.

Lemma respects_staticQueryVisitor_of ast file path :
  (∀ path,
     respects R (extractStaticQuery camelCase getGraphQLTag file path false)) →
  respects R (staticQueryVisitor camelCase getGraphQLTag ast file path).
Proof.
  intros R_static. unfold staticQueryVisitor.
  destruct path; try apply (respects_ret R R_refl).
  case_decide; [|apply (respects_ret R R_refl)].
  apply (respects_traverse R R_refl R_trans). intros jsxPath.
  destruct jsxPath; try apply (respects_ret R R_refl).
  case_decide; [|apply (respects_ret R R_refl)].
  apply (respects_traverse R R_refl R_trans). intros p.
  destruct p; try apply (respects_ret R R_refl).
  - apply R_static.
  - case_decide; [by apply respects_findVariable_of|apply (respects_ret R R_refl)].
Qed.

Lemma respects_useStaticQueryVisitor_of ast file hookPath :
  (∀ path,
     respects R (extractStaticQuery camelCase getGraphQLTag file path true)) →
  respects R (useStaticQueryVisitor camelCase getGraphQLTag ast file hookPath).
Proof.
  intros R_static. unfold useStaticQueryVisitor.
  destruct hookPath; try apply (respects_ret R R_refl).
  destruct (_ || _); [apply (respects_ret R R_refl)|].
  apply (respects_traverse R R_refl R_trans). intros p.
  destruct p; try apply (respects_ret R R_refl).
  - apply R_static.
  - destruct (_ && _); [by apply respects_findVariable_of|apply (respects_ret R R_refl)].
Qed.

Lemma respects_pageQueryVisitor_of file path :
  (∀ path, respects R (extractPageQuery camelCase getGraphQLTag file path)) →
  respects R (pageQueryVisitor camelCase getGraphQLTag file path).
Proof.
  intros R_page. unfold pageQueryVisitor.
  destruct path; try apply (respects_ret R R_refl).
  apply (respects_traverse R R_refl R_trans). intros p.
  destruct p; try apply (respects_ret R R_refl).
  apply R_page.
Qed.
End per_pass.

Section traced_facts.
Variable camelCase : string → string.
Variable md5 : string → string.
Variable preprocessSource : string → string → list string.
Variable babelParseToAst : string → string → string + node.
Variable getGraphQLTag : node → tagResult.

Local Abbreviation extractStaticQuery :=
  (FileParser.extractStaticQuery camelCase getGraphQLTag).
Local Abbreviation extractPageQuery :=
  (FileParser.extractPageQuery camelCase getGraphQLTag).
Local Abbreviation staticQueryVisitor :=
  (FileParser.staticQueryVisitor camelCase getGraphQLTag).
Local Abbreviation useStaticQueryVisitor :=
  (FileParser.useStaticQueryVisitor camelCase getGraphQLTag).
Local Abbreviation pageQueryVisitor :=
  (FileParser.pageQueryVisitor camelCase getGraphQLTag).
Local Abbreviation passes := (FileParser.passes camelCase getGraphQLTag).
Local Abbreviation locateTags :=
  (FileParser.locateTags camelCase getGraphQLTag).
Local Abbreviation parseToAst :=
  (FileParser.parseToAst preprocessSource babelParseToAst).
Local Abbreviation findGraphQLTags :=
  (FileParser.findGraphQLTags camelCase preprocessSource babelParseToAst
     getGraphQLTag).
Local Abbreviation cachedFindGraphQLTags :=
  (FileParser.cachedFindGraphQLTags camelCase preprocessSource
     babelParseToAst getGraphQLTag).
Local Abbreviation parseFile :=
  (FileParser.parseFile camelCase md5 preprocessSource babelParseToAst
     getGraphQLTag).
Local Abbreviation fromTag := (Spec.fromTag getGraphQLTag).
Local Abbreviation traced := (Spec.traced getGraphQLTag).
Local Abbreviation cacheTraced := (Spec.cacheTraced getGraphQLTag).

(** What one [extractStaticQuery] pushes, by the answer of
    [getGraphQLTag]. *)
Lemma extractStaticQuery_marks file path isHook s :
  let pushed := pushedBy (extractStaticQuery file path isHook) s in
  match getGraphQLTag path with
  | Tag ds text h g =>
      Forall (λ d, named d ∧ markedWith isHook text h d) pushed
      ∧ loc_start <$> pushed = parsed_loc_start <$> ds
  | _ => pushed = []
  end.
Proof.
  intros pushed. unfold pushed, pushedBy. rewrite extractStaticQuery_run.
  destruct (getGraphQLTag path) as [e| |ds text h g] eqn:Htag; simpl;
    [by rewrite drop_all..|].
  rewrite drop_app_length. split.
  - unfold extracted. rewrite !Forall_map. apply Forall_true. intros d.
    split; [|done]. apply (generateQueryName_named camelCase).
  - unfold extracted.
    change (map (markStaticQuery isHook text h)
              (map (λ def, generateQueryName camelCase def h file)
                 (allocate (nextObject s) ds)))
      with ((markStaticQuery isHook text h)
              <$> ((λ def, generateQueryName camelCase def h file)
                     <$> allocate (nextObject s) ds)).
    rewrite <- (allocate_loc_start (nextObject s)).
    rewrite <- !list_fmap_compose. apply list_fmap_ext. intros _ d _. simpl.
    by destruct (generateQueryName_fields camelCase d h file) as (_ & -> & _).
Qed.

Lemma pushes_extractStaticQuery file path isHook :
  respects (pushes (λ d, named d ∧ fromTag isHook d))
    (extractStaticQuery file path isHook).
Proof.
  intros s. pose proof (extractStaticQuery_marks file path isHook s) as H.
  unfold pushedBy in H. cbn zeta in H.
  destruct (steps_extractStaticQuery camelCase getGraphQLTag file path isHook
              s) as [(added & _ & Hq & _) _].
  rewrite Hq, drop_app_length in H. exists added. split; [done|].
  destruct (getGraphQLTag path) as [e| |ds text h g] eqn:Htag;
    [by rewrite H..|].
  destruct H as [H _]. eapply Forall_impl; [done|].
  intros d [Hn Hm]. split; [done|]. by exists path, ds, text, h, g.
Qed.

Lemma pushes_extractPageQuery file path :
  respects (pushes (λ d, named d ∧ unmarked d)) (extractPageQuery file path).
Proof.
  intros s.
  pose proof (extractPageQuery_pushes_unmarked camelCase getGraphQLTag file
                path s) as H.
  unfold pushedBy in H.
  destruct (steps_extractPageQuery camelCase getGraphQLTag file path s)
    as [(added & _ & Hq & Hw & _) _].
  rewrite Hq, drop_app_length in H. exists added. split; [done|].
  apply Forall_forall. intros d Hd. split.
  - by apply (proj1 (Forall_forall _ _) Hw d Hd).
  - by apply (proj1 (Forall_forall _ _) H d Hd).
Qed.

(** The component pass pushes definitions marked with [isHook] false
    only, the hook pass definitions marked with [isHook] true only, the
    page-query pass unmarked definitions only. *)
Lemma pushes_componentPass ast file :
  respects (pushes (λ d, named d ∧ fromTag false d))
    (traverse ast (staticQueryVisitor ast file)).
Proof.
  apply respects_traverse; [apply pushes_refl|apply pushes_trans|].
  intros n. apply respects_staticQueryVisitor_of;
    [apply pushes_refl|apply pushes_trans| |].
  - intros message s. apply pushes_emitting.
  - intros path. apply pushes_extractStaticQuery.
Qed.

Lemma pushes_hookPass ast file :
  respects (pushes (λ d, named d ∧ fromTag true d))
    (traverse ast (useStaticQueryVisitor ast file)).
Proof.
  apply respects_traverse; [apply pushes_refl|apply pushes_trans|].
  intros n. apply respects_useStaticQueryVisitor_of;
    [apply pushes_refl|apply pushes_trans| |].
  - intros message s. apply pushes_emitting.
  - intros path. apply pushes_extractStaticQuery.
Qed.

Lemma pushes_pagePass ast file :
  respects (pushes (λ d, named d ∧ unmarked d))
    (traverse ast (pageQueryVisitor file)).
Proof.
  apply respects_traverse; [apply pushes_refl|apply pushes_trans|].
  intros n. apply respects_pageQueryVisitor_of;
    [apply pushes_refl|apply pushes_trans|].
  intros path. apply pushes_extractPageQuery.
Qed.

Lemma pushes_passes file ast : respects (pushes traced) (passes file ast).
Proof.
  unfold FileParser.passes.
  apply respects_bind; [apply pushes_trans| |].
  { intros s. eapply pushes_impl; [|apply pushes_componentPass].
    intros d [Hn Hm]. split; [done|]. right. by exists false. }
  intros _. apply respects_bind; [apply pushes_trans| |].
  { intros s. eapply pushes_impl; [|apply pushes_hookPass].
    intros d [Hn Hm]. split; [done|]. right. by exists true. }
  intros _ s. eapply pushes_impl; [|apply pushes_pagePass].
  intros d [Hn Hm]. split; [done|]. by left.
Qed.

Lemma findGraphQLTags_traced file text defs :
  (findGraphQLTags file text initialLocatorState).1 = Normal defs →
  Forall traced defs.
Proof.
  unfold FileParser.findGraphQLTags, bind.
  destruct (parseToAst_returns camelCase md5 preprocessSource babelParseToAst file text
              initialLocatorState) as (ast & events & -> & _).
  destruct ast as [ast|]; [|by intros [= <-] ].
  rewrite (locateTags_passes camelCase getGraphQLTag).
  destruct (pushes_passes file ast
              (emitting initialLocatorState
                 (CallPreprocessSource file text :: events)))
    as (added & Hq & Hadded).
  destruct (passes file ast _) as [[[]|e] s']; [|done].
  simpl in *. intros [= <-]. rewrite Hq. simpl.
  eapply Forall_sublist; [apply baseUniq_sublist|done].
Qed.

Lemma cachedFindGraphQLTags_traced key file text w :
  cacheTraced w →
  let result := cachedFindGraphQLTags key file text w in
  cacheTraced result.2 ∧ ∀ defs, result.1 = Normal defs → Forall traced defs.
Proof.
  intros Hw. unfold FileParser.cachedFindGraphQLTags.
  destruct (cache w !! key) as [defs|] eqn:Hkey; simpl.
  - split; [done|]. intros ? [= <-]. by apply (Hw key defs).
  - pose proof (findGraphQLTags_traced file text) as Hdefs.
    destruct (findGraphQLTags file text initialLocatorState) as [[defs|e] s];
      simpl in *; [|by split].
    split; [|by intros ? [= <-]; apply Hdefs].
    apply map_Forall_insert_2; [by apply Hdefs|done].
Qed.

Lemma traced_wellFormed d : traced d → wellFormed d.
Proof.
  intros [Hn [Hu|(b & path & ds & text & h & g & _ & H1 & H2 & H3 & H4)] ].
  - split; [done|]. by right.
  - split; [done|]. left. unfold markedStatic.
    rewrite H1, H2, H3, H4. eauto.
Qed.

(** C1, as the code has it.  Every definition of a returned document
    carries a non-empty name, and either none of [isStaticQuery],
    [isHook], [text] and [hash], or [isStaticQuery] true together with
    the text and the hash that [getGraphQLTag] returned for a template
    and the [isHook] flag of the pass; the cache keeps this shape.  One
    [extractStaticQuery] pushes one definition for each definition of
    the template, in order, each with the text and the hash of the
    answer of [getGraphQLTag] and the flag it was called with.  The
    component pass pushes definitions with [isHook] false only, the hook
    pass definitions with [isHook] true only, and the page-query pass
    definitions without any of the four properties only (a page query is
    told by carrying no [isStaticQuery]). *)
Theorem parseFile_definitions_wellFormed (file : string) (w : world) :
  cacheTraced w →
  let result := parseFile file w in
  cacheTraced result.2
  ∧ (∀ doc, result.1 = Some doc →
       Forall traced (definitions doc)
       ∧ Forall wellFormed (definitions doc))
  ∧ (∀ path isHook s,
       let pushed := pushedBy (extractStaticQuery file path isHook) s in
       match getGraphQLTag path with
       | Tag ds text h g =>
           Forall (λ d, named d ∧ markedWith isHook text h d) pushed
           ∧ loc_start <$> pushed = parsed_loc_start <$> ds
       | _ => pushed = []
       end)
  ∧ (∀ ast s,
       Forall (λ d, named d ∧ fromTag false d)
         (pushedBy (traverse ast (staticQueryVisitor ast file)) s))
  ∧ (∀ ast s,
       Forall (λ d, named d ∧ fromTag true d)
         (pushedBy (traverse ast (useStaticQueryVisitor ast file)) s))
  ∧ (∀ ast s,
       Forall (λ d, named d ∧ unmarked d)
         (pushedBy (traverse ast (pageQueryVisitor file)) s)).
Proof.
  intros Hw result.
  assert (Hresult : cacheTraced result.2
    ∧ ∀ doc, result.1 = Some doc → Forall traced (definitions doc)).
  { unfold result, FileParser.parseFile.
    destruct (fs w file) as [text|]; [|by split].
    case_decide; [by split|].
    destruct (cachedFindGraphQLTags_traced (md5 (file +:+ text)) file text w
                Hw) as [Hw1 Hdefs].
    destruct (cachedFindGraphQLTags _ file text w) as [[defs|e] w1];
      simpl in *; [|by split].
    split; [by case_decide|].
    destruct defs as [|d defs]; [done|]. intros doc [= <-]. by apply Hdefs. }
  destruct Hresult as [Hcache Hdoc].
  split; [done|]. split.
  { intros doc E. split; [by apply Hdoc|].
    eapply Forall_impl; [by apply Hdoc|]. apply traced_wellFormed. }
  split; [intros path isHook s; apply extractStaticQuery_marks|].
  split; [intros ast s; apply pushes_pushedBy, pushes_componentPass|].
  split; [intros ast s; apply pushes_pushedBy, pushes_hookPass|].
  intros ast s. apply pushes_pushedBy, pushes_pagePass.
Qed.

End traced_facts.

(** ** Queries written at the call site *)
Section inline_queries.
Variable camelCase : string → string.
Variable getGraphQLTag : node → tagResult.

Local Abbreviation extractStaticQuery :=
  (FileParser.extractStaticQuery camelCase getGraphQLTag).
Local Abbreviation extractPageQuery :=
  (FileParser.extractPageQuery camelCase getGraphQLTag).
Local Abbreviation staticQueryVisitor :=
  (FileParser.staticQueryVisitor camelCase getGraphQLTag).
Local Abbreviation useStaticQueryVisitor :=
  (FileParser.useStaticQueryVisitor camelCase getGraphQLTag).
Local Abbreviation pageQueryVisitor :=
  (FileParser.pageQueryVisitor camelCase getGraphQLTag).

(** X13: a template tagged [graphql] written at the call site is
    extracted exactly once, and the identifier of its tag is not taken
    for a variable: [<StaticQuery query={graphql`...`} />] is one
    extraction with [isHook] false, [useStaticQuery(graphql`...`)] one
    with [isHook] true when [useStaticQuery] is imported from gatsby and
    nothing at all when it is not, and
    [export const x = graphql`...`] one extraction of the page-query
    pass. *)
Theorem inline_query_call_sites (ast : node) (file x : string) (start : N)
    (raw : list string) (s : locatorState) :
  let template := TaggedTemplateExpression start (Identifier "graphql") raw [] in
  staticQueryVisitor ast file
    (JSXElement (Some "StaticQuery")
       [JSXAttribute (Some "query") (Some (Other [template]))] []) s
  = extractStaticQuery file template false s
  ∧ useStaticQueryVisitor ast file
      (CallExpression (Identifier "useStaticQuery") true [template]) s
    = extractStaticQuery file template true s
  ∧ useStaticQueryVisitor ast file
      (CallExpression (Identifier "useStaticQuery") false [template]) s
    = (Normal (), s)
  ∧ pageQueryVisitor file
      (ExportNamedDeclaration
         [Other [VariableDeclarator (Identifier x) (Some template)]]) s
    = extractPageQuery file template s.
Proof.
  intros template. split; [|split; [|split] ].
  - unfold FileParser.staticQueryVisitor, traverse, traverseWith.
    simpl. unfold bind, ret.
    by destruct (extractStaticQuery file template false s) as [[[]|e] s'].
  - unfold FileParser.useStaticQueryVisitor, traverse, traverseWith.
    simpl. unfold bind, ret.
    by destruct (extractStaticQuery file template true s) as [[[]|e] s'].
  - done.
  - unfold FileParser.pageQueryVisitor, traverse, traverseWith.
    simpl. unfold bind, ret.
    by destruct (extractPageQuery file template s) as [[[]|e] s'].
Qed.

End inline_queries.

(** ** The warning about the global tag changes nothing else *)
Section global_tag.
Variable camelCase : string → string.
Variable getGraphQLTag : node → tagResult.
Variable file : string.

Local Abbreviation R := (unwarned file).
Local Abbreviation kept := (λ e, notGlobalWarning file e = true).

Lemma alike_ret {A} (a : A) : alike R (ret a) (ret a).
Proof. by intros s s' H. Qed.

Lemma alike_throw {A} e : alike R (throw (A := A) e) (throw e).
Proof. by intros s s' H. Qed.

Lemma alike_bind {A B} (m m' : M A) (f f' : A → M B) :
  alike R m m' → (∀ a, alike R (f a) (f' a)) →
  alike R (bind m f) (bind m' f').
Proof.
  intros Hm Hf s s' H. unfold bind. destruct (Hm s s' H) as [H1 H2].
  destruct (m s) as [[a|e] s1], (m' s') as [[a'|e'] s1']; simpl in *;
    try discriminate.
  - injection H1 as <-. by apply Hf.
  - injection H1 as <-. by split.
Qed.

Lemma alike_visitAll {S} (visitor visitor' : S → node → M S) nodes a :
  (∀ a n, alike R (visitor a n) (visitor' a n)) →
  alike R (visitAll visitor a nodes) (visitAll visitor' a nodes).
Proof.
  intros Hv. revert a. induction nodes as [|n nodes IH]; intros a; simpl.
  - apply alike_ret.
  - apply alike_bind; [apply Hv|]. intros a'. apply IH.
Qed.

Lemma alike_traverse root (visitor visitor' : node → M unit) :
  (∀ n, alike R (visitor n) (visitor' n)) →
  alike R (traverse root visitor) (traverse root visitor').
Proof. intros Hv. apply alike_visitAll. intros _ n. apply Hv. Qed.

Lemma unwarned_emitting s s' events :
  R s s' → R (emitting s events) (emitting s' (filter kept events)).
Proof.
  intros (Hq & Hl & Hn & He). repeat split; try done.
  simpl. by rewrite He, filter_app.
Qed.

Lemma unwarned_emit s s' e :
  R s s' → kept e → R (emitting s [e]) (emitting s' [e]).
Proof.
  intros H He. apply (unwarned_emitting s s' [e]) in H.
  by rewrite filter_cons_True, filter_nil in H.
Qed.

Lemma unknownQueryVariable_kept varName usage :
  kept (ReportWarn (unknownQueryVariableMessage varName file usage)).
Proof. by vm_compute. Qed.

Lemma alike_extractStaticQuery path isHook :
  alike R (extractStaticQuery camelCase getGraphQLTag file path isHook)
    (extractStaticQuery camelCase (imported getGraphQLTag) file path isHook).
Proof.
  intros s s' H. rewrite !extractStaticQuery_run. unfold imported.
  destruct (getGraphQLTag path) as [e| |ds text h g]; simpl.
  - split; [done|]. by apply unwarned_emit.
  - split; [done|]. by apply unwarned_emit.
  - split; [done|]. destruct H as (Hq & Hl & Hn & He).
    unfold afterExtract. rewrite Hq, Hl, Hn, He. repeat split; simpl.
    rewrite filter_app. f_equal.
    destruct g; [|done]. rewrite filter_cons_True by done.
    rewrite filter_cons_False; [done|].
    simpl. by rewrite String.eqb_refl.
Qed.

Lemma alike_extractPageQuery path :
  alike R (extractPageQuery camelCase getGraphQLTag file path)
    (extractPageQuery camelCase (imported getGraphQLTag) file path).
Proof.
  intros s s' H. rewrite !extractPageQuery_run. unfold imported.
  destruct (getGraphQLTag path) as [e| |ds text h g]; simpl.
  - split; [done|]. by apply unwarned_emit.
  - split; [done|]. by apply unwarned_emit.
  - split; [done|]. destruct H as (Hq & Hl & Hn & He).
    unfold afterPageExtract. rewrite Hq, Hl, Hn, He. repeat split; simpl.
    rewrite filter_app. f_equal.
    destruct g; [|done]. rewrite filter_cons_True by done.
    rewrite filter_cons_False; [done|].
    simpl. by rewrite String.eqb_refl.
Qed.

Lemma alike_findVariable ast varName usage isHook :
  alike R
    (findVariable camelCase getGraphQLTag ast file varName usage isHook)
    (findVariable camelCase (imported getGraphQLTag) ast file varName usage
       isHook).
Proof.
  unfold findVariable. apply alike_bind.
  - apply alike_visitAll. intros found varPath.
    unfold variableDeclaratorVisitor.
    destruct varPath; try apply alike_ret.
    case_decide; [|apply alike_ret].
    destruct init as [e|]; [|apply alike_throw].
    destruct (isTaggedTemplateExpression e); [|apply alike_ret].
    apply alike_visitAll. intros f n.
    destruct n; try apply alike_ret.
    apply alike_bind; [apply alike_extractStaticQuery|].
    intros _. apply alike_ret.
  - intros [|]; [apply alike_ret|]. intros s s' H. split; [done|].
    apply unwarned_emit; [done|]. apply unknownQueryVariable_kept.
Qed.

Lemma alike_passes ast :
  alike R (passes camelCase getGraphQLTag file ast)
    (passes camelCase (imported getGraphQLTag) file ast).
Proof.
  unfold passes. apply alike_bind; [|intros _; apply alike_bind].
  - apply alike_traverse. intros path. unfold staticQueryVisitor.
    destruct path; try apply alike_ret.
    case_decide; [|apply alike_ret].
    apply alike_traverse. intros jsxPath.
    destruct jsxPath; try apply alike_ret.
    case_decide; [|apply alike_ret].
    apply alike_traverse. intros p.
    destruct p; try apply alike_ret.
    + apply alike_extractStaticQuery.
    + case_decide; [apply alike_findVariable|apply alike_ret].
  - apply alike_traverse. intros hookPath. unfold useStaticQueryVisitor.
    destruct hookPath; try apply alike_ret.
    destruct (_ || _); [apply alike_ret|].
    apply alike_traverse. intros p.
    destruct p; try apply alike_ret.
    + apply alike_extractStaticQuery.
    + destruct (_ && _); [apply alike_findVariable|apply alike_ret].
  - intros _. apply alike_traverse. intros path. unfold pageQueryVisitor.
    destruct path; try apply alike_ret.
    apply alike_traverse. intros p.
    destruct p; try apply alike_ret.
    apply alike_extractPageQuery.
Qed.

(** X25: the deprecated global tag costs a warning and nothing else.
    With the answers of [getGraphQLTag] changed so that no tag is global,
    the traversals of any syntax tree end the same way (the same result
    or the same error), with the same recorded definitions and
    locations, and the events are the same once the warnings about the
    global tag are left out. *)
Theorem global_tag_only_warns (ast : node) :
  let global :=
    locateTags camelCase getGraphQLTag file ast initialLocatorState in
  let local :=
    locateTags camelCase (imported getGraphQLTag) file ast
      initialLocatorState in
  local.1 = global.1
  ∧ queries local.2 = queries global.2
  ∧ documentLocations local.2 = documentLocations global.2
  ∧ emitted local.2
    = filter (λ e, notGlobalWarning file e = true) (emitted global.2).
Proof.
  intros global local. unfold global, local. rewrite !locateTags_passes.
  destruct (alike_passes ast initialLocatorState initialLocatorState)
    as [Hr (Hq & Hl & Hn & He)]; [by repeat split|].
  destruct (passes camelCase getGraphQLTag file ast initialLocatorState)
    as [[[]|e] s],
    (passes camelCase (imported getGraphQLTag) file ast initialLocatorState)
    as [[[]|e'] s']; simpl in *; try discriminate.
  - by rewrite Hq, Hl.
  - injection Hr as <-. done.
Qed.

End global_tag.

(** ** When [parseFile] returns null *)
Section null_results.
Variable camelCase : string → string.
Variable md5 : string → string.
Variable preprocessSource : string → string → list string.
Variable babelParseToAst : string → string → string + node.
Variable getGraphQLTag : node → tagResult.

Local Abbreviation findGraphQLTags :=
  (FileParser.findGraphQLTags camelCase preprocessSource babelParseToAst
     getGraphQLTag).
Local Abbreviation parseFile :=
  (FileParser.parseFile camelCase md5 preprocessSource babelParseToAst
     getGraphQLTag).

(** X26: a null result of [parseFile] has one of four causes, told apart
    by what the call leaves behind.  The file cannot be read: the
    problem is reported with the GraphQL-error notification and the
    cache is as it was.  The text does not contain the substring:
    nothing at all happens.  No definition was found, now or when the
    entry was stored: the cache holds the empty array under the key, and
    no success notification is fired.  The extraction threw: nothing is
    stored, and the log ends with the report of the problem and the
    GraphQL-error notification. *)
Theorem parseFile_null_cases (file : string) (w : world) :
  (parseFile file w).1 = None →
  let w' := (parseFile file w).2 in
  (fs w file = None
   ∧ w' = logged w [ReportError (problemReading file);
                    QueryExtractionGraphQLError file])
  ∨ (∃ text, fs w file = Some text ∧ indexOf text "graphql" = (-1)%Z
             ∧ w' = w)
  ∨ (∃ text, fs w file = Some text ∧ indexOf text "graphql" ≠ (-1)%Z
             ∧ cache w' !! md5 (file +:+ text) = Some []
             ∧ (cache w !! md5 (file +:+ text) = Some [] → w' = w)
             ∧ ∃ events, log w' = log w ++ events
                         ∧ Forall notSuccess events)
  ∨ (∃ text error s,
       fs w file = Some text
       ∧ cache w !! md5 (file +:+ text) = None
       ∧ findGraphQLTags file text initialLocatorState = (Thrown error, s)
       ∧ w' = logged w (emitted s
                        ++ [ReportError (problemParsingGraphQL file);
                            QueryExtractionGraphQLError file])).
Proof.
  intros Hnull w'. unfold w'. clear w'.
  destruct (fs w file) as [text|] eqn:Hfs.
  2:{ left. unfold FileParser.parseFile. by rewrite Hfs. }
  right.
  destruct (decide (indexOf text "graphql" = (-1)%Z)) as [Hidx|Hidx].
  { left. exists text. unfold FileParser.parseFile.
    by rewrite Hfs, decide_True. }
  right.
  destruct (cache w !! md5 (file +:+ text)) as [defs|] eqn:Hkey.
  { left. exists text.
    rewrite (parseFile_hit _ _ _ _ _ _ _ _ _ Hfs Hidx Hkey) in *.
    destruct defs; [|done]. simpl.
    repeat split; try done. exists []. by rewrite app_nil_r. }
  rewrite (parseFile_miss _ _ _ _ _ _ _ _ Hfs Hidx Hkey) in *.
  destruct (findGraphQLTags file text initialLocatorState)
    as [[defs|error] s] eqn:Hfind.
  - left. exists text. destruct defs; [|done]. simpl.
    split; [done|]. split; [done|]. split; [apply lookup_insert_eq|].
    split; [intros ?; congruence|]. exists (emitted s). split; [done|].
    by destruct (findGraphQLTags_wellFormed _ _ _ _ _ _ _ _ Hfind).
  - right. exists text, error, s. repeat split; try done.
    unfold logged. simpl. by rewrite app_assoc.
Qed.

End null_results.

(** * Properties of [createPages] *)
Module CodeReplsFacts.
Import CodeRepls CodeReplsSpec.
Local Open Scope run_scope.

(** ** Computations that only add effects *)

Lemma performs_ret {A} (P : effect → Prop) (a : A) : performs P (ret a).
Proof. intros s. exists []. by rewrite app_nil_r. Qed.

Lemma performs_throw {A} (P : effect → Prop) e :
  performs P (throw (A := A) e).
Proof. intros s. exists []. by rewrite app_nil_r. Qed.

Lemma performs_perform (P : effect → Prop) e : P e → performs P (perform e).
Proof. intros He s. exists [e]. split; [done|]. by constructor. Qed.

Lemma performs_bind {A B} (P : effect → Prop) (m : Run A) (f : A → Run B) :
  performs P m → (∀ a, performs P (f a)) → performs P (bind m f).
Proof.
  intros Hm Hf s. unfold bind. destruct (Hm s) as (e1 & H1 & HP1).
  destruct (m s) as [[a|e|] s1]; simpl in *; [|by exists e1..].
  destruct (Hf a s1) as (e2 & H2 & HP2).
  exists (e1 ++ e2). rewrite H2, H1, app_assoc. split; [done|].
  by apply Forall_app.
Qed.

Lemma performs_tryCatch {A} (P : effect → Prop) (m : Run A) handler :
  performs P m → (∀ e, performs P (handler e)) →
  performs P (tryCatch m handler).
Proof.
  intros Hm Hh s. unfold tryCatch. destruct (Hm s) as (e1 & H1 & HP1).
  destruct (m s) as [[a|e|] s1]; simpl in *; [by exists e1| |by exists e1].
  destruct (Hh e s1) as (e2 & H2 & HP2).
  exists (e1 ++ e2). rewrite H2, H1, app_assoc. split; [done|].
  by apply Forall_app.
Qed.

Lemma performs_forEach {A} (P : effect → Prop) (f : A → Run unit) l :
  (∀ x, x ∈ l → performs P (f x)) → performs P (forEach f l).
Proof.
  induction l as [|x l IH]; intros Hf; simpl.
  - apply performs_ret.
  - apply performs_bind; [apply Hf; by left|].
    intros _. apply IH. intros y Hy. apply Hf. by right.
Qed.

Lemma forEach_app {A} (f : A → Run unit) l1 l2 s :
  forEach f (l1 ++ l2) s
  = match forEach f l1 s with
    | (Returned _, s') => forEach f l2 s'
    | r => r
    end.
Proof.
  revert s. induction l1 as [|x l1 IH]; intros s; [done|].
  simpl. unfold bind. destruct (f x s) as [[[]|e|] s']; [apply IH|done..].
Qed.

Lemma created_app l k : created (l ++ k) = created l ++ created k.
Proof. apply omap_app. Qed.

Lemma filesRead_app l k : filesRead (l ++ k) = filesRead l ++ filesRead k.
Proof. apply omap_app. Qed.

Lemma created_reads (l : list string) : created (ReadFileSync <$> l) = [].
Proof. unfold created. induction l as [|f l IH]; [done|]. by simpl. Qed.

Lemma filesRead_reads (l : list string) :
  filesRead (ReadFileSync <$> l) = l.
Proof.
  unfold filesRead. induction l as [|f l IH]; [done|].
  simpl. f_equal. apply IH.
Qed.

Lemma endsWith_append s suffix : endsWith (s +:+ suffix) suffix = true.
Proof.
  induction s as [|c s IH].
  - change (EmptyString +:+ suffix) with suffix.
    destruct suffix; simpl; [done|]. by rewrite bool_decide_eq_true_2.
  - change (String c s +:+ suffix) with (String c (s +:+ suffix)).
    simpl. rewrite IH. by destruct (bool_decide _).
Qed.

Lemma skip_append (a b : string) : skip (String.length a) (a +:+ b) = b.
Proof.
  induction a as [|c a IH]; [by destruct b|].
  change (String c a +:+ b) with (String c (a +:+ b)). by simpl.
Qed.

Lemma replaceFirst_prefix (pattern replacement s : string) :
  String.prefix pattern s = true →
  replaceFirst pattern replacement s
  = replacement +:+ skip (String.length pattern) s.
Proof. intros Hp. destruct s; cbn [replaceFirst]; by rewrite Hp. Qed.

Lemma replaceFirst_later (pattern replacement : string) c (s : string) :
  String.prefix pattern (String c s) = false →
  replaceFirst pattern replacement (String c s)
  = String c (replaceFirst pattern replacement s).
Proof. intros Hp. cbn [replaceFirst]. by rewrite Hp. Qed.

(** Replacing where [indexOf] finds the pattern. *)
Lemma replaceFirst_at (pattern replacement pre rest : string) (i : Z) :
  indexOfFrom pattern (pre +:+ pattern +:+ rest) i
  = (i + Z.of_nat (String.length pre))%Z →
  replaceFirst pattern replacement (pre +:+ pattern +:+ rest)
  = pre +:+ replacement +:+ rest.
Proof.
  revert i. induction pre as [|c pre IH]; intros i Hi.
  - change (EmptyString +:+ pattern +:+ rest) with (pattern +:+ rest).
    change (EmptyString +:+ replacement +:+ rest)
      with (replacement +:+ rest).
    rewrite replaceFirst_prefix by (apply prefix_true_iff; by exists rest).
    by rewrite skip_append.
  - change (String c pre +:+ pattern +:+ rest)
      with (String c (pre +:+ pattern +:+ rest)) in *.
    change (String c pre +:+ replacement +:+ rest)
      with (String c (pre +:+ replacement +:+ rest)).
    cbn [indexOfFrom] in Hi.
    destruct (String.prefix pattern (String c (pre +:+ pattern +:+ rest)))
      eqn:Hp.
    + exfalso. simpl String.length in Hi. lia.
    + rewrite replaceFirst_later by done.
      f_equal. apply (IH (i + 1)%Z). rewrite Hi.
      simpl String.length. lia.
Qed.

Section facts.
Variable OPTION_DEFAULT_LINK_TEXT : string.
Variable OPTION_DEFAULT_CODEPEN : codepenOptions.
Variable existsSync : string → bool.
Variable readdir : string → jsError + list string.
Variable readFileSync : string → jsError + string.
Variable extname : string → string.
Variable RegExp : string → jsError + (string → string → string).
Variable stringify : prefill → string.
Variable normalizedResolve : string → string.
Variable panicReturns : bool.

Local Abbreviation createPages :=
  (CodeRepls.createPages OPTION_DEFAULT_LINK_TEXT OPTION_DEFAULT_CODEPEN
     existsSync readdir readFileSync extname RegExp stringify
     normalizedResolve panicReturns).
Local Abbreviation createPagesIn :=
  (CodeRepls.createPagesIn existsSync readdir readFileSync extname
     RegExp stringify normalizedResolve panicReturns).
Local Abbreviation forFile :=
  (CodeRepls.forFile readFileSync extname RegExp stringify
     normalizedResolve).
Local Abbreviation directoryOf :=
  (CodeRepls.directoryOf OPTION_DEFAULT_LINK_TEXT).
Local Abbreviation codepenOf := (CodeRepls.codepenOf OPTION_DEFAULT_CODEPEN).
Local Abbreviation panic := (CodeRepls.panic panicReturns).
Local Abbreviation isScript := (CodeReplsSpec.isScript extname).
Local Abbreviation slugOf := (CodeReplsSpec.slugOf extname RegExp).
Local Abbreviation cssFile := (CodeReplsSpec.cssFile extname).
Local Abbreviation matchingCSS :=
  (CodeReplsSpec.matchingCSS readFileSync extname).
Local Abbreviation readable :=
  (CodeReplsSpec.readable readFileSync extname RegExp).
Local Abbreviation unreadable :=
  (CodeReplsSpec.unreadable readFileSync extname RegExp).
Local Abbreviation pageFor :=
  (CodeReplsSpec.pageFor readFileSync extname RegExp stringify
     normalizedResolve).
Local Abbreviation readsFor := (CodeReplsSpec.readsFor extname).
Local Abbreviation permitted :=
  (CodeReplsSpec.permitted extname RegExp normalizedResolve).

Lemma directoryOf_endsWith options directory :
  directoryOf options = inr directory → endsWith directory "/" = true.
Proof.
  unfold CodeRepls.directoryOf.
  destruct (default _ _) as [d| |]; [|done..]. intros [= <-].
  destruct (endsWith d "/") eqn:E; [done|]. apply endsWith_append.
Qed.

(** [createPages] on a directory that is a string. *)
Lemma createPages_directory options directory s :
  directoryOf options = inr directory →
  createPages options s = createPagesIn directory (codepenOf options) s.
Proof. intros H. unfold CodeRepls.createPages. by rewrite H. Qed.

(** *** One file *)

Lemma forFile_other directory codepen file s :
  isScript file = false → forFile directory codepen file s = (Returned (), s).
Proof.
  unfold CodeReplsSpec.isScript, CodeRepls.forFile. by intros ->.
Qed.

Lemma forFile_readable directory codepen file s :
  isScript file = true → readable directory codepen file →
  forFile directory codepen file s
  = (Returned (),
     s ++ (ReadFileSync <$> readsFor codepen file)
       ++ [CreatePage (pageFor directory codepen file)]).
Proof.
  unfold CodeReplsSpec.isScript, CodeRepls.forFile.
  intros -> ([slug Hslug] & [contents Hread] & Hcss).
  unfold CodeReplsSpec.pageFor. rewrite Hslug.
  unfold CodeReplsSpec.slugOf in Hslug.
  unfold CodeReplsSpec.readsFor, callReadFileSync,
    tryCatch, bind, perform, ret, throw.
  destruct (RegExp ("^" +:+ directory)) as [error|re]; [done|].
  injection Hslug as <-.
  simpl. rewrite Hread.
  destruct (includeMatchingCSS codepen); simpl.
  - destruct (Hcss eq_refl) as [css Hm]. rewrite Hm.
    unfold CodeReplsSpec.matchingCSS, CodeReplsSpec.cssFile in Hm.
    destruct (readFileSync (replaceFirst (extname file) ".css" file))
      as [err|c]; simpl.
    + destruct (bool_decide (code err ≠ Some "ENOENT")); [done|].
      injection Hm as <-. simpl. by rewrite <- !app_assoc.
    + injection Hm as <-. simpl. by rewrite <- !app_assoc.
  - by rewrite <- !app_assoc.
Qed.

Lemma forFile_unreadable directory codepen file error s :
  isScript file = true → unreadable directory codepen file error →
  ∃ reads,
    forFile directory codepen file s
    = (Threw error, s ++ (ReadFileSync <$> reads))
    ∧ reads `prefix_of` readsFor codepen file.
Proof.
  unfold CodeReplsSpec.isScript, CodeRepls.forFile.
  intros -> [Hslug|[[slug Hslug] Hreads] ];
    unfold CodeReplsSpec.slugOf in Hslug;
    destruct (RegExp ("^" +:+ directory)) as [error'|re]; try done.
  - injection Hslug as ->. exists []. unfold bind, throw. simpl.
    rewrite app_nil_r. split; [done|]. apply prefix_nil.
  - destruct Hreads as [Hread|([contents Hread] & Hinc & Hcss)].
    + exists [file]. unfold callReadFileSync, bind, perform, throw, ret.
      simpl. rewrite Hread. split; [done|].
      unfold CodeReplsSpec.readsFor. by apply prefix_cons, prefix_nil.
    + exists (readsFor codepen file).
      unfold CodeReplsSpec.readsFor, callReadFileSync, tryCatch, bind,
        perform, ret, throw.
      simpl. rewrite Hread, Hinc. simpl.
      unfold CodeReplsSpec.matchingCSS, CodeReplsSpec.cssFile in Hcss.
      destruct (readFileSync (replaceFirst (extname file) ".css" file))
        as [err|c]; simpl; [|done].
      destruct (bool_decide (code err ≠ Some "ENOENT")); [|done].
      injection Hcss as ->. split; [|done]. by rewrite <- !app_assoc.
Qed.

(** X27: with [includeMatchingCSS], the style sheet of a script is read
    at the path in which the first occurrence of the extension is
    replaced by [.css], right after the script itself.  That is the file
    of the same name beside the script when the extension occurs only at
    the end of the path; when it occurs earlier, as in a directory name,
    the earlier occurrence is the one replaced and the rest of the path,
    extension included, is kept. *)
Theorem matchingCSS_first_occurrence (directory : string)
    (codepen : codepenOptions) (pre ext rest : string) (s : list effect) :
  let file := pre +:+ ext +:+ rest in
  extname file = ext →
  indexOf file ext = Z.of_nat (String.length pre) →
  isScript file = true →
  includeMatchingCSS codepen = true →
  (∃ slug, slugOf directory file = inr slug) →
  (∃ contents, readFileSync file = inr contents) →
  ∃ effects,
    (forFile directory codepen file s).2
    = s ++ ReadFileSync file
        :: ReadFileSync (pre +:+ ".css" +:+ rest) :: effects
    ∧ filesRead effects = [].
Proof.
  intros file Hext Hfirst Hscript Hinc Hslug Hread.
  assert (Hcss : cssFile file = pre +:+ ".css" +:+ rest).
  { unfold CodeReplsSpec.cssFile. rewrite Hext.
    apply (replaceFirst_at ext ".css" pre rest 0). by rewrite <- Hfirst. }
  destruct (matchingCSS file) as [error|css] eqn:Hm.
  - destruct (forFile_unreadable directory codepen file error s Hscript)
      as (reads & Hrun & Hreads).
    { right. split; [done|]. right. done. }
    assert (Hall : reads = readsFor codepen file).
    { revert Hrun. unfold CodeRepls.forFile.
      unfold CodeReplsSpec.isScript in Hscript. rewrite Hscript.
      destruct Hslug as [slug Hslug]. unfold CodeReplsSpec.slugOf in Hslug.
      destruct (RegExp ("^" +:+ directory)) as [e|re]; [done|].
      destruct Hread as [contents Hread].
      unfold CodeReplsSpec.readsFor, callReadFileSync, tryCatch, bind,
        perform, ret, throw.
      simpl. rewrite Hread, Hinc. simpl.
      unfold CodeReplsSpec.matchingCSS in Hm. fold (cssFile file).
      destruct (readFileSync (cssFile file)) as [err|c]; simpl; [|done].
      destruct (bool_decide (code err ≠ Some "ENOENT")); [|done].
      rewrite <- !app_assoc. intros [= _ E]. apply app_inv_head in E.
      simpl in E. destruct reads as [|r1 [|r2 [|r3 reads] ] ]; try done.
      by injection E as <- <-. }
    rewrite Hrun, Hall. unfold CodeReplsSpec.readsFor. rewrite Hinc.
    fold (cssFile file). rewrite Hcss. by exists [].
  - rewrite forFile_readable; [|done|].
    2:{ split; [done|]. split; [done|]. intros _. by exists css. }
    unfold CodeReplsSpec.readsFor. rewrite Hinc. fold (cssFile file).
    rewrite Hcss. simpl. by eexists.
Qed.

(** The files up to the first one that fails. *)
Lemma forEach_readable directory codepen files s :
  Forall (λ file, isScript file = true → readable directory codepen file)
    files →
  ∃ effects,
    forEach (forFile directory codepen) files s = (Returned (), s ++ effects)
    ∧ created effects = pageFor directory codepen <$> filter
                          (λ file, isScript file = true) files
    ∧ filesRead effects
      = flat_map (readsFor codepen) (filter (λ file, isScript file = true)
                                       files)
    ∧ Forall silent effects.
Proof.
  revert s. induction files as [|file files IH]; intros s Hfiles.
  { exists []. by rewrite app_nil_r. }
  apply Forall_cons in Hfiles as [Hfile Hfiles].
  simpl forEach. unfold bind.
  destruct (isScript file) eqn:Hscript.
  - rewrite (forFile_readable _ _ _ _ Hscript (Hfile eq_refl)).
    destruct (IH (s ++ (ReadFileSync <$> readsFor codepen file)
                    ++ [CreatePage (pageFor directory codepen file)]) Hfiles)
      as (effects & -> & Hcreated & Hread & Hpanic).
    exists (((ReadFileSync <$> readsFor codepen file)
             ++ [CreatePage (pageFor directory codepen file)]) ++ effects).
    split; [by rewrite !app_assoc|].
    rewrite filter_cons_True by done.
    rewrite !created_app, !filesRead_app, Hcreated, Hread.
    rewrite created_reads, filesRead_reads.
    split; [done|]. split; [by rewrite app_nil_r|].
    apply Forall_app. split; [|done].
    apply Forall_app. split; [|by repeat constructor].
    apply Forall_fmap, Forall_true. by intros f.
  - rewrite (forFile_other _ _ _ _ Hscript).
    destruct (IH s Hfiles) as (effects & -> & Hcreated & Hread & Hpanic).
    exists effects. rewrite filter_cons_False by (by rewrite Hscript).
    done.
Qed.

(** *** The whole function *)

Lemma createPagesIn_listing directory codepen s :
  existsSync directory = true →
  existsSync (redirectTemplate codepen) = true →
  createPagesIn directory codepen s
  = match readdir directory with
    | inl error =>
        panic (cannotReadDirectory directory) (Some error)
          (s ++ [Readdir directory])
    | inr [] =>
        (Returned (),
         s ++ [Readdir directory; ConsoleWarn (noFiles directory)])
    | inr files =>
        match forEach (forFile directory codepen) files
                (s ++ [Readdir directory]) with
        | (Threw error, s') =>
            panic (cannotReadDirectory directory) (Some error) s'
        | r => r
        end
    end.
Proof.
  intros Hd Ht. unfold CodeRepls.createPagesIn. rewrite Hd, Ht.
  unfold bind at 1. unfold ret at 1. unfold bind at 1. unfold ret at 1.
  unfold tryCatch, callReaddir, bind, perform, throw, ret. simpl.
  destruct (readdir directory) as [error|[|file files] ]; simpl; [done| |done].
  by rewrite <- app_assoc.
Qed.

Lemma createPagesIn_files directory codepen files s :
  existsSync directory = true →
  existsSync (redirectTemplate codepen) = true →
  readdir directory = inr files →
  files ≠ [] →
  createPagesIn directory codepen s
  = match forEach (forFile directory codepen) files
            (s ++ [Readdir directory]) with
    | (Threw error, s') =>
        panic (cannotReadDirectory directory) (Some error) s'
    | r => r
    end.
Proof.
  intros Hd Ht Hfiles Hne. rewrite createPagesIn_listing, Hfiles by done.
  by destruct files.
Qed.

(** X14: when the directory and the redirect template exist and the
    listing is empty, [createPages] warns on the console that the
    directory contains no files and creates no page, reads no file and
    does not panic; when the listing fails, the only report is the panic
    that names the directory and passes the error on, and the function
    returns normally if the reporter does.  The directory is the option
    (a string), the default applied, with a slash at its end. *)
Theorem createPages_empty_or_unlisted (options : option pluginOptions)
    (directory : string) (s : list effect) :
  directoryOf options = inr directory →
  let codepen := codepenOf options in
  existsSync directory = true →
  existsSync (redirectTemplate codepen) = true →
  (readdir directory = inr [] →
   createPages options s
   = (Returned (), s ++ [Readdir directory; ConsoleWarn (noFiles directory)]))
  ∧ (∀ error, readdir directory = inl error →
       createPages options s
       = (if panicReturns then Returned () else Exited,
          s ++ [Readdir directory;
                ReporterPanic (cannotReadDirectory directory) (Some error)])).
Proof.
  intros Hdir codepen Hd Ht. rewrite (createPages_directory _ _ _ Hdir).
  fold codepen. rewrite createPagesIn_listing by done.
  split.
  - by intros ->.
  - intros error ->. unfold CodeRepls.panic. by rewrite <- app_assoc.
Qed.

(** X15: when the directory (a string) and the redirect template exist,
    the directory makes a regular expression and every [.js] or [.jsx]
    file of the listing can be read (and, with [includeMatchingCSS], its
    style sheet can be read or does not exist), [createPages] creates
    exactly one page per such file, in listing order, each with the slug
    of the file, the redirect template as component, the CodePen action
    and the payload made from the code and the style sheet; it reads
    those files and their style sheets and no other file, and neither
    warns nor panics. *)
Theorem createPages_script_pages (options : option pluginOptions)
    (directory : string) (files : list string) (s : list effect) :
  directoryOf options = inr directory →
  let codepen := codepenOf options in
  existsSync directory = true →
  existsSync (redirectTemplate codepen) = true →
  readdir directory = inr files →
  files ≠ [] →
  Forall (λ file, isScript file = true → readable directory codepen file)
    files →
  ∃ effects,
    createPages options s = (Returned (), s ++ Readdir directory :: effects)
    ∧ created effects
      = pageFor directory codepen
          <$> filter (λ file, isScript file = true) files
    ∧ filesRead effects
      = flat_map (readsFor codepen)
          (filter (λ file, isScript file = true) files)
    ∧ Forall silent effects.
Proof.
  intros Hdir codepen Hd Ht Hfiles Hne Hread.
  rewrite (createPages_directory _ _ _ Hdir). fold codepen.
  rewrite (createPagesIn_files _ _ files) by done.
  destruct (forEach_readable directory codepen files
              (s ++ [Readdir directory]) Hread)
    as (effects & -> & Hcreated & Hreads & Hsilent).
  exists effects. by rewrite <- app_assoc.
Qed.

(** X16: the first [.js] or [.jsx] file for which something throws ends
    the run: the [RegExp] constructor on a directory that is no regular
    expression (then this is the first such file of the listing, and
    nothing was read for it), the read of the file, or the read of its
    style sheet with another error than a missing file.  The pages of
    the files before it stay created, the error goes to
    [reporter.panic] with the message that names the directory, and
    neither that file nor any file after it gets a page or is read
    further. *)
Theorem createPages_stops_at_unreadable (options : option pluginOptions)
    (directory : string) (before : list string) (file : string)
    (after : list string) (error : jsError) (s : list effect) :
  directoryOf options = inr directory →
  let codepen := codepenOf options in
  existsSync directory = true →
  existsSync (redirectTemplate codepen) = true →
  readdir directory = inr (before ++ file :: after) →
  Forall (λ file, isScript file = true → readable directory codepen file)
    before →
  isScript file = true →
  unreadable directory codepen file error →
  ∃ effects reads,
    createPages options s
    = (if panicReturns then Returned () else Exited,
       s ++ Readdir directory :: effects ++ (ReadFileSync <$> reads)
         ++ [ReporterPanic (cannotReadDirectory directory) (Some error)])
    ∧ created effects
      = pageFor directory codepen
          <$> filter (λ file, isScript file = true) before
    ∧ Forall silent effects
    ∧ reads `prefix_of` readsFor codepen file
    ∧ (slugOf directory file = inl error →
       reads = [] ∧ created effects = []).
Proof.
  intros Hdir codepen Hd Ht Hfiles Hbefore Hscript Hfile.
  rewrite (createPages_directory _ _ _ Hdir). fold codepen.
  rewrite (createPagesIn_files _ _ (before ++ file :: after));
    [|done|done|done|by destruct before].
  rewrite forEach_app.
  destruct (forEach_readable directory codepen before
              (s ++ [Readdir directory]) Hbefore)
    as (effects & -> & Hcreated & _ & Hsilent).
  simpl forEach. unfold bind.
  destruct (forFile_unreadable directory codepen file error
              ((s ++ [Readdir directory]) ++ effects) Hscript Hfile)
    as (reads & Hrun & Hreads).
  rewrite Hrun.
  exists effects, reads. unfold CodeRepls.panic.
  split; [f_equal; by rewrite <- !app_assoc|].
  split; [done|]. split; [done|]. split; [done|].
  intros Hslug. split.
  - revert Hrun. unfold CodeRepls.forFile.
    unfold CodeReplsSpec.isScript in Hscript. rewrite Hscript.
    unfold CodeReplsSpec.slugOf in Hslug.
    destruct (RegExp ("^" +:+ directory)) as [e|re]; [|done].
    unfold bind, throw. simpl. intros [= _ E].
    rewrite <- (app_nil_r ((s ++ [Readdir directory]) ++ effects)) in E at 1.
    apply app_inv_head in E. by destruct reads.
  - rewrite Hcreated.
    assert (Hnone : ∀ l, Forall (λ file, isScript file = true
                                        → readable directory codepen file) l →
              filter (λ file, isScript file = true) l = []).
    { induction 1 as [|f l Hf _ IH]; [done|].
      destruct (isScript f) eqn:Hs.
      - destruct (Hf eq_refl) as ([slug Hok] & _).
        unfold CodeReplsSpec.slugOf in Hslug, Hok.
        destruct (RegExp ("^" +:+ directory)); done.
      - by rewrite filter_cons_False by (by rewrite Hs). }
    by rewrite Hnone.
Qed.

(** *** What the function can do at all *)

Lemma never_throws_bind {A B} (m : Run A) (f : A → Run B) :
  (∀ s e, (m s).1 ≠ Threw e) → (∀ a s e, (f a s).1 ≠ Threw e) →
  ∀ s e, (bind m f s).1 ≠ Threw e.
Proof.
  intros Hm Hf s e. unfold bind. specialize (Hm s).
  destruct (m s) as [[a|e'|] s']; simpl in *; [apply Hf|by destruct (Hm e')|done].
Qed.

Lemma never_throws_panic message error s e :
  (panic message error s).1 ≠ Threw e.
Proof. unfold CodeRepls.panic. simpl. by destruct panicReturns. Qed.

Lemma never_throws_check (b : bool) message s e :
  ((if b then ret () else panic message None) s).1 ≠ Threw e.
Proof. destruct b; [done|apply never_throws_panic]. Qed.

Lemma createPagesIn_never_throws directory codepen s e :
  (createPagesIn directory codepen s).1 ≠ Threw e.
Proof.
  unfold CodeRepls.createPagesIn.
  apply never_throws_bind; [intros; apply never_throws_check|].
  intros _. apply never_throws_bind; [intros; apply never_throws_check|].
  intros _ s' e'. unfold tryCatch.
  destruct (bind _ _ s') as [[a|e0|] s0]; [done| |done].
  apply never_throws_panic.
Qed.

Section permitted.
Variable directory : string.
Variable codepen : codepenOptions.
Variable files : list string.

Local Abbreviation P := (permitted directory codepen files).

Lemma performs_check (b : bool) message :
  P (ReporterPanic message None) →
  performs P (if b then ret () else panic message None).
Proof.
  intros HP. destruct b; [apply performs_ret|].
  intros s. exists [ReporterPanic message None].
  split; [done|]. by constructor.
Qed.

Lemma performs_forFile file :
  file ∈ files → performs P (forFile directory codepen file).
Proof.
  intros Hin. unfold CodeRepls.forFile.
  destruct (bool_decide (extname file = ".js")
            || bool_decide (extname file = ".jsx")) eqn:Hscript;
    [|apply performs_ret].
  intros s. unfold bind at 1.
  destruct (RegExp ("^" +:+ directory)) as [error|re] eqn:Hre.
  { exists []. by rewrite app_nil_r. }
  unfold ret at 1. revert s.
  apply performs_bind.
  { unfold callReadFileSync. apply performs_bind.
    - apply performs_perform. exists file.
      split; [done|]. split; [done|]. by left.
    - intros _. destruct (readFileSync file);
        [apply performs_throw|apply performs_ret]. }
  intros code0. apply performs_bind.
  { destruct (includeMatchingCSS codepen) eqn:Hinc; [|apply performs_ret].
    apply performs_tryCatch.
    - apply performs_bind.
      + unfold callReadFileSync. apply performs_bind.
        * apply performs_perform. exists file.
          split; [done|]. split; [done|].
          unfold CodeReplsSpec.readsFor. rewrite Hinc. right. by left.
        * intros _. destruct (readFileSync _);
            [apply performs_throw|apply performs_ret].
      + intros c. apply performs_ret.
    - intros e. destruct (bool_decide (code e ≠ Some "ENOENT"));
        [apply performs_throw|apply performs_ret]. }
  intros css0. apply performs_perform. exists file.
  split; [done|]. split; [done|]. split; [|done].
  unfold CodeReplsSpec.slugOf. by rewrite Hre.
Qed.

Hypothesis files_listed :
  files = match readdir directory with inr files => files | inl _ => [] end.

(** The [try] statement. *)
Lemma performs_listing :
  performs P
    (tryCatch
       (bind (callReaddir readdir directory)
          (λ files,
             match files with
             | [] => perform (ConsoleWarn (noFiles directory))
             | _ :: _ => forEach (forFile directory codepen) files
             end))
       (λ error, panic (cannotReadDirectory directory) (Some error))).
Proof.
  assert (Hpanic : ∀ error,
            performs P (panic (cannotReadDirectory directory) (Some error))).
  { intros error s.
    exists [ReporterPanic (cannotReadDirectory directory) (Some error)].
    split; [done|]. constructor; [|done]. simpl. auto. }
  intros s. unfold tryCatch, callReaddir.
  unfold bind at 1. unfold bind at 1. unfold perform at 1.
  pose proof files_listed as Hlisted.
  destruct (readdir directory) as [error|listing] eqn:Hlisting.
  - unfold throw at 1. destruct (Hpanic error (s ++ [Readdir directory]))
      as (effects & -> & HP).
    exists (Readdir directory :: effects).
    split; [by rewrite <- app_assoc|]. by constructor.
  - unfold ret at 1.
    assert (Hfiles : files = listing) by done.
    destruct (performs_tryCatch P
                (match listing with
                 | [] => perform (ConsoleWarn (noFiles directory))
                 | _ :: _ => forEach (forFile directory codepen) listing
                 end)
                (λ error, panic (cannotReadDirectory directory) (Some error)))
      with (s := s ++ [Readdir directory]) as (effects & Heff & HP).
    + destruct listing as [|file rest]; [by apply performs_perform|].
      apply performs_forEach. intros x Hx. apply performs_forFile.
      by rewrite Hfiles.
    + apply Hpanic.
    + unfold tryCatch in Heff. exists (Readdir directory :: effects).
      rewrite Heff. split; [by rewrite <- app_assoc|]. by constructor.
Qed.

Lemma performs_afterDirectory :
  performs P
    (bind (if existsSync (redirectTemplate codepen) then ret ()
           else panic (invalidRedirectTemplate (redirectTemplate codepen))
                  None)
       (λ _,
          tryCatch
            (bind (callReaddir readdir directory)
               (λ files,
                  match files with
                  | [] => perform (ConsoleWarn (noFiles directory))
                  | _ :: _ => forEach (forFile directory codepen) files
                  end))
            (λ error, panic (cannotReadDirectory directory) (Some error)))).
Proof.
  apply performs_bind; [apply performs_check; simpl; auto|].
  intros _. apply performs_listing.
Qed.

Lemma performs_createPagesIn : performs P (createPagesIn directory codepen).
Proof.
  unfold CodeRepls.createPagesIn.
  apply performs_bind; [apply performs_check; simpl; auto|].
  intros _. apply performs_afterDirectory.
Qed.

End permitted.

(** X17: whatever the options and the file system.  When the
    [directory] option is a value that is not a string (and not
    undefined), [createPages] throws the TypeError of the call of
    [endsWith], before any effect.  Otherwise it never throws: every
    error of the listing, of the [RegExp] constructor or of a read ends
    in [reporter.panic].  It lists only the directory, which ends with a
    slash; it reads only [.js] and [.jsx] files of the listing and, with
    [includeMatchingCSS] only, their style sheets; it creates pages only
    for such files, with the slug of the file as path, the redirect
    template as component and the CodePen action; its only warning is
    the one about the empty directory, and its panics carry one of the
    three messages. *)
Theorem createPages_permitted (options : option pluginOptions)
    (s : list effect) :
  let codepen := codepenOf options in
  match directoryOf options with
  | inl error =>
      createPages options s = (Threw error, s)
      ∧ ∃ given, options ≫= CodeRepls.directory = Some given
                 ∧ ∀ text, given ≠ DirectoryString text
  | inr directory =>
      let files :=
        match readdir directory with inr files => files | inl _ => [] end in
      endsWith directory "/" = true
      ∧ (∀ error, (createPages options s).1 ≠ Threw error)
      ∧ ∃ effects,
          (createPages options s).2 = s ++ effects
          ∧ Forall (permitted directory codepen files) effects
  end.
Proof.
  intros codepen.
  destruct (directoryOf options) as [error|directory] eqn:Hdir.
  - split; [unfold CodeRepls.createPages; by rewrite Hdir|].
    revert Hdir. unfold CodeRepls.directoryOf.
    destruct (options ≫= CodeRepls.directory) as [ [d| |]|]; simpl; try done;
      intros _; eexists; (split; [done|]); by intros text.
  - intros files.
    split; [by eapply directoryOf_endsWith|].
    rewrite (createPages_directory _ _ _ Hdir).
    split; [intros error; apply createPagesIn_never_throws|].
    by apply performs_createPagesIn.
Qed.

(** X18: a directory that does not exist is reported to
    [reporter.panic] before anything is listed or read, and so is a
    redirect template that does not exist when the directory exists;
    with a reporter that ends the process this report is the only
    effect.  The directory is the option (a string), the default
    applied, with a slash at its end. *)
Theorem createPages_invalid_paths (options : option pluginOptions)
    (directory : string) (s : list effect) :
  directoryOf options = inr directory →
  let codepen := codepenOf options in
  (existsSync directory = false →
   ∃ rest,
     (createPages options s).2
     = s ++ ReporterPanic (invalidDirectory directory) None :: rest
     ∧ (panicReturns = false →
        rest = [] ∧ (createPages options s).1 = Exited))
  ∧ (existsSync directory = true →
     existsSync (redirectTemplate codepen) = false →
     ∃ rest,
       (createPages options s).2
       = s ++ ReporterPanic
                (invalidRedirectTemplate (redirectTemplate codepen)) None
           :: rest
       ∧ (panicReturns = false →
          rest = [] ∧ (createPages options s).1 = Exited)).
Proof.
  intros Hdir codepen. rewrite (createPages_directory _ _ _ Hdir).
  fold codepen. unfold CodeRepls.createPagesIn. split.
  - intros Hd. rewrite Hd. unfold bind at 1. unfold CodeRepls.panic at 1.
    destruct (performs_afterDirectory directory codepen _ eq_refl
                (s ++ [ReporterPanic (invalidDirectory directory) None]))
      as (rest & Hrest & _).
    rewrite <- app_assoc in Hrest.
    destruct panicReturns.
    + exists rest. by split.
    + exists []. done.
  - intros Hd Ht. rewrite Hd, Ht.
    unfold bind at 1. unfold ret at 1. unfold bind at 1.
    unfold CodeRepls.panic at 1.
    destruct (performs_listing directory codepen _ eq_refl
                (s ++ [ReporterPanic
                         (invalidRedirectTemplate
                            (redirectTemplate codepen)) None]))
      as (rest & Hrest & _).
    rewrite <- app_assoc in Hrest.
    destruct panicReturns.
    + exists rest. by split.
    + exists []. done.
Qed.

End facts.
End CodeReplsFacts.


(** * Properties of the autosave *)
Module AutosaveFacts.
Import Autosave.

Section facts.
Variable GATSBY_DB_NODES : option string.
Variable gatsby_executing_command : option string.

Local Abbreviation dbs := (Autosave.dbs GATSBY_DB_NODES).
Local Abbreviation saveState := (Autosave.saveState GATSBY_DB_NODES).
Local Abbreviation delayElapsed := (Autosave.delayElapsed GATSBY_DB_NODES).
Local Abbreviation call := (Autosave.call GATSBY_DB_NODES).
Local Abbreviation startAutosave :=
  (Autosave.startAutosave gatsby_executing_command).
Local Abbreviation listenersOf :=
  (Autosave.listenersOf gatsby_executing_command).
Local Abbreviation emit :=
  (Autosave.emit GATSBY_DB_NODES gatsby_executing_command).
Local Abbreviation after :=
  (Autosave.after GATSBY_DB_NODES gatsby_executing_command).
Local Abbreviation run :=
  (Autosave.run GATSBY_DB_NODES gatsby_executing_command).

(** Saves started, plus one while none is in progress. *)
Local Abbreviation budget :=
  (λ st : state, (saves st + (if saveInProgress st then 0 else 1))%nat).

Lemma saves_app st l :
  length (filter (λ e, isSaveStates e = true) (effects st ++ l))
  = (saves st + length (filter (λ e, isSaveStates e = true) l))%nat.
Proof. unfold saves. by rewrite filter_app, length_app. Qed.

Lemma budget_saveState st : budget (saveState st) = budget st.
Proof.
  unfold Autosave.saveState, saves.
  destruct (saveInProgress st) eqn:E; simpl; [by rewrite E|].
  rewrite filter_app, length_app. simpl. lia.
Qed.

Lemma budget_call l st : budget (call l st) = budget st.
Proof.
  destruct l; simpl.
  - rewrite budget_saveState. by unfold saves.
  - by destruct (bootstrapFinished st).
  - by rewrite budget_saveState.
Qed.

Lemma budget_calls ls st : budget (foldl (λ st l, call l st) st ls) = budget st.
Proof.
  revert st. induction ls as [|l ls IH]; intros st; [done|].
  simpl foldl. by rewrite IH, budget_call.
Qed.

Lemma budget_after st x :
  (budget (after st x) ≤ budget st + (if isSettle x then 1 else 0))%nat.
Proof.
  destruct x as [type| |result]; simpl.
  - unfold Autosave.emit. rewrite budget_calls. lia.
  - unfold Autosave.delayElapsed.
    destruct (scheduled st); [|lia]. rewrite budget_saveState.
    unfold saves. simpl. lia.
  - destruct (saveInProgress st) eqn:E; [|rewrite E; lia].
    unfold saves. simpl. rewrite filter_app, length_app.
    destruct result; simpl; lia.
Qed.

(** X19: saves never overlap.  After any sequence of emitted events,
    elapsed delays and settled promises, the databases were told to save
    at most once more than promises have settled, and no more often than
    that while no save is in progress: [saveState] starts nothing as long
    as the promise of the previous call is pending. *)
Theorem saves_never_overlap (history : list step) :
  let st := run history initial in
  (saves st + (if saveInProgress st then 0 else 1)
   ≤ 1 + length (filter (λ x, isSettle x = true) history))%nat.
Proof.
  assert (H : ∀ history st,
            (budget (run history st)
             ≤ budget st + length (filter (λ x, isSettle x = true) history))%nat).
  { clear history. intros history. induction history as [|x history IH]; intros st;
      [simpl; lia|].
    unfold Autosave.run in *. simpl foldl.
    specialize (IH (after st x)). pose proof (budget_after st x) as Hx.
    destruct (isSettle x) eqn:E.
    - rewrite filter_cons_True by done. simpl length. lia.
    - rewrite filter_cons_False by (by rewrite E). lia. }
  intros st. specialize (H history initial). simpl in H. unfold st. lia.
Qed.

(** *** The listeners of each command *)

Lemma listenersOf_develop type :
  gatsby_executing_command = Some "develop" →
  listenersOf type
  = (if decide (type = "BOOTSTRAP_FINISHED") then [DevelopBootstrapFinished]
     else [])
    ++ (if decide (type = "*") then [DevelopAny] else []).
Proof.
  intros Hc. unfold Autosave.listenersOf, Autosave.startAutosave.
  rewrite Hc, decide_True, decide_False by done. simpl.
  rewrite !filter_cons, filter_nil. simpl.
  destruct (decide (type = "BOOTSTRAP_FINISHED")) as [E1|H1];
    destruct (decide (type = "*")) as [E2|H2].
  - exfalso. congruence.
  - by rewrite decide_True, decide_False.
  - by rewrite decide_False, decide_True.
  - by rewrite !decide_False.
Qed.

Lemma listenersOf_build type :
  gatsby_executing_command = Some "build" →
  listenersOf type
  = if decide (type = "BOOTSTRAP_FINISHED") then [BuildBootstrapFinished]
    else [].
Proof.
  intros Hc. unfold Autosave.listenersOf, Autosave.startAutosave.
  rewrite Hc, decide_False, decide_True by done. simpl.
  rewrite !filter_cons, filter_nil. simpl.
  destruct (decide (type = "BOOTSTRAP_FINISHED")) as [E1|H1].
  - by rewrite decide_True.
  - by rewrite decide_False.
Qed.

Lemma listenersOf_other type :
  gatsby_executing_command ≠ Some "develop" →
  gatsby_executing_command ≠ Some "build" →
  listenersOf type = [].
Proof.
  intros H1 H2. unfold Autosave.listenersOf, Autosave.startAutosave.
  by rewrite !decide_False.
Qed.

Lemma emit_unstarted type :
  type ≠ "BOOTSTRAP_FINISHED" → emit type initial = initial.
Proof.
  intros Htype. unfold Autosave.emit.
  destruct (decide (gatsby_executing_command = Some "develop")) as [Hd|Hd].
  { rewrite !listenersOf_develop by done.
    rewrite decide_False by done. simpl.
    by destruct (decide (type = "*")). }
  destruct (decide (gatsby_executing_command = Some "build")) as [Hb|Hb].
  { rewrite !listenersOf_build by done. by rewrite decide_False. }
  by rewrite !listenersOf_other.
Qed.

Lemma after_unstarted (x : step) :
  isBootstrapFinished x = false → after initial x = initial.
Proof.
  destruct x as [type| |result]; simpl; [|done..].
  intros Htype%bool_decide_eq_false. by apply emit_unstarted.
Qed.

(** X20: nothing is saved or scheduled before bootstrap has finished:
    whatever the command, as long as no [BOOTSTRAP_FINISHED] event was
    emitted the module is in its initial state, whatever other events
    were emitted. *)
Theorem quiet_until_bootstrap (history : list step) :
  Forall (λ x, isBootstrapFinished x = false) history →
  run history initial = initial.
Proof.
  induction 1 as [|x history Hx _ IH]; [done|].
  unfold Autosave.run in *. simpl foldl. by rewrite after_unstarted.
Qed.

(** *** Builds and other commands *)

Lemma emit_build type st :
  gatsby_executing_command = Some "build" →
  emit type st
  = if decide (type = "BOOTSTRAP_FINISHED") then saveState st else st.
Proof.
  intros Hc. unfold Autosave.emit. rewrite !listenersOf_build by done.
  rewrite (decide_False (P := "*" = "BOOTSTRAP_FINISHED")) by done.
  by destruct (decide (type = "BOOTSTRAP_FINISHED")).
Qed.

Lemma saves_saveState st : (saves (saveState st) ≤ saves st + 1)%nat.
Proof.
  unfold Autosave.saveState, saves.
  destruct (saveInProgress st); simpl; [lia|].
  rewrite filter_app, length_app. simpl. lia.
Qed.

Lemma saves_settle result st : saves (settle result st) = saves st.
Proof.
  unfold saves, settle. simpl. rewrite filter_app, length_app.
  destruct result; simpl; lia.
Qed.

(** X21: in a build the databases are told to save only when
    [BOOTSTRAP_FINISHED] is emitted: never more often than that event
    was emitted, never through the debounced function, and an event of
    any other type changes nothing.  With a command that is neither
    [develop] nor [build] no listener is registered and nothing ever
    happens. *)
Theorem saves_by_command (history : list step) :
  (gatsby_executing_command = Some "build" →
   let st := run history initial in
   scheduled st = false
   ∧ (saves st
      ≤ length (filter (λ x, isBootstrapFinished x = true) history))%nat
   ∧ ∀ type st0, type ≠ "BOOTSTRAP_FINISHED" → emit type st0 = st0)
  ∧ (gatsby_executing_command ≠ Some "develop" →
     gatsby_executing_command ≠ Some "build" →
     run history initial = initial).
Proof.
  split.
  - intros Hc.
    assert (H : ∀ history st, scheduled st = false →
              scheduled (run history st) = false
              ∧ (saves (run history st)
                 ≤ saves st
                   + length (filter (λ x, isBootstrapFinished x = true)
                               history))%nat).
    { clear history. intros history.
      induction history as [|x history IH]; intros st Hs;
        [simpl; split; [done|lia] |].
      unfold Autosave.run in *. simpl foldl.
      assert (Hx : scheduled (after st x) = false
                   ∧ (saves (after st x)
                      ≤ saves st
                        + (if isBootstrapFinished x then 1 else 0))%nat).
      { destruct x as [type| |result]; simpl.
        - rewrite emit_build by done.
          destruct (decide (type = "BOOTSTRAP_FINISHED")) as [E|E].
          + rewrite bool_decide_eq_true_2 by done.
            split; [|apply saves_saveState].
            unfold Autosave.saveState. by destruct (saveInProgress st).
          + split; [done|lia].
        - unfold Autosave.delayElapsed. rewrite Hs. split; [done|lia].
        - destruct (saveInProgress st); [|split; [done|lia] ].
          split; [done|]. rewrite saves_settle. lia. }
      destruct Hx as [Hs' Hsaves].
      destruct (IH _ Hs') as [IH1 IH2]. split; [done|].
      destruct (isBootstrapFinished x) eqn:E.
      + rewrite filter_cons_True by done. simpl length. lia.
      + rewrite filter_cons_False by (by rewrite E). lia. }
    intros st. destruct (H history initial eq_refl) as [H1 H2].
    split; [done|]. split; [exact H2|].
    intros type st0 Htype. rewrite emit_build by done.
    by rewrite decide_False.
  - intros Hd Hb. induction history as [|x history IH]; [done|].
    unfold Autosave.run in *. simpl foldl.
    assert (after initial x = initial) as ->; [|done].
    destruct x as [type| |result]; simpl; [|done..].
    unfold Autosave.emit. by rewrite !listenersOf_other.
Qed.

(** *** Development *)

Lemma saveStateDebounced_twice st :
  saveStateDebounced (saveStateDebounced st) = saveStateDebounced st.
Proof. done. Qed.

(** X22: in development [BOOTSTRAP_FINISHED] sets [bootstrapFinished],
    calls [saveState] at once and, through the listener for every event,
    schedules a debounced save as well; from then on an event of any
    other type schedules a debounced save and starts none itself; before
    that such an event does nothing. *)
Theorem develop_events (type : string) (st : state) :
  gatsby_executing_command = Some "develop" →
  (type = "BOOTSTRAP_FINISHED" →
   emit type st
   = saveStateDebounced
       (saveState {| saveInProgress := saveInProgress st;
                     bootstrapFinished := true;
                     scheduled := scheduled st;
                     effects := effects st |}))
  ∧ (type ≠ "BOOTSTRAP_FINISHED" →
     emit type st
     = if bootstrapFinished st then saveStateDebounced st else st).
Proof.
  intros Hc. unfold Autosave.emit. rewrite !listenersOf_develop by done.
  rewrite (decide_False (P := "*" = "BOOTSTRAP_FINISHED")) by done.
  rewrite (decide_True (P := "*" = "*")) by done.
  split.
  - intros ->. rewrite decide_True, decide_False by done. simpl.
    unfold Autosave.saveState. simpl. by destruct (saveInProgress st).
  - intros Htype. rewrite decide_False by done. simpl.
    destruct (decide (type = "*")); simpl;
      destruct (bootstrapFinished st) eqn:E; simpl; by rewrite ?E.
Qed.

(** X23: a save that comes due while another is in progress is dropped,
    not queued: [saveState] returns at once, and when the debounced
    function fires during a save, the schedule is used up without a
    save; once the save in progress has settled, nothing is in progress
    and nothing is scheduled, so what changed in between is written only
    after a further event. *)
Theorem save_during_save_dropped (st : state) (result : option rejection) :
  saveInProgress st = true →
  saveState st = st
  ∧ let st' := run [DelayElapsed; Settle result] st in
    saves st' = saves st
    ∧ saveInProgress st' = false
    ∧ scheduled st' = false.
Proof.
  intros Hp. unfold Autosave.saveState. rewrite Hp. split; [done|].
  unfold Autosave.run. simpl. unfold Autosave.delayElapsed.
  destruct (scheduled st) eqn:Hs.
  - unfold Autosave.saveState. simpl. rewrite Hp. simpl.
    by rewrite saves_settle.
  - rewrite Hp. simpl. rewrite saves_settle. by rewrite Hs.
Qed.

Lemma warnings_saveState st : warnings (saveState st) = warnings st.
Proof.
  unfold Autosave.saveState, warnings.
  destruct (saveInProgress st); simpl; [done|].
  rewrite filter_app, length_app. simpl. lia.
Qed.

Lemma inProgress_saveState st : saveInProgress (saveState st) = true.
Proof.
  unfold Autosave.saveState. by destruct (saveInProgress st) eqn:E.
Qed.

(** X24: a rejected save is reported as one warning with the message of
    the error (or the error itself when it has none), and clears
    [saveInProgress] like a resolved one; over any run there are no more
    warnings than rejected promises, and every warning belongs to a save
    that was started and has settled. *)
Theorem rejections_warn (history : list step) :
  (∀ st err, saveInProgress st = true →
     after st (Settle (Some err))
     = {| saveInProgress := false;
          bootstrapFinished := bootstrapFinished st;
          scheduled := scheduled st;
          effects := effects st ++ [Warn (errorPersisting err)] |})
  ∧ let st := run history initial in
    (warnings st
     ≤ length (filter (λ x, isRejection x = true) history))%nat
    ∧ (warnings st + (if saveInProgress st then 1 else 0) ≤ saves st)%nat.
Proof.
  split.
  { intros st err Hp. simpl. by rewrite Hp. }
  assert (Hcalls : ∀ ls st,
            let st' := foldl (λ st l, call l st) st ls in
            warnings st' = warnings st
            ∧ (saves st' + (if saveInProgress st then 1 else 0)
               = saves st + (if saveInProgress st' then 1 else 0))%nat
            ∧ (saveInProgress st = true → saveInProgress st' = true)).
  { induction ls as [|l ls IH]; intros st; [done|].
    simpl foldl. intros st'.
    destruct (IH (call l st)) as (IH1 & IH2 & IH3). fold st' in IH1, IH2, IH3.
    assert (Hl : warnings (call l st) = warnings st
                 ∧ (saves (call l st) + (if saveInProgress st then 1 else 0)
                    = saves st
                      + (if saveInProgress (call l st) then 1 else 0))%nat
                 ∧ (saveInProgress st = true
                    → saveInProgress (call l st) = true)).
    { assert (Hsave : ∀ st0,
                warnings (saveState st0) = warnings st0
                ∧ (saves (saveState st0)
                   + (if saveInProgress st0 then 1 else 0)
                   = saves st0
                     + (if saveInProgress (saveState st0) then 1 else 0))%nat
                ∧ (saveInProgress st0 = true
                   → saveInProgress (saveState st0) = true)).
      { intros st0. split; [apply warnings_saveState|].
        split; [|intros _; apply inProgress_saveState].
        unfold Autosave.saveState, saves.
        destruct (saveInProgress st0) eqn:E; simpl; [by rewrite E|].
        rewrite filter_app, length_app. simpl. lia. }
      destruct l; simpl.
      - apply (Hsave {| saveInProgress := saveInProgress st;
                        bootstrapFinished := true;
                        scheduled := scheduled st;
                        effects := effects st |}).
      - by destruct (bootstrapFinished st).
      - apply Hsave. }
    destruct Hl as (H1 & H2 & H3).
    split; [congruence|]. split; [|auto].
    destruct (saveInProgress st), (saveInProgress (call l st)),
      (saveInProgress st'); lia. }
  assert (H : ∀ history st,
            (warnings st + (if saveInProgress st then 1 else 0)
             ≤ saves st)%nat →
            (warnings (run history st)
             ≤ warnings st
               + length (filter (λ x, isRejection x = true) history))%nat
            ∧ (warnings (run history st)
               + (if saveInProgress (run history st) then 1 else 0)
               ≤ saves (run history st))%nat).
  { clear history. intros history.
    induction history as [|x history IH]; intros st Hst;
      [simpl; split; [lia|done] |].
    unfold Autosave.run in *. simpl foldl.
    assert (Hx : (warnings (after st x)
                  ≤ warnings st + (if isRejection x then 1 else 0))%nat
                 ∧ (warnings (after st x)
                    + (if saveInProgress (after st x) then 1 else 0)
                    ≤ saves (after st x))%nat).
    { destruct x as [type| |result]; simpl.
      - unfold Autosave.emit.
        destruct (Hcalls (listenersOf type ++ listenersOf "*") st)
          as (H1 & H2 & H3).
        split; [lia|]. lia.
      - unfold Autosave.delayElapsed. destruct (scheduled st); [|split; lia].
        destruct (Hcalls [BuildBootstrapFinished]
                    {| saveInProgress := saveInProgress st;
                       bootstrapFinished := bootstrapFinished st;
                       scheduled := false;
                       effects := effects st |}) as (H1 & H2 & H3).
        simpl in H1, H2, H3. unfold warnings, saves in *. simpl in *.
        split; lia.
      - destruct (saveInProgress st) eqn:E; [|rewrite E; split; lia].
        unfold warnings, saves in *. simpl.
        rewrite !filter_app, !length_app.
        destruct result; simpl; split; lia. }
    destruct Hx as [Hx1 Hx2]. destruct (IH _ Hx2) as [IH1 IH2].
    split; [|done].
    destruct (isRejection x) eqn:E.
    + rewrite filter_cons_True by done. simpl length. lia.
    + rewrite filter_cons_False by (by rewrite E). lia. }
  intros st. destruct (H history initial) as [H1 H2]; [simpl; lia|].
  split; [exact H1|exact H2].
Qed.

End facts.
End AutosaveFacts.

(** * The code on concrete files *)

(** Membership in a list that computes. *)
Ltac among :=
  apply list_elem_of_In; vm_compute;
  repeat (first [left; reflexivity | right]).

(** Case analysis on the elements of a list that computes. *)
Ltac each_descendant H tac :=
  vm_compute in H;
  repeat (apply elem_of_cons in H as [H|H]; [tac|]);
  by apply elem_of_nil in H.

Module Examples.
Import Fixture.

Local Abbreviation parseFiles :=
  (FileParser.parseFiles camelCase md5 preprocessSource babelParseToAst
     getGraphQLTag).

(** C1, a file for which the claim fails: the definition found by the
    page-query pass has a name but no [text], [isStaticQuery], [isHook]
    or [hash]. *)
Lemma page_query_has_no_text :
  ∃ d,
    (parseFile "page.js" world0).1
    = Some {| kind := "Document"; definitions := [d] |}
    ∧ name d = Some "page.js15"
    ∧ text d = None ∧ isStaticQuery d = None ∧ isHook d = None
    ∧ hash d = None.
Proof.
  exists {| oid := 0; name := Some "page.js15"; loc_start := 0;
            isStaticQuery := None; isHook := None; text := None;
            hash := None |}.
  by vm_compute.
Qed.

(** The offsets written in the ASTs are those of the templates in the
    sources. *)
Lemma template_offsets :
  indexOf pageSource ("graphql" +:+ bq) = 55%Z
  ∧ indexOf twoSource ("graphql" +:+ bq) = 57%Z
  ∧ indexOf bothSource ("graphql" +:+ bq) = 73%Z
  ∧ indexOf uninitSource ("graphql" +:+ bq) = 118%Z
  ∧ indexOf missingSource ("graphql" +:+ bq) = 117%Z
  ∧ indexOf brokenSource ("graphql" +:+ bq) = 81%Z
  ∧ indexOf shadowSource ("graphql" +:+ bq) = 57%Z.
Proof. by vm_compute. Qed.

(** The shape of the definitions of [two.js], from an empty cache, and
    what the hook pass pushes for its template. *)
Lemma parseFile_definitions_wellFormed_witness :
  let pushed :=
    pushedBy (extractStaticQuery camelCase getGraphQLTag "two.js"
                (gql 57 "{ a }") true) initialLocatorState in
  cacheTraced getGraphQLTag world0
  ∧ (∀ doc, (parseFile "two.js" world0).1 = Some doc →
       Forall (traced getGraphQLTag) (definitions doc)
       ∧ Forall wellFormed (definitions doc))
  ∧ Forall (λ d, named d ∧ markedWith true "{ a }" 5 d) pushed
  ∧ loc_start <$> pushed = [0%N].
Proof.
  intros pushed.
  assert (H : cacheTraced getGraphQLTag world0) by apply map_Forall_empty.
  pose proof (parseFile_definitions_wellFormed camelCase md5
                preprocessSource babelParseToAst getGraphQLTag "two.js"
                world0 H) as T.
  exact (conj H (conj (proj1 (proj2 T))
           (proj1 (proj2 (proj2 T)) (gql 57 "{ a }") true
              initialLocatorState))).
Defined.

(** The document of [two.js]: the definitions that the extraction gives,
    and the success notification at the end of the log. *)
Lemma parseFile_never_empty_witness :
  let defs :=
    extracted camelCase "two.js" false "{ a }" 5 0
      [{| parsed_name := None; parsed_loc_start := 0 |}] in
  fs world0 "two.js" = Some twoSource
  ∧ indexOf twoSource "graphql" ≠ (-1)%Z
  ∧ (cachedFindGraphQLTags camelCase preprocessSource babelParseToAst
       getGraphQLTag (md5 ("two.js" +:+ twoSource)) "two.js" twoSource
       world0).1
    = Normal defs
  ∧ defs ≠ []
  ∧ (parseFile "two.js" world0).1
    = Some {| kind := "Document"; definitions := defs |}
  ∧ ∃ events,
      Forall notSuccess events
      ∧ log (parseFile "two.js" world0).2
        = log world0 ++ events ++ [QueryExtractedBabelSuccess "two.js"].
Proof.
  intros defs.
  assert (H1 : fs world0 "two.js" = Some twoSource) by reflexivity.
  assert (H2 : indexOf twoSource "graphql" ≠ (-1)%Z) by (by vm_compute).
  assert (H3 : (cachedFindGraphQLTags camelCase preprocessSource
                  babelParseToAst getGraphQLTag
                  (md5 ("two.js" +:+ twoSource)) "two.js" twoSource
                  world0).1
               = Normal defs) by (by vm_compute).
  assert (H4 : defs ≠ []) by done.
  pose proof (parseFile_never_empty camelCase md5 preprocessSource
                babelParseToAst getGraphQLTag "two.js" world0) as T.
  exact (conj H1 (conj H2 (conj H3 (conj H4
           (proj1 (proj2 (proj2 T)) twoSource defs H1 H2 H3 H4))))).
Defined.

(** C3, a run for which the claim fails: [page.js] is parsed, rewritten
    and parsed, then rewritten to what it was and parsed again.  The
    content changed before the third call, and no extraction runs: the
    entry of the first call is still in the cache, and the call logs the
    success notification alone. *)
Lemma changed_back_served_from_cache :
  let first := parseFile "page.js" world0 in
  let second := parseFile "page.js" (rewritten "page.js" twoSource first.2) in
  let changedBack := rewritten "page.js" pageSource second.2 in
  let third := parseFile "page.js" changedBack in
  fs (rewritten "page.js" twoSource first.2) "page.js" = Some twoSource
  ∧ fs changedBack "page.js" = Some pageSource
  ∧ pageSource ≠ twoSource
  ∧ md5 ("page.js" +:+ pageSource) ≠ md5 ("page.js" +:+ twoSource)
  ∧ third.1 = first.1
  ∧ log third.2 = log second.2 ++ [QueryExtractedBabelSuccess "page.js"].
Proof.
  split; [reflexivity|]. split; [reflexivity|].
  split; [intros E; vm_compute in E; discriminate E|].
  split; [intros E; vm_compute in E; discriminate E|].
  split; by vm_compute.
Qed.

(** [page.js] twice in a row, and once more after it was rewritten. *)
Lemma parseFile_cached_witness :
  let doc :=
    {| kind := "Document";
       definitions :=
         [{| oid := 0; name := Some "page.js15"; loc_start := 0;
             isStaticQuery := None; isHook := None; text := None;
             hash := None |}] |} in
  let first := parseFile "page.js" world0 in
  let second := parseFile "page.js" first.2 in
  let changed := rewritten "page.js" twoSource first.2 in
  let third := parseFile "page.js" changed in
  fs world0 "page.js" = Some pageSource
  ∧ first.1 = Some doc
  ∧ cache first.2 !! md5 ("page.js" +:+ pageSource) = Some (definitions doc)
  ∧ second.1 = first.1
  ∧ log second.2 = log first.2 ++ [QueryExtractedBabelSuccess "page.js"]
  ∧ twoSource ≠ pageSource
  ∧ md5 ("page.js" +:+ twoSource) ≠ md5 ("page.js" +:+ pageSource)
  ∧ cache changed !! md5 ("page.js" +:+ twoSource) = None
  ∧ (∃ events,
       log third.2
       = log changed ++ CallPreprocessSource "page.js" twoSource :: events)
  ∧ third.1
    = (parseFile "page.js" {| fs := fs changed; cache := ∅; log := [] |}).1.
Proof.
  intros doc first second changed third.
  assert (H1 : fs world0 "page.js" = Some pageSource) by reflexivity.
  assert (H2 : first.1 = Some doc) by (by vm_compute).
  pose proof (parseFile_cached camelCase md5 preprocessSource
                babelParseToAst getGraphQLTag "page.js" pageSource world0
                first.2 H1) as (Hstored & Hsame & _).
  destruct (Hstored doc H2) as [Hidx Hkey].
  destruct (Hsame Hidx (ex_intro _ _ Hkey) (reflexivity _) eq_refl)
    as (Hr & _ & _ & Hlog).
  assert (H3 : twoSource ≠ pageSource)
    by (intros E; vm_compute in E; discriminate E).
  pose proof (parseFile_cached camelCase md5 preprocessSource
                babelParseToAst getGraphQLTag "page.js" pageSource world0
                changed H1) as (_ & _ & Hchanged).
  destruct (Hchanged twoSource H3 (λ E, E)) as [Hkeys Hrun].
  destruct (Hrun eq_refl eq_refl eq_refl ltac:(by vm_compute))
    as (Hmiss & Hevents & Hfresh).
  exact (conj H1 (conj H2 (conj Hkey (conj Hr (conj Hlog (conj H3
           (conj Hkeys (conj Hmiss (conj Hevents Hfresh))))))))).
Defined.

(** A file without the tag is dismissed before anything runs. *)
Lemma parseFile_without_tag_witness :
  fs world0 "plain.js" = Some plainSource
  ∧ ¬ occursIn "graphql" plainSource
  ∧ parseFile "plain.js" world0 = (None, world0).
Proof.
  assert (H : ¬ occursIn "graphql" plainSource)
    by (apply indexOf_none; by vm_compute).
  split; [reflexivity|]. split; [exact H|].
  exact (parseFile_without_tag camelCase md5 preprocessSource
           babelParseToAst getGraphQLTag "plain.js" _ world0 eq_refl H).
Defined.

(** C5, the failing input: [let Q] without initialiser, [Q] passed to
    [<StaticQuery>], and an exported page query.  Reading [init.type]
    throws; no warning is emitted and the page query is lost with the
    rest of the file. *)
Lemma uninitialised_declarator_aborts :
  parseFile "uninit.js" world0
  = (None,
     logged world0
       [CallPreprocessSource "uninit.js" uninitSource;
        CallBabelParseToAst uninitSource "uninit.js";
        ReportError (problemParsingGraphQL "uninit.js");
        QueryExtractionGraphQLError "uninit.js"]).
Proof. by vm_compute. Qed.

(** The same file without the declaration: the warning is emitted and
    the page query is extracted. *)
Lemma unknown_variable_warns :
  ∃ d w,
    parseFile "missing.js" world0
    = (Some {| kind := "Document"; definitions := [d] |}, w)
    ∧ ReportWarn (unknownQueryVariableMessage "Missing" "missing.js"
                    "<StaticQuery>") ∈ log w.
Proof.
  eexists _, _. split; [by vm_compute|].
  vm_compute. apply list_elem_of_In. simpl. auto 10.
Qed.

(** C6, a file for which the claim fails: the second candidate parses,
    and the failure of the first one was reported and notified all the
    same. *)
Lemma first_failure_reported_despite_success :
  let result :=
    parseToAst preprocessSource babelParseToAst "page.mdx" mdxSource
      initialLocatorState in
  result.1 = Normal (Some pageAst)
  ∧ emitted result.2
    = [CallPreprocessSource "page.mdx" mdxSource;
       CallBabelParseToAst mdxSource "page.mdx";
       ReportError "SyntaxError: Unexpected token";
       QueryExtractionGraphQLError "page.mdx";
       CallBabelParseToAst pageSource "page.mdx"].
Proof. by vm_compute. Qed.

(** The markdown page: the first candidate fails, the second parses. *)
Lemma parseToAst_candidates_witness :
  preprocessSource "page.mdx" mdxSource = [mdxSource] ++ [pageSource]
  ∧ [mdxSource] ++ [pageSource] ≠ []
  ∧ Forall (failsToParse babelParseToAst "page.mdx") [mdxSource]
  ∧ parsesFirst babelParseToAst "page.mdx" [pageSource]
  ∧ parseToAst preprocessSource babelParseToAst "page.mdx" mdxSource
      initialLocatorState
    = (Normal (firstAst babelParseToAst "page.mdx" [pageSource]),
       emitting initialLocatorState
         (CallPreprocessSource "page.mdx" mdxSource
          :: flat_map (failureEvents babelParseToAst "page.mdx") [mdxSource]
          ++ [CallBabelParseToAst pageSource "page.mdx"])).
Proof.
  assert (H1 : preprocessSource "page.mdx" mdxSource
               = [mdxSource] ++ [pageSource]) by reflexivity.
  assert (H2 : [mdxSource] ++ [pageSource] ≠ []) by done.
  assert (H3 : Forall (failsToParse babelParseToAst "page.mdx") [mdxSource])
    by (repeat constructor; by eexists).
  assert (H4 : parsesFirst babelParseToAst "page.mdx" [pageSource])
    by (by eexists).
  exact (conj H1 (conj H2 (conj H3 (conj H4
           (parseToAst_candidates preprocessSource babelParseToAst
              "page.mdx" mdxSource [mdxSource] [pageSource]
              initialLocatorState H1 H2 H3 H4))))).
Defined.

(** Removing duplicates twice on three objects at two locations. *)
Lemma uniqueQueries_stable_idempotent_witness :
  uniqueQueries sampleLocations (uniqueQueries sampleLocations sampleQueries)
  = uniqueQueries sampleLocations sampleQueries.
Proof.
  exact (proj2 (proj2 (proj2 (proj2
           (uniqueQueries_stable_idempotent sampleLocations sampleQueries))))).
Defined.


(** What that batch returns: the first file's document alone.  The
    calls did overlap: the preprocessors ran for [broken.js] before the
    parser ran for [page.js]. *)
Lemma parseFiles_sample :
  let result :=
    parseFiles ["page.js"; "plain.js"; "broken.js"] [2; 0; 1; 2; 0; 0; 1]%nat
      world0 in
  ∃ doc,
    (parseFile "page.js" world0).1 = Some doc
    ∧ result.1 = {[ "page.js" := doc ]}
    ∧ log result.2
      = [CallPreprocessSource "broken.js" brokenSource;
         CallPreprocessSource "page.js" pageSource;
         CallBabelParseToAst brokenSource "broken.js";
         CallBabelParseToAst pageSource "page.js";
         CallGetGraphQLTag 55; QueryExtractedBabelSuccess "page.js";
         CallGetGraphQLTag 81;
         ReportError (problemParsingGraphQL "broken.js");
         QueryExtractionGraphQLError "broken.js"].
Proof. eexists. split; [|split]; by vm_compute. Qed.

(** A named and an unnamed definition of [src/pages/index.js]. *)
Lemma generateQueryName_spec_witness :
  name (generateQueryName camelCase
          {| oid := 0; name := Some "Site"; loc_start := 0;
             isStaticQuery := None; isHook := None; text := None;
             hash := None |} 7 "src/pages/index.js")
  = Some "Site"
  ∧ name (generateQueryName camelCase
            {| oid := 0; name := None; loc_start := 0;
               isStaticQuery := None; isHook := None; text := None;
               hash := None |} 7 "src/pages/index.js")
    = Some "src/pages/index.js7".
Proof.
  split.
  - by apply (generateQueryName_spec camelCase).
  - apply (generateQueryName_spec camelCase). by left.
Defined.

Lemma traversable_two : traversable getGraphQLTag twoElementsAst.
Proof.
  split.
  - intros id init Hin.
    each_descendant Hin ltac:(try discriminate Hin; injection Hin as -> ->; eauto).
  - intros path error Hin.
    each_descendant Hin ltac:(subst path; by vm_compute).
Qed.

Lemma traversable_both : traversable getGraphQLTag elementAndHookAst.
Proof.
  split.
  - intros id init Hin.
    each_descendant Hin ltac:(try discriminate Hin; injection Hin as -> ->; eauto).
  - intros path error Hin.
    each_descendant Hin ltac:(subst path; by vm_compute).
Qed.

Lemma elements_two : elementSite twoElementsAst "Q".
Proof.
  exists [JSXAttribute (Some "query") (Some (Other [Identifier "Q"]))], [],
    (Some (Other [Identifier "Q"])).
  split; [among|]. split; among.
Qed.

Lemma hook_both : hookSite elementAndHookAst "Q".
Proof.
  exists (Identifier "useStaticQuery"), [Identifier "Q"].
  split; [done|]. split; [among|]. split; [among|done].
Qed.



(** The file with an element and a hook call on the same variable, as
    Babel parses it: one definition, recorded by the component pass. *)
Lemma element_and_hook_one_fragment :
  (parseFile "both.js" world0).1
  = Some {| kind := "Document";
            definitions := extracted camelCase "both.js" false "{ a }" 5 0
                             [{| parsed_name := None;
                                 parsed_loc_start := 0 |}] |}.
Proof. by vm_compute. Qed.
End Examples.

(** * The further properties on concrete files *)
Module Runs.
Import Fixture.

(** The offset written in the tree of [a.js] is that of the template. *)
Lemma shifted_offset :
  indexOf Cases.shiftedSource ("graphql" +:+ bq) = 24%Z
  ∧ "a.js" +:+ Cases.shiftedSource = "a.jsx" +:+ Cases.shiftedTail.
Proof. by vm_compute. Qed.

(** Two objects at offset 0 of the templates at 10 and at 30. *)
Lemma uniqueQueries_keeps_distinct_locations_witness :
  (∀ q, q ∈ Cases.twoTemplates →
     Cases.twoLocations !! oid q
     = Some (locationKey (Cases.templateOf q) (loc_start q)))
  ∧ NoDup ((λ q, (Cases.templateOf q, loc_start q)) <$> Cases.twoTemplates)
  ∧ uniqueQueries Cases.twoLocations Cases.twoTemplates = Cases.twoTemplates.
Proof.
  assert (H1 : ∀ q, q ∈ Cases.twoTemplates →
            Cases.twoLocations !! oid q
            = Some (locationKey (Cases.templateOf q) (loc_start q))).
  { intros q Hq. unfold Cases.twoTemplates in Hq. simpl in Hq.
    apply elem_of_cons in Hq as [->|Hq]; [done|].
    apply elem_of_cons in Hq as [->|Hq]; [done|].
    by apply elem_of_nil in Hq. }
  assert (H2 : NoDup ((λ q, (Cases.templateOf q, loc_start q))
                        <$> Cases.twoTemplates)).
  { apply (NoDup_fmap_reflect _ oid); [|apply allocate_NoDup].
    intros x y Hx Hy. unfold Cases.twoTemplates in Hx, Hy. simpl in Hx, Hy.
    apply elem_of_cons in Hx as [->|Hx];
      [|apply elem_of_cons in Hx as [->|Hx]; [|by apply elem_of_nil in Hx] ];
      (apply elem_of_cons in Hy as [->|Hy];
       [|apply elem_of_cons in Hy as [->|Hy];
         [|by apply elem_of_nil in Hy] ]); done. }
  exact (conj H1 (conj H2
           (uniqueQueries_keeps_distinct_locations Cases.twoLocations
              Cases.twoTemplates Cases.templateOf H1 H2))).
Defined.

(** [notes.txt] mentions the tag and does not parse. *)
Lemma unparsable_file_cached_witness :
  let s := (parseToAst preprocessSource Cases.babelParseToAst "notes.txt"
              Cases.notesSource initialLocatorState).2 in
  let w1 := stored (md5 ("notes.txt" +:+ Cases.notesSource)) [] (emitted s)
              Cases.world1 in
  fs Cases.world1 "notes.txt" = Some Cases.notesSource
  ∧ indexOf Cases.notesSource "graphql" ≠ (-1)%Z
  ∧ cache Cases.world1 !! md5 ("notes.txt" +:+ Cases.notesSource) = None
  ∧ parseToAst preprocessSource Cases.babelParseToAst "notes.txt"
      Cases.notesSource initialLocatorState
    = (Normal None, s)
  ∧ Cases.parseFile "notes.txt" Cases.world1 = (None, w1)
  ∧ Cases.parseFile "notes.txt" w1 = (None, w1).
Proof.
  intros s w1.
  assert (H1 : fs Cases.world1 "notes.txt" = Some Cases.notesSource)
    by reflexivity.
  assert (H2 : indexOf Cases.notesSource "graphql" ≠ (-1)%Z)
    by (by vm_compute).
  assert (H3 : cache Cases.world1
               !! md5 ("notes.txt" +:+ Cases.notesSource) = None)
    by reflexivity.
  assert (H4 : parseToAst preprocessSource Cases.babelParseToAst "notes.txt"
                 Cases.notesSource initialLocatorState
               = (Normal None, s)) by (by vm_compute).
  destruct (unparsable_file_cached camelCase md5 preprocessSource
              Cases.babelParseToAst getGraphQLTag "notes.txt"
              Cases.notesSource Cases.world1 s H1 H2 H3 H4)
    as (Hfirst & Hsecond & _).
  exact (conj H1 (conj H2 (conj H3 (conj H4 (conj Hfirst Hsecond))))).
Defined.

(** [a.js], then [a.jsx] under the same key. *)
Lemma parseFile_shared_key_witness :
  let first := Cases.parseFile "a.js" Cases.world1 in
  let second := Cases.parseFile "a.jsx" first.2 in
  "a.js" +:+ Cases.shiftedSource = "a.jsx" +:+ Cases.shiftedTail
  ∧ fs Cases.world1 "a.js" = Some Cases.shiftedSource
  ∧ indexOf Cases.shiftedSource "graphql" ≠ (-1)%Z
  ∧ is_Some (cache first.2 !! md5 ("a.js" +:+ Cases.shiftedSource))
  ∧ cache first.2 ⊆ cache first.2
  ∧ fs first.2 "a.jsx" = Some Cases.shiftedTail
  ∧ indexOf Cases.shiftedTail "graphql" ≠ (-1)%Z
  ∧ second.1 = first.1.
Proof.
  intros first second.
  assert (H0 : "a.js" +:+ Cases.shiftedSource
               = "a.jsx" +:+ Cases.shiftedTail) by reflexivity.
  assert (H1 : fs Cases.world1 "a.js" = Some Cases.shiftedSource)
    by reflexivity.
  assert (H2 : indexOf Cases.shiftedSource "graphql" ≠ (-1)%Z)
    by (by vm_compute).
  assert (H3 : is_Some (cache first.2
                        !! md5 ("a.js" +:+ Cases.shiftedSource)))
    by (vm_compute; eauto).
  assert (H4 : cache first.2 ⊆ cache first.2) by done.
  assert (H5 : fs first.2 "a.jsx" = Some Cases.shiftedTail) by reflexivity.
  assert (H6 : indexOf Cases.shiftedTail "graphql" ≠ (-1)%Z)
    by (by vm_compute).
  exact (conj H0 (conj H1 (conj H2 (conj H3 (conj H4 (conj H5 (conj H6
           (proj1 (parseFile_shared_key camelCase md5 preprocessSource
                     Cases.babelParseToAst getGraphQLTag "a.js"
                     Cases.shiftedSource "a.jsx" Cases.shiftedTail
                     Cases.world1 first.2 H0 H1 H2 H3 H4 H5 H6))))))))).
Defined.

(** What [a.jsx] gets: the definition of [a.js], under the name made from
    the path of [a.js]. *)
Lemma shared_key_names :
  ∃ d w,
    Cases.parseFile "a.jsx" (Cases.parseFile "a.js" Cases.world1).2
    = (Some {| kind := "Document"; definitions := [d] |}, w)
    ∧ name d = Some "a.js5".
Proof. eexists _, _. split; by vm_compute. Qed.

(** [missing.js] declares no variable [Missing]. *)
Lemma unresolved_variable_call_sites_witness :
  (∀ id init, VariableDeclarator id init ∈ descendants missingAst →
     node_name id = Some "Missing" →
     ∃ e, init = Some e ∧ isTaggedTemplateExpression e = false)
  ∧ "Missing" ≠ "graphql"
  ∧ staticQueryVisitor camelCase getGraphQLTag missingAst "missing.js"
      (callSiteNode "Missing" StaticQueryElement) initialLocatorState
    = (Normal (),
       emitting initialLocatorState
         [ReportWarn (unknownQueryVariableMessage "Missing" "missing.js"
                        "<StaticQuery>")]).
Proof.
  assert (H1 : ∀ id init,
            VariableDeclarator id init ∈ descendants missingAst →
            node_name id = Some "Missing" →
            ∃ e, init = Some e ∧ isTaggedTemplateExpression e = false).
  { intros id init Hin Hname. vm_compute in Hin.
    repeat (apply elem_of_cons in Hin as [Hin|Hin];
            [try discriminate Hin;
             injection Hin as -> ->; discriminate Hname|]).
    by apply elem_of_nil in Hin. }
  assert (H2 : "Missing" ≠ "graphql") by done.
  exact (conj H1 (conj H2
           (proj1 (unresolved_variable_call_sites camelCase getGraphQLTag
                     missingAst "missing.js" "Missing" initialLocatorState
                     H1 H2)))).
Defined.

(** [const Q = css`a`], passed to an element and to a hook call. *)
Lemma untagged_template_variable_silent_witness :
  let ast := Cases.styledAst in
  (∃ n, n ∈ descendants ast ∧ bindsTemplate "Q" n = true)
  ∧ searchCalls "Q" ast = [CallGetGraphQLTag 60]
  ∧ staticQueryVisitor camelCase getGraphQLTag ast "styled.js"
      (callSiteNode "Q" StaticQueryElement) initialLocatorState
    = (Normal (), emitting initialLocatorState [CallGetGraphQLTag 60])
  ∧ useStaticQueryVisitor camelCase getGraphQLTag ast "styled.js"
      (callSiteNode "Q" UseStaticQueryCall) initialLocatorState
    = (Normal (), emitting initialLocatorState [CallGetGraphQLTag 60]).
Proof.
  intros ast.
  assert (H1 : ∀ id init, VariableDeclarator id init ∈ descendants ast →
            node_name id = Some "Q" → is_Some init).
  { intros id init Hin _.
    each_descendant Hin
      ltac:(try discriminate Hin; injection Hin as -> ->; eauto). }
  assert (H2 : ∃ n, n ∈ descendants ast ∧ bindsTemplate "Q" n = true).
  { exists (VariableDeclarator (Identifier "Q")
              (Some (TaggedTemplateExpression 60 (Identifier "css") ["a"]
                       []))).
    split; [among|reflexivity]. }
  assert (H3 : ∀ n p, n ∈ descendants ast → bindsTemplate "Q" n = true →
            p ∈ descendants n → isTaggedTemplateExpression p = true →
            getGraphQLTag p = NoTag).
  { intros n p Hn Hb Hp Ht.
    each_descendant Hn
      ltac:(subst n; try discriminate Hb;
            each_descendant Hp ltac:(subst p; try discriminate Ht;
                                     reflexivity)). }
  assert (H4 : "Q" ≠ "graphql") by done.
  assert (H5 : "Q" ≠ "useStaticQuery") by done.
  pose proof (untagged_template_variable_silent camelCase getGraphQLTag
                "styled.js" ast "Q" initialLocatorState H1 H2 H3 H4)
    as (_ & Helement & Hhook).
  exact (conj H2 (conj eq_refl (conj Helement (Hhook H5)))).
Defined.

(** An element and a hook call on one variable, in a file that holds
    nothing else. *)
Lemma shared_program_first_discovery_witness :
  let template := gql 73 "{ a }" in
  let sites := [StaticQueryElement; UseStaticQueryCall] in
  let ds := [{| parsed_name := None; parsed_loc_start := 0 |}] in
  "Q" ≠ "graphql" ∧ "Q" ≠ "useStaticQuery"
  ∧ getGraphQLTag template = Tag ds "{ a }" 5 false
  ∧ NoDup (parsed_loc_start <$> ds)
  ∧ sites ≠ []
  ∧ (locateTags camelCase getGraphQLTag "both.js"
       (sharedQueryProgram "Q" template sites) initialLocatorState).1
    = Normal (extracted camelCase "both.js" false "{ a }" 5 0 ds).
Proof.
  intros template sites ds.
  assert (H1 : "Q" ≠ "graphql") by done.
  assert (H2 : "Q" ≠ "useStaticQuery") by done.
  assert (H3 : getGraphQLTag template = Tag ds "{ a }" 5 false)
    by reflexivity.
  assert (H4 : NoDup (parsed_loc_start <$> ds))
    by (apply NoDup_singleton).
  assert (H5 : sites ≠ []) by done.
  exact (conj H1 (conj H2 (conj H3 (conj H4 (conj H5
           (proj1 (shared_program_first_discovery camelCase getGraphQLTag
                     "both.js" "Q" 73 "graphql" ["{ a }"] ds "{ a }" 5
                     false H1 H2 H3 sites H4 H5))))))).
Defined.

(** [a.js] and [a.jsx] in one batch, under one key.  When the call for
    [a.js] ends before the other starts, [a.jsx] is answered from the
    cache; when both have read their file before either stores, each
    runs its own extraction, [a.jsx] does not parse, and the entry that
    is left in the cache is that of the call that stored last. *)
Lemma overlapping_calls_share_no_result :
  let parseFiles :=
    FileParser.parseFiles camelCase md5 preprocessSource
      Cases.babelParseToAst getGraphQLTag in
  let key := md5 ("a.js" +:+ Cases.shiftedSource) in
  let inTurn := parseFiles ["a.js"; "a.jsx"] [] Cases.world1 in
  let overlapping := parseFiles ["a.js"; "a.jsx"] [0; 1]%nat Cases.world1 in
  inTurn.1 !! "a.js" = (Cases.parseFile "a.js" Cases.world1).1
  ∧ inTurn.1 !! "a.jsx" = inTurn.1 !! "a.js"
  ∧ is_Some (inTurn.1 !! "a.js")
  ∧ overlapping.1 !! "a.js" = inTurn.1 !! "a.js"
  ∧ overlapping.1 !! "a.jsx" = None
  ∧ cache overlapping.2 !! key = Some [].
Proof.
  intros parseFiles key inTurn overlapping.
  split; [by vm_compute|]. split; [by vm_compute|].
  split; [vm_compute; eauto|]. split; [by vm_compute|].
  split; by vm_compute.
Qed.

(** [export const C = () => useStaticQuery(graphql`{ a }`)] *)
Lemma exported_hook_found_once_witness :
  let ds := [{| parsed_name := None; parsed_loc_start := 0 |}] in
  getGraphQLTag (gql 40 "{ a }") = Tag ds "{ a }" 5 false
  ∧ NoDup (parsed_loc_start <$> ds)
  ∧ (locateTags camelCase getGraphQLTag "hook.js"
       (exportedHookProgram "C" (gql 40 "{ a }")) initialLocatorState).1
    = Normal (extracted camelCase "hook.js" true "{ a }" 5 0 ds).
Proof.
  intros ds.
  assert (H1 : getGraphQLTag (gql 40 "{ a }") = Tag ds "{ a }" 5 false)
    by reflexivity.
  assert (H2 : NoDup (parsed_loc_start <$> ds)) by (apply NoDup_singleton).
  exact (conj H1 (conj H2
           (proj1 (exported_hook_found_once camelCase getGraphQLTag
                     "hook.js" "C" 40 ["{ a }"] ds "{ a }" 5 false H1 H2)))).
Defined.

(** [broken.js]: [getGraphQLTag] throws on the template. *)
Lemma extraction_error_not_cached_witness :
  let s := (findGraphQLTags camelCase preprocessSource babelParseToAst
              getGraphQLTag "broken.js" brokenSource initialLocatorState).2 in
  let events :=
    emitted s ++ [ReportError (problemParsingGraphQL "broken.js");
                  QueryExtractionGraphQLError "broken.js"] in
  fs world0 "broken.js" = Some brokenSource
  ∧ indexOf brokenSource "graphql" ≠ (-1)%Z
  ∧ cache world0 !! md5 ("broken.js" +:+ brokenSource) = None
  ∧ findGraphQLTags camelCase preprocessSource babelParseToAst getGraphQLTag
      "broken.js" brokenSource initialLocatorState
    = (Thrown "GraphQLSyntaxError", s)
  ∧ parseFile "broken.js" world0 = (None, logged world0 events)
  ∧ parseFile "broken.js" (logged world0 events)
    = (None, logged (logged world0 events) events).
Proof.
  intros s events.
  assert (H1 : fs world0 "broken.js" = Some brokenSource) by reflexivity.
  assert (H2 : indexOf brokenSource "graphql" ≠ (-1)%Z) by (by vm_compute).
  assert (H3 : cache world0 !! md5 ("broken.js" +:+ brokenSource) = None)
    by reflexivity.
  assert (H4 : findGraphQLTags camelCase preprocessSource babelParseToAst
                 getGraphQLTag "broken.js" brokenSource initialLocatorState
               = (Thrown "GraphQLSyntaxError", s)) by (by vm_compute).
  destruct (extraction_error_not_cached camelCase md5 preprocessSource
              babelParseToAst getGraphQLTag "broken.js" brokenSource
              "GraphQLSyntaxError" world0 s H1 H2 H3 H4)
    as (Hfirst & _ & Hsecond).
  exact (conj H1 (conj H2 (conj H3 (conj H4 (conj Hfirst Hsecond))))).
Defined.

(** [broken.js] gives null because its extraction throws. *)
Lemma parseFile_null_cases_witness :
  (parseFile "broken.js" world0).1 = None
  ∧ ∃ text error s,
      fs world0 "broken.js" = Some text
      ∧ cache world0 !! md5 ("broken.js" +:+ text) = None
      ∧ findGraphQLTags camelCase preprocessSource babelParseToAst
          getGraphQLTag "broken.js" text initialLocatorState
        = (Thrown error, s)
      ∧ (parseFile "broken.js" world0).2
        = logged world0
            (emitted s ++ [ReportError (problemParsingGraphQL "broken.js");
                           QueryExtractionGraphQLError "broken.js"]).
Proof.
  assert (H : (parseFile "broken.js" world0).1 = None) by (by vm_compute).
  destruct (parseFile_null_cases camelCase md5 preprocessSource
              babelParseToAst getGraphQLTag "broken.js" world0 H)
    as [ [Hfs _]|[(text & Hfs & Hidx & _)|[(text & Hfs & _ & Hc & _)|H4] ] ].
  - discriminate Hfs.
  - injection Hfs as <-. vm_compute in Hidx. discriminate Hidx.
  - injection Hfs as <-. vm_compute in Hc. discriminate Hc.
  - exact (conj H H4).
Defined.

End Runs.

(** * [createPages] on a directory of examples *)
Module ReplRuns.
Import CodeRepls CodeReplsSpec.

Local Abbreviation isScript := (CodeReplsSpec.isScript ReplFixture.extname).
Local Abbreviation slugOf :=
  (CodeReplsSpec.slugOf ReplFixture.extname ReplFixture.RegExp).
Local Abbreviation readable :=
  (CodeReplsSpec.readable ReplFixture.readFileSync ReplFixture.extname
     ReplFixture.RegExp).
Local Abbreviation unreadable :=
  (CodeReplsSpec.unreadable ReplFixture.readFileSync ReplFixture.extname
     ReplFixture.RegExp).
Local Abbreviation pageFor :=
  (CodeReplsSpec.pageFor ReplFixture.readFileSync ReplFixture.extname
     ReplFixture.RegExp ReplFixture.stringify
     (λ p, "/site/" +:+ p)).
Local Abbreviation directoryOf := (CodeRepls.directoryOf "REPL").
Local Abbreviation forFile :=
  (CodeRepls.forFile ReplFixture.readFileSync ReplFixture.extname
     ReplFixture.RegExp ReplFixture.stringify (λ p, "/site/" +:+ p)).

(** The pages of [examples/], with the style sheets. *)
Lemma examples_pages :
  created (ReplFixture.createPages false (Some ReplFixture.withCSS) []).2
  = [{| path := "redirect-to-codepen/a";
        component := "/site/src/redirect.js";
        context_action := "https://codepen.io/pen/define";
        context_payload :=
          "{0010|<div id=root></div>|render(<A />)|react.js;react-dom.js|babel|left|a { color: red }}" |};
     {| path := "redirect-to-codepen/b";
        component := "/site/src/redirect.js";
        context_action := "https://codepen.io/pen/define";
        context_payload :=
          "{0010|<div id=root></div>|render(<B />)|react.js;react-dom.js|babel|left}" |}].
Proof. by vm_compute. Qed.

(** An empty directory. *)
Lemma createPages_empty_or_unlisted_witness :
  let options :=
    Some {| directory := Some (DirectoryString "empty"); codepen := None |} in
  directoryOf options = inr "empty/"
  ∧ ReplFixture.existsSync "empty/" = true
  ∧ ReplFixture.existsSync "src/redirect.js" = true
  ∧ ReplFixture.readdir "empty/" = inr []
  ∧ ReplFixture.createPages true options []
    = (Returned (), [Readdir "empty/"; ConsoleWarn (noFiles "empty/")]).
Proof.
  intros options.
  assert (H0 : directoryOf options = inr "empty/") by reflexivity.
  assert (H1 : ReplFixture.existsSync "empty/" = true) by reflexivity.
  assert (H2 : ReplFixture.existsSync "src/redirect.js" = true)
    by reflexivity.
  assert (H3 : ReplFixture.readdir "empty/" = inr []) by reflexivity.
  exact (conj H0 (conj H1 (conj H2 (conj H3
           (proj1 (CodeReplsFacts.createPages_empty_or_unlisted "REPL"
                     ReplFixture.defaults ReplFixture.existsSync
                     ReplFixture.readdir ReplFixture.readFileSync
                     ReplFixture.extname ReplFixture.RegExp
                     ReplFixture.stringify (λ p, "/site/" +:+ p) true
                     options "empty/" [] H0 H1 H2) H3))))).
Defined.

(** [examples/]: two scripts, a style sheet and a text file. *)
Lemma createPages_script_pages_witness :
  let files := ["examples/a.js"; "examples/a.css"; "examples/notes.md";
                "examples/b.jsx"] in
  let codepen :=
    {| redirectTemplate := "src/redirect.js";
       html := "<div id=root></div>";
       externals := ["react.js"; "react-dom.js"];
       includeMatchingCSS := true |} in
  directoryOf (Some ReplFixture.withCSS) = inr "examples/"
  ∧ ReplFixture.existsSync "examples/" = true
  ∧ ReplFixture.existsSync "src/redirect.js" = true
  ∧ ReplFixture.readdir "examples/" = inr files
  ∧ files ≠ []
  ∧ Forall (λ file, isScript file = true
                    → readable "examples/" codepen file) files
  ∧ ∃ effects,
      ReplFixture.createPages false (Some ReplFixture.withCSS) []
      = (Returned (), Readdir "examples/" :: effects)
      ∧ created effects
        = [pageFor "examples/" codepen "examples/a.js";
           pageFor "examples/" codepen "examples/b.jsx"].
Proof.
  intros files codepen.
  assert (H0 : directoryOf (Some ReplFixture.withCSS) = inr "examples/")
    by reflexivity.
  assert (H1 : ReplFixture.existsSync "examples/" = true) by reflexivity.
  assert (H2 : ReplFixture.existsSync "src/redirect.js" = true)
    by reflexivity.
  assert (H3 : ReplFixture.readdir "examples/" = inr files) by reflexivity.
  assert (H4 : files ≠ []) by done.
  assert (H5 : Forall (λ file, isScript file = true
                               → readable "examples/" codepen file) files).
  { repeat (apply Forall_cons; split;
            [first [intros H; vm_compute in H; discriminate H
                   |intros _; split; [by eexists|];
                    split; [by eexists|intros _; by eexists] ] |]).
    by apply Forall_nil. }
  destruct (CodeReplsFacts.createPages_script_pages "REPL"
              ReplFixture.defaults ReplFixture.existsSync
              ReplFixture.readdir ReplFixture.readFileSync
              ReplFixture.extname ReplFixture.RegExp
              ReplFixture.stringify (λ p, "/site/" +:+ p) false
              (Some ReplFixture.withCSS) "examples/" files [] H0 H1 H2 H3 H4
              H5)
    as (effects & Hrun & Hcreated & _).
  exact (conj H0 (conj H1 (conj H2 (conj H3 (conj H4 (conj H5
           (ex_intro _ effects (conj Hrun Hcreated)))))))).
Defined.

(** [locked/]: the second of three scripts cannot be read. *)
Lemma createPages_stops_at_unreadable_witness :
  let options :=
    Some {| directory := Some (DirectoryString "locked/");
            codepen := None |} in
  let denied := {| code := Some "EACCES"; message := "permission denied" |} in
  directoryOf options = inr "locked/"
  ∧ ReplFixture.existsSync "locked/" = true
  ∧ ReplFixture.existsSync "src/redirect.js" = true
  ∧ ReplFixture.readdir "locked/"
    = inr (["locked/a.js"] ++ "locked/b.js" :: ["locked/c.js"])
  ∧ Forall (λ file, isScript file = true
                    → readable "locked/" ReplFixture.defaults file)
      ["locked/a.js"]
  ∧ isScript "locked/b.js" = true
  ∧ unreadable "locked/" ReplFixture.defaults "locked/b.js" denied
  ∧ ∃ effects reads,
      ReplFixture.createPages true options []
      = (Returned (),
         Readdir "locked/" :: effects ++ (ReadFileSync <$> reads)
           ++ [ReporterPanic (cannotReadDirectory "locked/") (Some denied)])
      ∧ created effects = [pageFor "locked/" ReplFixture.defaults "locked/a.js"].
Proof.
  intros options denied.
  assert (H0 : directoryOf options = inr "locked/") by reflexivity.
  assert (H1 : ReplFixture.existsSync "locked/" = true) by reflexivity.
  assert (H2 : ReplFixture.existsSync "src/redirect.js" = true)
    by reflexivity.
  assert (H3 : ReplFixture.readdir "locked/"
               = inr (["locked/a.js"] ++ "locked/b.js" :: ["locked/c.js"]))
    by reflexivity.
  assert (H4 : Forall (λ file, isScript file = true
                               → readable "locked/" ReplFixture.defaults file)
                 ["locked/a.js"]).
  { apply Forall_cons. split; [|by apply Forall_nil].
    intros _. split; [by eexists|].
    split; [by eexists|intros H; discriminate H]. }
  assert (H5 : isScript "locked/b.js" = true) by reflexivity.
  assert (H6 : unreadable "locked/" ReplFixture.defaults "locked/b.js" denied).
  { right. split; [by eexists|]. by left. }
  destruct (CodeReplsFacts.createPages_stops_at_unreadable "REPL"
              ReplFixture.defaults ReplFixture.existsSync
              ReplFixture.readdir ReplFixture.readFileSync
              ReplFixture.extname ReplFixture.RegExp
              ReplFixture.stringify (λ p, "/site/" +:+ p) true
              options "locked/" ["locked/a.js"] "locked/b.js" ["locked/c.js"]
              denied [] H0 H1 H2 H3 H4 H5 H6)
    as (effects & reads & Hrun & Hcreated & _).
  exact (conj H0 (conj H1 (conj H2 (conj H3 (conj H4 (conj H5 (conj H6
           (ex_intro _ effects
              (ex_intro _ reads (conj Hrun Hcreated)))))))))).
Defined.

(** What is left of [locked/]: one page, two reads and the panic. *)
Lemma locked_run :
  let denied := {| code := Some "EACCES"; message := "permission denied" |} in
  (ReplFixture.createPages false
     (Some {| directory := Some (DirectoryString "locked/");
              codepen := None |}) [])
  = (Exited,
     [Readdir "locked/"; ReadFileSync "locked/a.js";
      CreatePage (pageFor "locked/" ReplFixture.defaults "locked/a.js");
      ReadFileSync "locked/b.js";
      ReporterPanic (cannotReadDirectory "locked/") (Some denied)]).
Proof. by vm_compute. Qed.

(** A directory whose name is no regular expression: the first script
    of the listing ends the run before it is read. *)
Lemma invalid_pattern_run :
  ReplFixture.createPages true
    (Some {| directory := Some (DirectoryString "c++"); codepen := None |}) []
  = (Returned (),
     [Readdir "c++/";
      ReporterPanic (cannotReadDirectory "c++/")
        (Some {| code := None;
                 message := "SyntaxError: Invalid regular expression: Nothing to repeat" |})]).
Proof. by vm_compute. Qed.

(** [directory: null] and [directory: 3] *)
Lemma directory_not_a_string :
  ReplFixture.createPages true
    (Some {| directory := Some DirectoryNull; codepen := None |}) []
  = (Threw endsWithOfNull, [])
  ∧ ReplFixture.createPages true
      (Some {| directory := Some DirectoryOther; codepen := None |}) []
    = (Threw endsWithNotAFunction, []).
Proof. by vm_compute. Qed.

(** A directory that does not exist. *)
Lemma createPages_invalid_paths_witness :
  let options :=
    Some {| directory := Some (DirectoryString "missing");
            codepen := None |} in
  directoryOf options = inr "missing/"
  ∧ ReplFixture.existsSync "missing/" = false
  ∧ ∃ rest,
      (ReplFixture.createPages false options []).2
      = ReporterPanic (invalidDirectory "missing/") None :: rest
      ∧ (false = false →
         rest = [] ∧ (ReplFixture.createPages false options []).1 = Exited).
Proof.
  intros options.
  assert (H0 : directoryOf options = inr "missing/") by reflexivity.
  assert (H1 : ReplFixture.existsSync "missing/" = false) by reflexivity.
  exact (conj H0 (conj H1
           (proj1 (CodeReplsFacts.createPages_invalid_paths "REPL"
                     ReplFixture.defaults ReplFixture.existsSync
                     ReplFixture.readdir ReplFixture.readFileSync
                     ReplFixture.extname ReplFixture.RegExp
                     ReplFixture.stringify (λ p, "/site/" +:+ p) false
                     options "missing/" [] H0) H1))).
Defined.

(** A script below a directory whose name holds the extension. *)
Lemma matchingCSS_first_occurrence_witness :
  let file := "examples/chart" +:+ ".js" +:+ "/a.js" in
  let codepen :=
    {| redirectTemplate := "src/redirect.js";
       html := "<div id=root></div>";
       externals := ["react.js"; "react-dom.js"];
       includeMatchingCSS := true |} in
  ReplFixture.extname file = ".js"
  ∧ indexOf file ".js" = Z.of_nat (String.length "examples/chart")
  ∧ isScript file = true
  ∧ includeMatchingCSS codepen = true
  ∧ (∃ slug, slugOf "examples/" file = inr slug)
  ∧ (∃ contents, ReplFixture.readFileSync file = inr contents)
  ∧ ∃ effects,
      (forFile "examples/" codepen file []).2
      = ReadFileSync file
          :: ReadFileSync ("examples/chart" +:+ ".css" +:+ "/a.js")
          :: effects
      ∧ filesRead effects = [].
Proof.
  intros file codepen.
  assert (H1 : ReplFixture.extname file = ".js") by (by vm_compute).
  assert (H2 : indexOf file ".js"
               = Z.of_nat (String.length "examples/chart"))
    by (by vm_compute).
  assert (H3 : isScript file = true) by (by vm_compute).
  assert (H4 : includeMatchingCSS codepen = true) by reflexivity.
  assert (H5 : ∃ slug, slugOf "examples/" file = inr slug)
    by (by eexists).
  assert (H6 : ∃ contents, ReplFixture.readFileSync file = inr contents)
    by (by eexists).
  exact (conj H1 (conj H2 (conj H3 (conj H4 (conj H5 (conj H6
           (CodeReplsFacts.matchingCSS_first_occurrence
              ReplFixture.readFileSync ReplFixture.extname
              ReplFixture.RegExp ReplFixture.stringify
              (λ p, "/site/" +:+ p) "examples/" codepen
              "examples/chart" ".js" "/a.js" [] H1 H2 H3 H4 H5 H6))))))).
Defined.

(** The style sheet read for [examples/chart.js/a.js]. *)
Lemma chart_style_sheet :
  filesRead
    (forFile "examples/" (spread ReplFixture.defaults
                            {| given_redirectTemplate := None;
                               given_html := None;
                               given_externals := None;
                               given_includeMatchingCSS := Some true |})
       "examples/chart.js/a.js" []).2
  = ["examples/chart.js/a.js"; "examples/chart.css/a.js"].
Proof. by vm_compute. Qed.

End ReplRuns.


(** * The autosave on sample runs *)
Module AutosaveRuns.
Import Autosave.

(** Development: events before bootstrap has finished. *)
Lemma quiet_until_bootstrap_witness :
  let history := [Emit "CREATE_NODE"; Emit "*"; DelayElapsed; Settle None] in
  Forall (λ x, isBootstrapFinished x = false) history
  ∧ run None (Some "develop") history initial = initial.
Proof.
  intros history.
  assert (H : Forall (λ x, isBootstrapFinished x = false) history)
    by (by repeat constructor).
  exact (conj H (AutosaveFacts.quiet_until_bootstrap None (Some "develop")
                   history H)).
Defined.

(** Development, after bootstrap: an event schedules a save. *)
Lemma develop_events_witness :
  let st := {| saveInProgress := false; bootstrapFinished := true;
               scheduled := false; effects := [SaveStates ["redux"]] |} in
  Some "develop" = Some "develop"
  ∧ "CREATE_NODE" ≠ "BOOTSTRAP_FINISHED"
  ∧ emit None (Some "develop") "CREATE_NODE" st = saveStateDebounced st.
Proof.
  intros st.
  assert (H1 : Some "develop" = Some "develop") by reflexivity.
  assert (H2 : "CREATE_NODE" ≠ "BOOTSTRAP_FINISHED") by done.
  exact (conj H1 (conj H2
           (proj2 (AutosaveFacts.develop_events None (Some "develop")
                     "CREATE_NODE" st H1) H2))).
Defined.

(** The debounced save comes due during the first save. *)
Lemma save_during_save_dropped_witness :
  let st := {| saveInProgress := true; bootstrapFinished := true;
               scheduled := true; effects := [SaveStates ["redux"]] |} in
  saveInProgress st = true
  ∧ saves (run None (Some "develop") [DelayElapsed; Settle None] st) = saves st.
Proof.
  intros st.
  assert (H : saveInProgress st = true) by reflexivity.
  exact (conj H
           (proj1 (proj2 (AutosaveFacts.save_during_save_dropped None
                            (Some "develop") st None H)))).
Defined.

(** A development session: bootstrap, a change during the save, a
    rejected save, a further change. *)
Lemma develop_session :
  effects
    (run (Some "loki") (Some "develop")
       [Emit "CREATE_NODE"; Emit "BOOTSTRAP_FINISHED"; Emit "CREATE_NODE";
        DelayElapsed;
        Settle (Some {| err_message := Some "disk full";
                        err_shown := "Error: disk full" |});
        Emit "CREATE_NODE"; DelayElapsed] initial)
  = [SaveStates ["redux"; "loki"];
     Warn "Error persisting state: disk full";
     SaveStates ["redux"; "loki"]].
Proof. by vm_compute. Qed.

End AutosaveRuns.
